(** * Golden Thread Framework: traceability validators

    A shallow embedding of the registry accessor
    ([golden_thread/notion/registry.py]), the client cache
    ([golden_thread/notion/client.py]) and the three validators
    ([golden_thread/validators/{coverage,consistency,orphans}.py]),
    together with the properties of the design document that concern them.

    Conventions.
    - Python [str] is [string]; every character is one [ascii] (code points
      below 256).
    - A [dict] with string keys is a [gmap string _]; a [set] of strings is a
      [gset string]; a [dict] whose iteration order is observed is an
      association list.
    - A Python value is "falsy" when it is [None], the empty string or the
      empty list; [x.get(k)] on a dict is the lookup [x !! k].
    - A finite Python [float] is the rational number that it is, and the
      arithmetic on floats rounds to binary64 ([Float]).
    - A function that may raise returns an [outcome]; one that also reads
      or changes the world is a computation [M]. *)

From Stdlib Require Import Ascii String QArith Qround Lqa.
From stdpp Require Import gmap strings list pretty.
Local Open Scope string_scope.
Local Open Scope list_scope.
#[local] Set Warnings "-clear-no-such-hyp".

(** ** Python string primitives *)

Module Py.

(** [s.split(sep)] for a one-character separator: never the empty list. *)
Fixpoint split (sep : ascii) (s : string) : list string :=
  match s with
  | EmptyString => [""]
  | String c s' =>
      if Ascii.eqb c sep then "" :: split sep s'
      else match split sep s' with
           | [] => [String c ""]
           | p :: ps => String c p :: ps
           end
  end.

(** [s.split(sep, 1)]: at most one cut, at the first separator. *)
Fixpoint split1 (sep : ascii) (s : string) : list string :=
  match s with
  | EmptyString => [""]
  | String c s' =>
      if Ascii.eqb c sep then [""; s']
      else match split1 sep s' with
           | [] => [String c ""]
           | p :: ps => String c p :: ps
           end
  end.

(** [c in s] for a character [c] *)
Fixpoint contains (c : ascii) (s : string) : bool :=
  match s with
  | EmptyString => false
  | String d s' => Ascii.eqb d c || contains c s'
  end.

(** [s.startswith(p)] *)
Definition startswith (s p : string) : bool := String.prefix p s.

(** [all(p(c) for c in s)] *)
Fixpoint all_chars (p : ascii -> bool) (s : string) : bool :=
  match s with
  | EmptyString => true
  | String c s' => p c && all_chars p s'
  end.

Definition is_digit (c : ascii) : bool :=
  (("0" <=? c) && (c <=? "9"))%char.

(** [c] is one of the capitals [A] to [Z]. *)
Definition is_upper (c : ascii) : bool :=
  (("A" <=? c) && (c <=? "Z"))%char.

(** [c.lower()] on code points below 256: the capitals A-Z and the
    accented capitals 192-214 and 216-222 move up by 32. *)
Definition lower_char (c : ascii) : ascii :=
  let n := nat_of_ascii c in
  if ((65 <=? n) && (n <=? 90) || (192 <=? n) && (n <=? 214)
      || (216 <=? n) && (n <=? 222))%nat
  then ascii_of_nat (n + 32) else c.

(** [s.lower()] *)
Fixpoint lower (s : string) : string :=
  match s with
  | EmptyString => EmptyString
  | String c s' => String (lower_char c) (lower s')
  end.

(** [c.isspace()] on code points below 256. *)
Definition isspace (c : ascii) : bool :=
  let n := nat_of_ascii c in
  ((9 <=? n) && (n <=? 13) || (28 <=? n) && (n <=? 32)
   || (n =? 133) || (n =? 160))%nat.

Fixpoint lstrip (s : string) : string :=
  match s with
  | String c s' => if isspace c then lstrip s' else s
  | EmptyString => EmptyString
  end.

Fixpoint rstrip (s : string) : string :=
  match s with
  | EmptyString => EmptyString
  | String c s' =>
      match rstrip s' with
      | EmptyString => if isspace c then EmptyString else String c EmptyString
      | r => String c r
      end
  end.

(** [s.strip()] *)
Definition strip (s : string) : string := rstrip (lstrip s).

End Py.

(** ** Regular expressions of [ID_PATTERNS]

    The patterns of [golden_thread/__init__.py] use literals, the class
    [[A-Z]] under [+], [\d] under [{3}], and the anchors [^] and [$].  They
    are kept as parsed sequences of nodes; [re_match] is [re.match]: the
    pattern is tried at position 0 and may stop before the end of the
    subject, [^] holds at position 0 and [$] at the end of the subject or
    just before a newline that ends it.  [\d] is [0-9], the only decimal
    digits among the code points below 256. *)

Module Re.

Inductive atom : Type :=
| Lit (c : ascii)
| Range (lo hi : ascii)
| Digit.

Inductive node : Type :=
| Bol
| Eol
| One (a : atom)
| Plus (a : atom)
| Rep (n : nat) (a : atom).

Definition pattern := list node.

Definition atom_ok (a : atom) (c : ascii) : bool :=
  match a with
  | Lit l => Ascii.eqb c l
  | Range lo hi => ((lo <=? c) && (c <=? hi))%char
  | Digit => (("0" <=? c) && (c <=? "9"))%char
  end.

Definition at_end (s : string) : bool :=
  match s with
  | EmptyString => true
  | String c EmptyString => Ascii.eqb c "010"
  | _ => false
  end.

Section Match.
Variable a : atom.
Variable k : string -> bool.

(** [a+] followed by the continuation [k]. *)
Fixpoint plus (s : string) : bool :=
  match s with
  | EmptyString => false
  | String c r => atom_ok a c && (plus r || k r)
  end.

(** [a{n}] followed by the continuation [k]. *)
Fixpoint rep (n : nat) (s : string) : bool :=
  match n with
  | O => k s
  | S n' =>
      match s with
      | EmptyString => false
      | String c r => atom_ok a c && rep n' r
      end
  end.
End Match.

(** [go p s at0]: [p] matches a prefix of [s]; [at0] tells whether [s]
    starts at position 0 of the subject. *)
Fixpoint go (p : pattern) : string -> bool -> bool :=
  match p with
  | [] => fun _ _ => true
  | n :: p' =>
      let k := go p' in
      match n with
      | Bol => fun s at0 => at0 && k s at0
      | Eol => fun s at0 => at_end s && k s at0
      | One a =>
          fun s _ =>
            match s with
            | EmptyString => false
            | String c r => atom_ok a c && k r false
            end
      | Plus a => fun s _ => plus a (fun r => k r false) s
      | Rep O a => fun s at0 => k s at0
      | Rep n a => fun s _ => rep a (fun r => k r false) n s
      end
  end.

Definition re_match (p : pattern) (s : string) : bool := go p s true.

Fixpoint lits (s : string) : pattern :=
  match s with
  | EmptyString => []
  | String c s' => One (Lit c) :: lits s'
  end.

End Re.

(** ** Constants of [golden_thread/__init__.py] *)

(** [id_regex T] is the parsed form of [r'^T-[A-Z]+-\d{3}$']. *)
Definition id_regex (ty : string) : Re.pattern :=
  Re.Bol :: Re.lits ty ++
  [Re.One (Re.Lit "-"); Re.Plus (Re.Range "A" "Z"); Re.One (Re.Lit "-");
   Re.Rep 3 Re.Digit; Re.Eol].

Definition ID_PATTERNS : gmap string Re.pattern :=
  list_to_map
    [("BR", id_regex "BR"); ("UR", id_regex "UR"); ("FEAT", id_regex "FEAT");
     ("CF", id_regex "CF"); ("FR", id_regex "FR"); ("NFR", id_regex "NFR");
     ("TSR", id_regex "TSR"); ("TCR", id_regex "TCR"); ("V", id_regex "V");
     ("TC", id_regex "TC"); ("EA", id_regex "EA"); ("IF", id_regex "IF");
     ("EVT", id_regex "EVT"); ("GQL", id_regex "GQL"); ("RPC", id_regex "RPC")].

(** ** [NotionRegistry]: identifier helpers *)

(** [_extract_id_type] *)
Definition _extract_id_type (id_str : string) : option string :=
  let parts := Py.split "-" id_str in
  if (length parts <? 2)%nat then None else head parts.

(** [validate_id_format] *)
Definition validate_id_format (id_str : string) : bool :=
  match _extract_id_type id_str with
  | None => false
  | Some "" => false
  | Some id_type =>
      match ID_PATTERNS !! id_type with
      | None => false
      | Some [] => false
      | Some pat => Re.re_match pat id_str
      end
  end.

(** The shape of an accepted identifier: a type of the table, a scope of
    one or more capitals, three digits, and nothing else but possibly one
    final newline. *)
Definition well_formed_id (id_str : string) : Prop :=
  exists ty scope num tl,
    is_Some (ID_PATTERNS !! ty) /\
    id_str = ty +:+ "-" +:+ scope +:+ "-" +:+ num +:+ tl /\
    scope <> "" /\ Py.all_chars Py.is_upper scope = true /\
    String.length num = 3 /\ Py.all_chars Py.is_digit num = true /\
    (tl = "" \/ tl = String "010" "").

(** ** Exceptions and effects

    Calls that reach the registry client read and change the outside world
    (the network, the cache files, the clocks) and may raise.  A
    computation is a function of the world that returns the new world and
    either the raised exception or a value. *)

Inductive exn : Type :=
| NotionError (msg : string)
| ValueError (msg : string)
| ZeroDivisionError (msg : string)
| OverflowError (msg : string)
| TypeError (msg : string)
| AttributeError (msg : string)
| OtherError (msg : string).

(** [str(e)] *)
Definition exn_str (e : exn) : string :=
  match e with
  | NotionError m | ValueError m | ZeroDivisionError m | OverflowError m
  | TypeError m | AttributeError m | OtherError m => m
  end.

Inductive outcome (A : Type) : Type :=
| Raise (e : exn)
| Return (a : A).
Arguments Raise {A} e.
Arguments Return {A} a.

(** [f <$> o]: the value returned, seen through [f]. *)
#[global] Instance outcome_fmap : FMap outcome :=
  fun A B f o =>
    match o with
    | Raise e => Raise e
    | Return a => Return (f a)
    end.

Definition M (W A : Type) : Type := W -> W * outcome A.

Definition ret {W A} (a : A) : M W A := fun w => (w, Return a).

Definition raise {W A} (e : exn) : M W A := fun w => (w, Raise e).

(** A computation without effects run among the others. *)
Definition lift {W A} (o : outcome A) : M W A := fun w => (w, o).

Definition bind {W A B} (m : M W A) (f : A -> M W B) : M W B :=
  fun w =>
    match m w with
    | (w', Return a) => f a w'
    | (w', Raise e) => (w', Raise e)
    end.

(** [try: m  except Exception as e: h e] *)
Definition try_except {W A} (m : M W A) (h : exn -> M W A) : M W A :=
  fun w =>
    match m w with
    | (w', Raise e) => h e w'
    | r => r
    end.

(** [try: m  except NotionError: h] *)
Definition try_except_NotionError {W A} (m : M W A) (h : M W A) : M W A :=
  fun w =>
    match m w with
    | (w', Raise (NotionError _)) => h w'
    | r => r
    end.

Declare Scope monad_scope.
Delimit Scope monad_scope with monad.
Notation "x <- m ;; k" := (bind m (fun x => k))
  (at level 100, m at next level, right associativity) : monad_scope.

(** A [for] loop that threads an accumulator through a body with effects. *)
Fixpoint for_each {W A S} (xs : list A) (body : S -> A -> M W S) (acc : S)
  : M W S :=
  match xs with
  | [] => ret acc
  | x :: xs' => bind (body acc x) (for_each xs' body)
  end.

(** The elements of [xs] visited one after the other, each in the world
    that the one before left: every element with the world in which it was
    visited and what the visit gave. *)
Fixpoint visits {W A B} (visit : A -> W -> W * B) (xs : list A) (w : W)
  : W * list (A * W * B) :=
  match xs with
  | [] => (w, [])
  | x :: xs' =>
      let '(w', b) := visit x w in
      let '(w'', rest) := visits visit xs' w' in
      (w'', (x, w, b) :: rest)
  end.

(** [b] is [a] with more appended. *)
Definition extends {A} (a b : list A) : Prop := exists k, b = a ++ k.

(** ** Floating-point numbers

    A Python [float] is a binary64 number.  A finite one is kept as the
    rational number that it is, and an operation returns the exact result
    rounded to the nearest such number, ties to the even significand:
    53 significant bits, the exponent of the last bit never below -1074
    (the subnormal numbers).  The numbers of this development stay far
    below the largest finite binary64 number (they are percentages, the
    lengths of lists in memory and clock readings), so infinities and NaN
    do not come up. *)

Module Float.

Definition emin : Z := (-1074)%Z.

(** [2 ^ e] for any integer [e]. *)
Definition pow2 (e : Z) : Q :=
  if (0 <=? e)%Z then inject_Z (2 ^ e) else 1 # Z.to_pos (2 ^ (- e)).

(** The integer part of the binary logarithm of a positive [x]. *)
Definition ilog2 (x : Q) : Z :=
  let k := (Z.log2 (Qnum x) - Z.log2 (Zpos (Qden x)))%Z in
  if Qle_bool (pow2 k) x then k else (k - 1)%Z.

(** The nearest integer, a tie going to the even one. *)
Definition rne (x : Q) : Z :=
  let f := Qfloor x in
  match (x - inject_Z f ?= 1 # 2)%Q with
  | Lt => f
  | Gt => (f + 1)%Z
  | Eq => if Z.even f then f else (f + 1)%Z
  end.

(** The exponent of the last bit kept for a positive [x]. *)
Definition ulp_exp (x : Q) : Z := Z.max emin (ilog2 x - 52).

Definition rnd_pos (x : Q) : Q :=
  Qred (inject_Z (rne (x / pow2 (ulp_exp x))) * pow2 (ulp_exp x)).

(** The binary64 number nearest to [x]. *)
Definition rnd (x : Q) : Q :=
  match Qnum x with
  | Z0 => 0
  | Zpos _ => rnd_pos x
  | Zneg _ => Qred (- rnd_pos (- x))
  end.

(** [x * y], [x - y] and [x + y] on floats. *)
Definition mul (x y : Q) : Q := rnd (x * y).
Definition sub (x y : Q) : Q := rnd (x - y).
Definition add (x y : Q) : Q := rnd (x + y).

(** [a / b] on integers: the quotient of the two integers, rounded once. *)
Definition int_truediv (a b : Z) : outcome Q :=
  if (b =? 0)%Z then Raise (ZeroDivisionError "division by zero")
  else Return (rnd (inject_Z a / inject_Z b)).

(** [x / y] on floats. *)
Definition div (x y : Q) : outcome Q :=
  if Qeq_bool y 0 then Raise (ZeroDivisionError "float division by zero")
  else Return (rnd (x / y)).

End Float.


(** ** Registry pages and entries

    A page is a well-formed object of the remote API: a dictionary of
    properties, each of one kind.  Text kinds carry the [plain_text] of
    their items, a select its option name ([None] for a null select), a
    relation the ids of the related pages. *)

Inductive prop_value : Type :=
| PTitle (items : list string)
| PRichText (items : list string)
| PSelect (sel : option string)
| PMultiSelect (names : list string)
| PRelation (ids : list string)
| POther.

Record page : Type := { properties : gmap string prop_value }.

(** The query filter of [get_entry]:
    [{"property": p, "title": {op: v}}]. *)
Inductive filter_op : Type := equals | contains.
Record filter : Type :=
  { f_property : string; f_op : filter_op; f_value : string }.

(** What [_extract_property] returns: a string or a list of strings. *)
Inductive pyval : Type :=
| VStr (s : string)
| VList (l : list string).

Definition truthy (v : pyval) : bool :=
  match v with
  | VStr "" | VList [] => false
  | _ => true
  end.

(** [a or b] *)
Definition py_or (a b : pyval) : pyval := if truthy a then a else b.

Definition as_str (v : pyval) : string :=
  match v with VStr s => s | VList _ => "" end.

Definition as_list (v : pyval) : list string :=
  match v with VList l => l | VStr _ => [] end.

Record RegistryEntry : Type :=
  { id : string;
    title : string;
    status : string;
    entry_properties : gmap string prop_value;
    related_ids : gmap string (list string) }.

(** [RELATION_PROPERTIES] *)
Definition RELATION_PROPERTIES : gmap string (list string) :=
  list_to_map
    [("FEAT", ["BR"; "UR"; "FR"; "NFR"; "TSR"; "TCR"; "CF"]);
     ("FR", ["V"; "FEAT"]);
     ("NFR", ["V"; "FEAT"]);
     ("TSR", ["V"; "FEAT"]);
     ("TCR", ["V"; "FEAT"]);
     ("V", ["TC"; "FR"; "NFR"; "TSR"; "TCR"]);
     ("TC", ["EA"; "V"])].

(** [_extract_property] *)
Definition _extract_property (prop : option prop_value) (prop_type : string)
  : pyval :=
  match prop with
  | None => VStr ""
  | Some pv =>
      if String.eqb prop_type "title" then
        match pv with
        | PTitle (t :: _) => VStr t
        | _ => VStr ""
        end
      else if String.eqb prop_type "rich_text" then
        match pv with
        | PRichText (t :: _) => VStr t
        | _ => VStr ""
        end
      else if String.eqb prop_type "select" then
        match pv with
        | PSelect (Some n) => VStr n
        | _ => VStr ""
        end
      else if String.eqb prop_type "multi_select" then
        match pv with
        | PMultiSelect ns => VList ns
        | _ => VList []
        end
      else if String.eqb prop_type "relation" then
        match pv with
        | PRelation ids => VList ids
        | _ => VList []
        end
      else VStr ""
  end.

(** The inner loop of [_extract_related_ids]: the first of the candidate
    property names that is present with a non-empty relation. *)
Fixpoint first_relation (props : gmap string prop_value)
    (prop_names : list string) : option (list string) :=
  match prop_names with
  | [] => None
  | prop_name :: rest =>
      match props !! prop_name with
      | Some pv =>
          let rel_ids := _extract_property (Some pv) "relation" in
          if truthy rel_ids then Some (as_list rel_ids)
          else first_relation props rest
      | None => first_relation props rest
      end
  end.

(** [_extract_related_ids] *)
Definition _extract_related_ids (props : gmap string prop_value)
    (id_type : string) : gmap string (list string) :=
  let relation_types := default [] (RELATION_PROPERTIES !! id_type) in
  foldl
    (fun related rel_type =>
       match first_relation props
               [rel_type +:+ "-IDs"; rel_type +:+ " IDs"; rel_type] with
       | Some rel_ids => <[rel_type := rel_ids]> related
       | None => related
       end)
    ∅ relation_types.

(** [_parse_entry] *)
Definition _parse_entry (pg : page) (id_type : string) : RegistryEntry :=
  let props := properties pg in
  let id_value :=
    py_or (_extract_property (props !! "ID") "title")
      (py_or (_extract_property (props !! "Name") "title") (VStr "")) in
  let title :=
    py_or (_extract_property (props !! "Title") "rich_text")
      (py_or (_extract_property (props !! "Description") "rich_text")
         (py_or (_extract_property (props !! "Name") "rich_text") (VStr ""))) in
  let status :=
    py_or (_extract_property (props !! "Status") "select")
      (py_or (_extract_property (props !! "State") "select") (VStr "")) in
  let related_ids := _extract_related_ids props id_type in
  {| id := as_str id_value;
     title := as_str title;
     status := as_str status;
     entry_properties := props;
     related_ids := related_ids |}.

(** The result dictionary of [validate_traceability_chain]. *)
Module Chain.
Record ChainResult : Type :=
  { valid : bool; errors : list string; warnings : list string }.
End Chain.

(** [not d.get(k)] on a dictionary of lists. *)
Definition missing (d : gmap string (list string)) (k : string) : bool :=
  match d !! k with
  | Some (_ :: _) => false
  | _ => true
  end.

(** [d.get(k, [])] *)
Definition get_list (d : gmap string (list string)) (k : string)
  : list string :=
  default [] (d !! k).

Definition REQ_TYPES : list string := ["FR"; "NFR"; "TSR"; "TCR"].

Section Registry.
Local Open Scope monad_scope.

(** The world the client acts on, the configured [database_ids] and the
    client's [search_database]. *)
Context {W : Type}.
Variable database_ids : gmap string string.
Variable search_database : string -> option filter -> M W (list page).

(** [get_entry] *)
Definition get_entry (id_str : string) : M W (option RegistryEntry) :=
  match _extract_id_type id_str with
  | None | Some "" => raise (NotionError ("Invalid ID format: " +:+ id_str))
  | Some id_type =>
      match database_ids !! id_type with
      | None | Some "" =>
          raise (NotionError
                   ("Unknown ID type: " +:+ id_type
                    +:+ String "010" "Please add " +:+ id_type
                    +:+ " database ID to configuration."))
      | Some db_id =>
          results <-
            try_except_NotionError
              (search_database db_id
                 (Some {| f_property := "ID"; f_op := equals;
                          f_value := id_str |}))
              (search_database db_id
                 (Some {| f_property := "Name"; f_op := contains;
                          f_value := id_str |})) ;;
          match results with
          | [] => ret None
          | pg :: _ => ret (Some (_parse_entry pg id_type))
          end
      end
  end.

(** The body of the innermost loop of [validate_traceability_chain]:
    one verification id. *)
Definition check_verification (errors : list string) (v_id : string)
  : M W (list string) :=
  v <- get_entry v_id ;;
  match v with
  | None => ret (errors ++ ["INVALID_ID: " +:+ v_id +:+ " not found"])
  | Some v =>
      let errors :=
        if missing (related_ids v) "TC"
        then errors ++ ["MISSING_TC: " +:+ v_id +:+ " has no Test Case"]
        else errors in
      let errors :=
        if negb (String.eqb (status v) "")
           && String.eqb (Py.lower (status v)) "verified"
        then
          if missing (related_ids v) "EA"
          then errors ++ ["MISSING_EA: " +:+ v_id
                          +:+ " is Verified but has no Evidence Artifact"]
          else errors
        else errors in
      ret errors
  end.

(** The body of the loop over requirement ids. *)
Definition check_requirement (errors : list string) (req_id : string)
  : M W (list string) :=
  req <- get_entry req_id ;;
  match req with
  | None => ret (errors ++ ["INVALID_ID: " +:+ req_id +:+ " not found"])
  | Some req =>
      if missing (related_ids req) "V"
      then ret (errors ++ ["MISSING_V: " +:+ req_id +:+ " has no Verification"])
      else for_each (get_list (related_ids req) "V") check_verification errors
  end.

(** [validate_traceability_chain] *)
Definition validate_traceability_chain (feat_id : string)
  : M W Chain.ChainResult :=
  let errors := [] in
  let warnings := [] in
  feat <- get_entry feat_id ;;
  match feat with
  | None =>
      let errors :=
        errors ++ ["INVALID_ID: " +:+ feat_id
                   +:+ " not found in Feature Registry"] in
      ret {| Chain.valid := false; Chain.errors := errors;
             Chain.warnings := warnings |}
  | Some feat =>
      let errors :=
        if missing (related_ids feat) "BR"
        then errors ++ ["MISSING_BR: " +:+ feat_id
                        +:+ " has no Business Requirement"]
        else errors in
      let errors :=
        if missing (related_ids feat) "UR"
        then errors ++ ["MISSING_UR: " +:+ feat_id
                        +:+ " has no User Requirement"]
        else errors in
      let has_requirements :=
        existsb (fun req_type => negb (missing (related_ids feat) req_type))
          REQ_TYPES in
      let errors :=
        if negb has_requirements
        then errors ++ ["MISSING_FR: " +:+ feat_id
                        +:+ " has no Functional Requirements"]
        else errors in
      let warnings :=
        if missing (related_ids feat) "CF"
        then warnings ++ ["MISSING_CF: " +:+ feat_id +:+ " has no Call Flow"]
        else warnings in
      errors <-
        for_each REQ_TYPES
          (fun errors req_type =>
             for_each (get_list (related_ids feat) req_type)
               check_requirement errors)
          errors ;;
      ret {| Chain.valid := (length errors =? 0)%nat;
             Chain.errors := errors; Chain.warnings := warnings |}
  end.


(** A chain without gaps, as the design document understands it.  An id
    "resolves to" an entry when [get_entry] returns that entry whenever it
    is asked. *)
Definition resolves_to (id_str : string) (e : RegistryEntry) : Prop :=
  forall w, exists w', get_entry id_str w = (w', Return (Some e)).

Definition is_verified (v : RegistryEntry) : bool :=
  String.eqb (Py.lower (status v)) "verified".

Definition verification_complete (v_id : string) : Prop :=
  exists v,
    resolves_to v_id v /\
    missing (related_ids v) "TC" = false /\
    (is_verified v = true -> missing (related_ids v) "EA" = false).

Definition requirement_complete (req_id : string) : Prop :=
  exists req,
    resolves_to req_id req /\
    missing (related_ids req) "V" = false /\
    Forall verification_complete (get_list (related_ids req) "V").

(** All requirement links of a feature, in the order they are visited. *)
Definition requirement_links (feat : RegistryEntry) : list string :=
  concat (map (get_list (related_ids feat)) REQ_TYPES).

(** The errors and warnings found on the feature entry itself. *)
Definition feature_errors (feat_id : string) (feat : RegistryEntry)
  : list string :=
  (if missing (related_ids feat) "BR"
   then ["MISSING_BR: " +:+ feat_id +:+ " has no Business Requirement"]
   else [])
  ++ (if missing (related_ids feat) "UR"
      then ["MISSING_UR: " +:+ feat_id +:+ " has no User Requirement"]
      else [])
  ++ (match requirement_links feat with
      | [] => ["MISSING_FR: " +:+ feat_id +:+ " has no Functional Requirements"]
      | _ => []
      end).

Definition feature_warnings (feat_id : string) (feat : RegistryEntry)
  : list string :=
  if missing (related_ids feat) "CF"
  then ["MISSING_CF: " +:+ feat_id +:+ " has no Call Flow"]
  else [].

End Registry.

(** ** The manifest ([golden_thread/manifest.py]) *)

Record SymbolMapping : Type :=
  { map_path : string; map_type : string; map_ids : list string }.

Record FeatureMapping : Type :=
  { feat_id : string;
    feat_description : string;
    business_requirements : list string;
    user_requirements : list string;
    call_flows : list string }.

Record InterfaceMapping : Type :=
  { iface_id : string;
    iface_type : string;
    endpoint : option string;
    operation : option string;
    iface_service : option string;
    method : option string;
    requirements : list string }.

Record TestMapping : Type :=
  { test_path : string;
    test_cases : list string;
    verifications : list string }.

Record Exclusions : Type :=
  { patterns : list string; excl_symbols : list string }.

Record Manifest : Type :=
  { service : string;
    version : string;
    metadata : gmap string string;
    symbols : list SymbolMapping;
    features : list FeatureMapping;
    interfaces : list InterfaceMapping;
    tests : list TestMapping;
    exclusions : Exclusions }.

(** [ids_by_type.setdefault(id_type, set()).add(id_str)] on a dictionary
    that keeps its keys in insertion order. *)
Fixpoint setdefault_add (d : list (string * gset string))
    (id_type id_str : string) : list (string * gset string) :=
  match d with
  | [] => [(id_type, {[ id_str ]})]
  | (k, ids) :: d' =>
      if String.eqb k id_type then (k, ids ∪ {[ id_str ]}) :: d'
      else (k, ids) :: setdefault_add d' id_type id_str
  end.

(** [id_str.split("-")[0]] *)
Definition id_prefix (id_str : string) : string :=
  default "" (head (Py.split "-" id_str)).

(** [Manifest.get_all_referenced_ids] *)
Definition get_all_referenced_ids (m : Manifest)
  : list (string * gset string) :=
  let ids_by_type := [] in
  let ids_by_type :=
    foldl
      (fun d symbol =>
         foldl (fun d id_str => setdefault_add d (id_prefix id_str) id_str)
           d (map_ids symbol))
      ids_by_type (symbols m) in
  let ids_by_type :=
    foldl
      (fun d feature =>
         let d := setdefault_add d (id_prefix (feat_id feature))
                    (feat_id feature) in
         let d := foldl (fun d br_id => setdefault_add d "BR" br_id)
                    d (business_requirements feature) in
         let d := foldl (fun d ur_id => setdefault_add d "UR" ur_id)
                    d (user_requirements feature) in
         foldl (fun d cf_id => setdefault_add d "CF" cf_id)
           d (call_flows feature))
      ids_by_type (features m) in
  let ids_by_type :=
    foldl
      (fun d iface =>
         let d := setdefault_add d (id_prefix (iface_id iface))
                    (iface_id iface) in
         foldl (fun d req_id => setdefault_add d (id_prefix req_id) req_id)
           d (requirements iface))
      ids_by_type (interfaces m) in
  foldl
    (fun d test =>
       let d := foldl (fun d tc_id => setdefault_add d "TC" tc_id)
                  d (test_cases test) in
       foldl (fun d v_id => setdefault_add d "V" v_id) d (verifications test))
    ids_by_type (tests m).

(** [Manifest.get_symbol_paths] *)
Definition get_symbol_paths (m : Manifest) : gset string :=
  list_to_set (map map_path (symbols m)).

(** [Manifest.is_excluded]: membership in the list [exclusions.symbols]. *)
Definition is_excluded (m : Manifest) (symbol_path : string) : bool :=
  existsb (String.eqb symbol_path) (excl_symbols (exclusions m)).

(** ** Code symbols ([golden_thread/parsers/base.py]) *)

Record CodeSymbol : Type :=
  { name : string;
    type : string;
    file_path : string;
    line_start : Z;
    line_end : Z;
    parent : option string }.

(** [CodeSymbol.qualified_path] *)
Definition qualified_path (s : CodeSymbol) : string :=
  match parent s with
  | None | Some "" => file_path s +:+ "::" +:+ name s
  | Some p => file_path s +:+ "::" +:+ p +:+ "." +:+ name s
  end.

(** ** Shell patterns: [fnmatch] and [PurePosixPath.match]

    [fnmatch.translate] as of Python 3.11: [*] stands for any run of
    characters (a [/] included), [?] for one character, [[seq]] for one
    character of [seq] and [[!seq]] for one character not in it, anything
    else for itself.  A [[] that no []] closes is taken literally.  Inside
    a class a hyphen between two characters makes a range, ranges whose
    bounds are in the wrong order are dropped, and a class left empty
    matches nothing.  The regular expression that [translate] builds is
    kept as the list of its pieces. *)

Module Glob.

(** A piece of a translated pattern. *)
Inductive token : Type :=
| Star
| Any
| Lit (c : ascii)
| Class (negate : bool) (items : list (ascii * ascii)).

(** The text up to the first []]], and the text after it. *)
Fixpoint until_bracket (s : string) : option (string * string) :=
  match s with
  | EmptyString => None
  | String c rest =>
      if Ascii.eqb c "]" then Some ("", rest)
      else match until_bracket rest with
           | Some (stuff, after) => Some (String c stuff, after)
           | None => None
           end
  end.

(** The scan for the end of a class in the text after a [[]: a [!] and
    then a []]] at the start are passed over. *)
Definition split_class (s : string) : option (string * string) :=
  let '(bang, s1) :=
    match s with
    | String c s' => if Ascii.eqb c "!" then ("!", s') else ("", s)
    | EmptyString => ("", s)
    end in
  let '(bracket, s2) :=
    match s1 with
    | String c s' => if Ascii.eqb c "]" then ("]", s') else ("", s1)
    | EmptyString => ("", s1)
    end in
  match until_bracket s2 with
  | Some (stuff, after) => Some (bang +:+ bracket +:+ stuff, after)
  | None => None
  end.

Definition cons_first (c : ascii) (chunks : list string) : list string :=
  match chunks with
  | [] => [String c ""]
  | chunk :: chunks' => String c chunk :: chunks'
  end.

(** The cuts at the hyphens that make ranges: a hyphen cuts unless it is
    among the first [skip] characters, and the two characters after a cut
    are passed over. *)
Fixpoint chunk_split (skip : nat) (s : string) : list string :=
  match s with
  | EmptyString => [""]
  | String c s' =>
      match skip with
      | S n => cons_first c (chunk_split n s')
      | O =>
          if Ascii.eqb c "-" then "" :: chunk_split 2 s'
          else cons_first c (chunk_split 0 s')
      end
  end.

(** [chunks[-1] += '-'] when the last chunk is empty. *)
Fixpoint close_chunks (chunks : list string) : list string :=
  match chunks with
  | [] => []
  | [chunk] => [chunk]
  | [chunk; ""] => [chunk +:+ "-"]
  | chunk :: chunks' => chunk :: close_chunks chunks'
  end.

Fixpoint last_char (s : string) : option ascii :=
  match s with
  | EmptyString => None
  | String c EmptyString => Some c
  | String _ s' => last_char s'
  end.

Fixpoint drop_last (s : string) : string :=
  match s with
  | EmptyString => EmptyString
  | String c EmptyString => EmptyString
  | String c s' => String c (drop_last s')
  end.

Definition first_char (s : string) : option ascii :=
  match s with
  | EmptyString => None
  | String c _ => Some c
  end.

Definition string_tail (s : string) : string :=
  match s with
  | EmptyString => EmptyString
  | String _ s' => s'
  end.

(** The removal of the empty ranges, from the last chunk to the first. *)
Fixpoint merge_ranges (chunks : list string) : list string :=
  match chunks with
  | [] => []
  | chunk :: chunks' =>
      match merge_ranges chunks' with
      | [] => [chunk]
      | next :: more =>
          match last_char chunk, first_char next with
          | Some hi, Some lo =>
              if (nat_of_ascii lo <? nat_of_ascii hi)%nat
              then (drop_last chunk +:+ string_tail next) :: more
              else chunk :: next :: more
          | _, _ => chunk :: next :: more
          end
      end
  end.

Fixpoint singles (s : string) : list (ascii * ascii) :=
  match s with
  | EmptyString => []
  | String c s' => (c, c) :: singles s'
  end.

(** The characters and ranges of the joined chunks: between two chunks
    the last character of the one and the first of the other make a
    range. *)
Fixpoint chunk_items (chunks : list string) : list (ascii * ascii) :=
  match chunks with
  | [] => []
  | [chunk] => singles chunk
  | chunk :: (next :: _) as chunks' =>
      match last_char chunk, chunk_items chunks' with
      | Some lo, (hi, _) :: items => singles (drop_last chunk) ++ (lo, hi) :: items
      | _, items => singles chunk ++ items
      end
  end.

(** The class that [stuff] stands for. *)
Definition class_of (stuff : string) : token :=
  let negated :=
    match stuff with String c _ => Ascii.eqb c "!" | EmptyString => false end in
  let chunks :=
    if Py.contains "-" stuff
    then merge_ranges
           (close_chunks (chunk_split (if negated then 2 else 1) stuff))
    else [stuff] in
  match chunks with
  | String c chunk :: chunks' =>
      if Ascii.eqb c "!" then Class true (chunk_items (chunk :: chunks'))
      else Class false (chunk_items chunks)
  | _ => Class false (chunk_items chunks)
  end.


(** The loop of [translate], [fuel] bounding the number of pieces. *)
Fixpoint tokens (fuel : nat) (pat : string) : list token :=
  match fuel, pat with
  | S fuel, String c rest =>
      if Ascii.eqb c "*" then Star :: tokens fuel rest
      else if Ascii.eqb c "?" then Any :: tokens fuel rest
      else if Ascii.eqb c "[" then
        match split_class rest with
        | None => Lit "[" :: tokens fuel rest
        | Some (stuff, after) => class_of stuff :: tokens fuel after
        end
      else Lit c :: tokens fuel rest
  | _, _ => []
  end.

(** [translate]: a pattern has no more pieces than characters. *)
Definition translate (pat : string) : list token :=
  tokens (String.length pat) pat.

Definition in_class (negate : bool) (items : list (ascii * ascii))
    (c : ascii) : bool :=
  xorb negate
    (existsb
       (fun item =>
          (nat_of_ascii (fst item) <=? nat_of_ascii c)%nat
          && (nat_of_ascii c <=? nat_of_ascii (snd item))%nat)
       items).

(** The match of the whole of [name] against the pieces. *)
Fixpoint match_tokens (toks : list token) : string -> bool :=
  match toks with
  | [] => fun name => match name with EmptyString => true | _ => false end
  | Star :: toks' =>
      let k := match_tokens toks' in
      fix star (name : string) : bool :=
        k name || match name with
                  | EmptyString => false
                  | String _ name' => star name'
                  end
  | Any :: toks' =>
      let k := match_tokens toks' in
      fun name => match name with
                  | EmptyString => false
                  | String _ name' => k name'
                  end
  | Lit c :: toks' =>
      let k := match_tokens toks' in
      fun name => match name with
                  | EmptyString => false
                  | String d name' => Ascii.eqb c d && k name'
                  end
  | Class negate items :: toks' =>
      let k := match_tokens toks' in
      fun name => match name with
                  | EmptyString => false
                  | String d name' => in_class negate items d && k name'
                  end
  end.

(** [fnmatch.fnmatchcase name pat]; on POSIX [fnmatch.fnmatch] is the
    same function, [os.path.normcase] being the identity. *)
Definition fnmatchcase (name pat : string) : bool :=
  match_tokens (translate pat) name.
Definition fnmatch (name pat : string) : bool := fnmatchcase name pat.

(** [PurePosixPath]'s [splitroot]: the root is ["/"], or ["//"] for
    exactly two leading slashes. *)
Fixpoint lstrip_sep (s : string) : string :=
  match s with
  | String "/" s' => lstrip_sep s'
  | _ => s
  end.

Definition splitroot (part : string) : string * string :=
  match part with
  | String "/" _ =>
      let stripped := lstrip_sep part in
      if (String.length part - String.length stripped =? 2)%nat
      then ("//", stripped) else ("/", stripped)
  | _ => ("", part)
  end.

(** [parse_parts] of a single string: the root (if any) followed by the
    components that are neither empty nor [.]. *)
Definition parse_parts (s : string) : string * list string :=
  let '(root, rel) := splitroot s in
  let comps :=
    List.filter (fun x => negb (String.eqb x "") && negb (String.eqb x "."))
      (Py.split "/" rel) in
  (root, if String.eqb root "" then comps else root :: comps).

(** The loop of [match] over [zip(reversed(parts), reversed(pat_parts))]. *)
Fixpoint match_zip (parts pat_parts : list string) : bool :=
  match parts, pat_parts with
  | part :: parts', pat :: pat_parts' =>
      fnmatchcase part pat && match_zip parts' pat_parts'
  | _, _ => true
  end.

(** [PurePosixPath(path).match(path_pattern)] as of Python 3.11: a
    relative pattern is matched from the right, component by component;
    an empty pattern raises [ValueError]. *)
Definition path_match (path path_pattern : string) : outcome bool :=
  let '(root, pat_parts) := parse_parts path_pattern in
  let '(path_root, parts) := parse_parts path in
  match pat_parts with
  | [] => Raise (ValueError "empty pattern")
  | _ =>
      if negb (String.eqb root "") && negb (String.eqb root path_root)
      then Return false
      else if negb (String.eqb root "") then
        if negb (length pat_parts =? length parts)%nat then Return false
        else Return (match_zip (rev parts) (rev (tail pat_parts)))
      else if (length parts <? length pat_parts)%nat then Return false
      else Return (match_zip (rev parts) (rev pat_parts))
  end.

(** The pattern semantics that the design document asks of an exclusion
    pattern, for comparison: pattern and path are cut at [/]; [**] stands
    for any number of components, none included; any other component of
    the pattern stands for one component of the path, within which [*] and
    [?] have their usual meaning; the whole path has to be matched. *)
Fixpoint spec_components (pats : list string) : list string -> bool :=
  match pats with
  | [] => fun segs => match segs with [] => true | _ => false end
  | pat :: pats' =>
      let k := spec_components pats' in
      if String.eqb pat "**" then
        fix skip (segs : list string) : bool :=
          k segs || match segs with
                    | [] => false
                    | _ :: segs' => skip segs'
                    end
      else
        fun segs => match segs with
                    | [] => false
                    | seg :: segs' => fnmatchcase seg pat && k segs'
                    end
  end.

Definition spec_glob (path pattern : string) : bool :=
  spec_components (Py.split "/" pattern) (Py.split "/" path).

(** A pattern that [match] accepts: it has at least one part. *)
Definition nonempty_pattern (path_pattern : string) : bool :=
  match snd (parse_parts path_pattern) with
  | [] => false
  | _ => true
  end.

End Glob.

(** ** Coverage validator ([golden_thread/validators/coverage.py]) *)

Module Coverage.

(** The two shapes of error dictionaries built by [validate]. *)
Inductive error : Type :=
| ORPHAN_MANIFEST (message path : string) (ids : list string)
| ORPHAN_CODE (message path file : string) (line : Z) (type : string).

Definition code (e : error) : string :=
  match e with
  | ORPHAN_MANIFEST _ _ _ => "ORPHAN_MANIFEST"
  | ORPHAN_CODE _ _ _ _ _ => "ORPHAN_CODE"
  end.

Record CoverageResult : Type :=
  { total_symbols : nat;
    mapped_symbols : nat;
    orphan_symbols : list string;
    invalid_mappings : list string;
    coverage_percentage : Q;
    errors : list error }.

(** [_should_check_symbol] *)
Definition _should_check_symbol (symbol : CodeSymbol) : bool :=
  if Py.startswith (name symbol) "_" then false
  else if existsb (String.eqb (name symbol))
            ["__init__"; "__str__"; "__repr__"; "__eq__"; "__hash__"]
  then false
  else if Py.startswith (name symbol) "test_" then false
  else if existsb (String.eqb (name symbol))
            ["setUp"; "tearDown"; "setUpClass"; "tearDownClass"]
  then false
  else true.

(** [_is_excluded] *)
Definition _is_excluded (m : Manifest) (symbol : CodeSymbol) : bool :=
  if is_excluded m (qualified_path symbol) then true
  else existsb (fun pattern => Glob.fnmatch (file_path symbol) pattern)
         (patterns (exclusions m)).

(** [self.symbol_map], built by the constructor. *)
Definition symbol_map (parsed_symbols : list CodeSymbol)
  : gmap string CodeSymbol :=
  foldl (fun d s => <[qualified_path s := s]> d) ∅ parsed_symbols.

(** First loop of [validate]: manifest entries against the code. *)
Definition check_mapping (smap : gmap string CodeSymbol)
    (st : list error * list string * gset string) (mapping : SymbolMapping)
  : list error * list string * gset string :=
  let '(errors, invalid_mappings, mapped_symbols) := st in
  match smap !! map_path mapping with
  | None =>
      (errors ++ [ORPHAN_MANIFEST
                    ("Manifest entry '" +:+ map_path mapping
                     +:+ "' has no matching code")
                    (map_path mapping) (map_ids mapping)],
       invalid_mappings ++ [map_path mapping],
       mapped_symbols)
  | Some _ =>
      (errors, invalid_mappings, mapped_symbols ∪ {[ map_path mapping ]})
  end.

(** Second loop of [validate]: code symbols against the manifest. *)
Definition check_symbol (m : Manifest) (manifest_paths : gset string)
    (st : list error * list string) (symbol : CodeSymbol)
  : list error * list string :=
  let '(errors, orphan_symbols) := st in
  if _should_check_symbol symbol then
    if bool_decide (qualified_path symbol ∈ manifest_paths) then st
    else if negb (_is_excluded m symbol) then
      (errors ++ [ORPHAN_CODE
                    ("Code symbol '" +:+ qualified_path symbol
                     +:+ "' not in manifest")
                    (qualified_path symbol) (file_path symbol)
                    (line_start symbol) (type symbol)],
       orphan_symbols ++ [qualified_path symbol])
    else st
  else st.

(** [mapped / total * 100] *)
Definition percentage (mapped total : nat) : outcome Q :=
  match Float.int_truediv (Z.of_nat mapped) (Z.of_nat total) with
  | Raise e => Raise e
  | Return quotient => Return (Float.mul quotient 100)
  end.

(** [validate] *)
Definition validate (m : Manifest) (parsed_symbols : list CodeSymbol)
  : outcome CoverageResult :=
  let smap := symbol_map parsed_symbols in
  let '(errors, invalid_mappings, mapped_symbols) :=
    foldl (check_mapping smap) ([], [], ∅) (symbols m) in
  let manifest_paths := get_symbol_paths m in
  let '(errors, orphan_symbols) :=
    foldl (check_symbol m manifest_paths) (errors, []) parsed_symbols in
  let checkable_symbols := List.filter _should_check_symbol parsed_symbols in
  let total := length checkable_symbols in
  let mapped := size mapped_symbols in
  match (if (0 <? total)%nat then percentage mapped total else Return 0%Q) with
  | Raise e => Raise e
  | Return coverage =>
      Return {| total_symbols := total;
                mapped_symbols := mapped;
                orphan_symbols := orphan_symbols;
                invalid_mappings := invalid_mappings;
                coverage_percentage := coverage;
                errors := errors |}
  end.

End Coverage.

(** ** Orphan validator ([golden_thread/validators/orphans.py]) *)

Module Orphans.

Record orphan_code_entry : Type :=
  { oc_path : string; oc_type : string; oc_file : string; oc_line : Z }.

Record orphan_manifest_entry : Type :=
  { om_path : string; om_ids : list string }.

Record suggestion_entry : Type :=
  { orphan : string; sugg_type : string; suggestion : string }.

Record OrphanResult : Type :=
  { orphan_code : list orphan_code_entry;
    orphan_manifest : list orphan_manifest_entry;
    suggestions : list suggestion_entry }.

Definition nl : string := String "010" "".
Definition dquote : string := String "034" "".

(** [_should_check_symbol] *)
Definition _should_check_symbol (symbol : CodeSymbol) : bool :=
  if Py.startswith (name symbol) "_" then false
  else if existsb (String.eqb (name symbol))
            ["__init__"; "__str__"; "__repr__"; "__eq__"; "__hash__"]
  then false
  else if Py.startswith (name symbol) "test_" then false
  else true.

(** The loop of [_is_excluded] over the exclusion patterns. *)
Fixpoint any_path_match (path : string) (pats : list string) : outcome bool :=
  match pats with
  | [] => Return false
  | pattern :: pats' =>
      match Glob.path_match path pattern with
      | Raise e => Raise e
      | Return true => Return true
      | Return false => any_path_match path pats'
      end
  end.

(** [_is_excluded] *)
Definition _is_excluded (m : Manifest) (symbol : CodeSymbol) : outcome bool :=
  if is_excluded m (qualified_path symbol) then Return true
  else any_path_match (file_path symbol) (patterns (exclusions m)).

(** [_generate_manifest_snippet] *)
Definition _generate_manifest_snippet (symbol : CodeSymbol) : string :=
  "Add to .golden-thread.yaml:" +:+ nl +:+ nl
  +:+ "  - path: " +:+ dquote +:+ qualified_path symbol +:+ dquote +:+ nl
  +:+ "    type: " +:+ type symbol +:+ nl
  +:+ "    ids:" +:+ nl
  +:+ "      - FEAT-XXX-001  # Replace with actual feature ID" +:+ nl
  +:+ "      - FR-XXX-001    # Replace with actual requirement ID".

(** The entries that [detect_orphans] appends. *)
Definition code_entry (symbol : CodeSymbol) : orphan_code_entry :=
  {| oc_path := qualified_path symbol;
     oc_type := type symbol;
     oc_file := file_path symbol;
     oc_line := line_start symbol |}.

Definition manifest_entry (mapping : SymbolMapping) : orphan_manifest_entry :=
  {| om_path := map_path mapping; om_ids := map_ids mapping |}.

(** Whether the first loop records a symbol. *)
Definition is_orphan_code (m : Manifest) (s : CodeSymbol) : bool :=
  negb (bool_decide (qualified_path s ∈ get_symbol_paths m))
  && match _is_excluded m s with
     | Return false => _should_check_symbol s
     | _ => false
     end.

Section Detect.
(** [difflib.get_close_matches(word, possibilities, n=3, cutoff=0.6)] *)
Variable get_close_matches : string -> list string -> list string.

(** [_find_similar_symbols] *)
Definition _find_similar_symbols (parsed_symbols : list CodeSymbol)
    (path : string) : list string :=
  get_close_matches path (map qualified_path parsed_symbols).

(** First loop of [detect_orphans]. *)
Fixpoint find_orphan_code (m : Manifest) (manifest_paths : gset string)
    (syms : list CodeSymbol)
    (st : list orphan_code_entry * list suggestion_entry)
  : outcome (list orphan_code_entry * list suggestion_entry) :=
  match syms with
  | [] => Return st
  | symbol :: syms' =>
      if bool_decide (qualified_path symbol ∈ manifest_paths)
      then find_orphan_code m manifest_paths syms' st
      else
        match _is_excluded m symbol with
        | Raise e => Raise e
        | Return excluded =>
            if negb excluded && _should_check_symbol symbol then
              let '(orphan_code, suggestions) := st in
              find_orphan_code m manifest_paths syms'
                (orphan_code ++ [code_entry symbol],
                 suggestions ++
                   [{| orphan := qualified_path symbol;
                       sugg_type := "code";
                       suggestion := _generate_manifest_snippet symbol |}])
            else find_orphan_code m manifest_paths syms' st
        end
  end.

(** Second loop of [detect_orphans]. *)
Definition find_orphan_manifest (parsed_symbols : list CodeSymbol)
    (symbol_paths : gset string)
    (st : list orphan_manifest_entry * list suggestion_entry)
    (mapping : SymbolMapping)
  : list orphan_manifest_entry * list suggestion_entry :=
  let '(orphan_manifest, suggestions) := st in
  if bool_decide (map_path mapping ∈ symbol_paths) then st
  else
    let similar := _find_similar_symbols parsed_symbols (map_path mapping) in
    (orphan_manifest ++ [manifest_entry mapping],
     suggestions ++
       [{| orphan := map_path mapping;
           sugg_type := "manifest";
           suggestion :=
             match similar with
             | [] => "Symbol not found in codebase. "
                     +:+ "Consider removing from manifest or fixing the path."
             | _ => "Did you mean one of these?" +:+ nl
                    +:+ String.concat nl
                          (map (fun s => "  - " +:+ s) similar)
             end |}]).

(** [detect_orphans] *)
Definition detect_orphans (m : Manifest) (parsed_symbols : list CodeSymbol)
  : outcome OrphanResult :=
  let manifest_paths := get_symbol_paths m in
  let symbol_paths : gset string :=
    list_to_set (map qualified_path parsed_symbols) in
  match find_orphan_code m manifest_paths parsed_symbols ([], []) with
  | Raise e => Raise e
  | Return (orphan_code, suggestions) =>
      let '(orphan_manifest, suggestions) :=
        foldl (find_orphan_manifest parsed_symbols symbol_paths)
          ([], suggestions) (symbols m) in
      Return {| orphan_code := orphan_code;
                orphan_manifest := orphan_manifest;
                suggestions := suggestions |}
  end.
End Detect.

End Orphans.

(** The exclusion filter as the design document words it: the qualified
    path is in the exclusion symbols, or the file path matches one of the
    exclusion patterns under [Glob.spec_glob]. *)
Definition spec_is_excluded (m : Manifest) (symbol : CodeSymbol) : bool :=
  is_excluded m (qualified_path symbol)
  || existsb (Glob.spec_glob (file_path symbol)) (patterns (exclusions m)).

(** ** Consistency validator ([golden_thread/validators/consistency.py]) *)

Module Consistency.

(** An error or warning dictionary; the keys ["id"], ["id_type"] and
    ["feature"] are present in some entries only. *)
Record entry : Type :=
  { code : string;
    message : string;
    entry_id : option string;
    entry_id_type : option string;
    feature : option string }.

Record ConsistencyResult : Type :=
  { valid : bool; errors : list entry; warnings : list entry }.

(** [parts = msg.split(":", 1)];
    [parts[0].strip() if len(parts) > 1 else fallback] *)
Definition parse_code (msg fallback : string) : string :=
  match Py.split1 ":" msg with
  | p :: _ :: _ => Py.strip p
  | _ => fallback
  end.

(** The dictionaries that [validate] appends. *)
Definition invalid_format (id_str : string) : entry :=
  {| code := "INVALID_FORMAT";
     message := "Invalid ID format: " +:+ id_str;
     entry_id := Some id_str;
     entry_id_type := None;
     feature := None |}.

Definition id_not_found (id_type id_str : string) : entry :=
  {| code := "INVALID_ID";
     message := "ID not found in Notion: " +:+ id_str;
     entry_id := Some id_str;
     entry_id_type := Some id_type;
     feature := None |}.

Definition id_check_failed (id_str : string) (e : exn) : entry :=
  {| code := "INVALID_ID";
     message := "Error checking ID " +:+ id_str +:+ ": " +:+ exn_str e;
     entry_id := Some id_str;
     entry_id_type := None;
     feature := None |}.

Definition chain_error (feat_id error_msg : string) : entry :=
  {| code := parse_code error_msg "VALIDATION_ERROR";
     message := error_msg;
     entry_id := None;
     entry_id_type := None;
     feature := Some feat_id |}.

Definition chain_warning (feat_id warning_msg : string) : entry :=
  {| code := parse_code warning_msg "VALIDATION_WARNING";
     message := warning_msg;
     entry_id := None;
     entry_id_type := None;
     feature := Some feat_id |}.

Definition chain_failed (feat_id : string) (e : exn) : entry :=
  {| code := "VALIDATION_ERROR";
     message := "Failed to validate traceability chain for "
                +:+ feat_id +:+ ": " +:+ exn_str e;
     entry_id := None;
     entry_id_type := None;
     feature := Some feat_id |}.

Section Validate.
Local Open Scope monad_scope.
Context {W : Type}.
Variable database_ids : gmap string string.
Variable search_database : string -> option filter -> M W (list page).

(** The body of the loop over the referenced ids. *)
Definition check_id (id_type : string) (errors : list entry)
    (id_str : string) : M W (list entry) :=
  if negb (validate_id_format id_str) then
    ret (errors ++ [invalid_format id_str])
  else
    try_except
      (e <- get_entry database_ids search_database id_str ;;
       match e with
       | None => ret (errors ++ [id_not_found id_type id_str])
       | Some _ => ret errors
       end)
      (fun e => ret (errors ++ [id_check_failed id_str e])).

(** The body of the loop over the features. *)
Definition check_feature (st : list entry * list entry)
    (f : FeatureMapping) : M W (list entry * list entry) :=
  let '(errors, warnings) := st in
  let feat_id := feat_id f in
  try_except
    (chain_result <-
       validate_traceability_chain database_ids search_database feat_id ;;
     let errors :=
       foldl (fun errors error_msg => errors ++ [chain_error feat_id error_msg])
         errors (Chain.errors chain_result) in
     let warnings :=
       foldl
         (fun warnings warning_msg =>
            warnings ++ [chain_warning feat_id warning_msg])
         warnings (Chain.warnings chain_result) in
     ret (errors, warnings))
    (fun e => ret (errors ++ [chain_failed feat_id e], warnings)).

(** [validate]; a set of ids is visited in the order of [elements]. *)
Definition validate (m : Manifest) : M W ConsistencyResult :=
  let errors := [] in
  let warnings := [] in
  let all_ids := get_all_referenced_ids m in
  errors <-
    for_each all_ids
      (fun errors '(id_type, ids) =>
         for_each (elements ids) (check_id id_type) errors)
      errors ;;
  st <- for_each (features m) check_feature (errors, warnings) ;;
  let '(errors, warnings) := st in
  ret {| valid := (length errors =? 0)%nat;
         errors := errors;
         warnings := warnings |}.

(** What the visit of an id in the world [w] adds to the errors, and the
    world that it leaves: an id that is not well formed is not looked up. *)
Definition id_visit (p : string * string) (w : W) : W * list entry :=
  let '(id_type, id_str) := p in
  if validate_id_format id_str then
    match get_entry database_ids search_database id_str w with
    | (w', Return (Some _)) => (w', [])
    | (w', Return None) => (w', [id_not_found id_type id_str])
    | (w', Raise e) => (w', [id_check_failed id_str e])
    end
  else (w, [invalid_format id_str]).

(** What the visit of a feature in the world [w] adds to the errors and to
    the warnings, and the world that it leaves. *)
Definition feature_visit (f : FeatureMapping) (w : W)
  : W * (list entry * list entry) :=
  match
    validate_traceability_chain database_ids search_database (feat_id f) w
  with
  | (w', Return chain_result) =>
      (w', (map (chain_error (feat_id f)) (Chain.errors chain_result),
            map (chain_warning (feat_id f)) (Chain.warnings chain_result)))
  | (w', Raise e) => (w', ([chain_failed (feat_id f) e], []))
  end.

(** The referenced ids, each with its type, in the order of the visits. *)
Definition visited_ids (m : Manifest) : list (string * string) :=
  flat_map (fun '(id_type, ids) => map (pair id_type) (elements ids))
    (get_all_referenced_ids m).
End Validate.

End Consistency.

(** ** The client's cache ([golden_thread/notion/client.py])

    The cache directory is a map from paths to files.  A time stamp is a
    [float], the seconds of the POSIX clock, as [st_mtime] gives it.  A
    [datetime] is counted in microseconds, its resolution; the ones of the
    cache are naive local ones: [fromtimestamp] gives the local date and
    time of a time stamp and raises for a time stamp outside the years of
    [datetime], and [datetime.now()] reads the local date and time from the
    world, in which time passes.  [file_time] reads the time stamp that a
    file written now gets.  [json] is represented by [json_dump] and
    [json_load] ([None] when decoding fails), and whether the file can be
    opened is a flag of the file. *)

Module Cache.

Record file : Type :=
  { content : string; st_mtime : Q; readable : bool }.

Record config : Type :=
  { cache_enabled : bool; cache_ttl : Z; cache_dir : string }.

(** [_get_cache_path] *)
Definition _get_cache_path (cfg : config) (cache_key : string) : string :=
  cache_dir cfg +:+ "/" +:+ cache_key +:+ ".json".

(** [timedelta(seconds=seconds)] for an integer, in microseconds: the
    number of days has to be of magnitude 999999999 at most. *)
Definition timedelta (seconds : Z) : outcome Z :=
  let days := (seconds / 86400)%Z in
  if (Z.abs days <=? 999999999)%Z then Return (seconds * 1000000)%Z
  else if ((-2147483648 <=? days) && (days <=? 2147483647))%Z
  then Raise (OverflowError
                ("days=" +:+ pretty days
                 +:+ "; must have magnitude <= 999999999"))
  else Raise (OverflowError "Python int too large to convert to C int").

Section Json.
Context {Json World : Type}.
Variable py_None : Json.
Variable json_dump : Json -> string.
Variable json_load : string -> option Json.
Variable fromtimestamp : Q -> outcome Z.
Variable datetime_now : World -> World * Z.
Variable file_time : World -> World * Q.

(** [_get_cached]: the files and the world left behind, and the value
    returned or the exception raised. *)
Definition _get_cached (cfg : config) (cache_key : string)
    (fs : gmap string file) (w : World)
  : gmap string file * World * outcome Json :=
  if negb (cache_enabled cfg) then (fs, w, Return py_None)
  else
    let cache_path := _get_cache_path cfg cache_key in
    match fs !! cache_path with
    | None => (fs, w, Return py_None)
    | Some f =>
        match fromtimestamp (st_mtime f) with
        | Raise e => (fs, w, Raise e)
        | Return mtime =>
            let '(w, now) := datetime_now w in
            match timedelta (cache_ttl cfg) with
            | Raise e => (fs, w, Raise e)
            | Return ttl =>
                if (ttl <? now - mtime)%Z
                then (delete cache_path fs, w, Return py_None)
                else
                  match (if readable f then json_load (content f)
                         else None) with
                  | Some data => (fs, w, Return data)
                  | None => (delete cache_path fs, w, Return py_None)
                  end
            end
        end
    end.

(** [_set_cached]; [write_ok] tells whether the file can be written, a
    failed write being ignored. *)
Definition _set_cached (cfg : config) (cache_key : string) (data : Json)
    (write_ok : bool) (fs : gmap string file) (w : World)
  : gmap string file * World :=
  if negb (cache_enabled cfg) then (fs, w)
  else
    let cache_path := _get_cache_path cfg cache_key in
    if write_ok
    then
      let '(w, mtime) := file_time w in
      (<[cache_path := {| content := json_dump data; st_mtime := mtime;
                          readable := true |}]> fs, w)
    else (fs, w).
End Json.

End Cache.

(** ** A small registry

    Three collections are configured.  Each query costs one request (the
    world counts them) and answers by the identifier asked for. *)

Module Demo.

Definition database_ids : gmap string string :=
  list_to_map [("FEAT", "db-feat"); ("FR", "db-fr"); ("V", "db-v")].

Definition mk_page (props : list (string * prop_value)) : page :=
  {| properties := list_to_map props |}.

(** A feature with every link but a call flow; its one requirement has one
    verification, marked Verified, with a test case and no evidence. *)
Definition feat_auth : page :=
  mk_page [("ID", PTitle ["FEAT-AUTH-001"]);
           ("Title", PRichText ["Sign in"]);
           ("BR-IDs", PRelation ["BR-AUTH-001"]);
           ("UR-IDs", PRelation ["UR-AUTH-001"]);
           ("FR-IDs", PRelation ["FR-AUTH-001"])].

Definition fr_auth : page :=
  mk_page [("ID", PTitle ["FR-AUTH-001"]);
           ("V-IDs", PRelation ["V-AUTH-001"])].

Definition v_auth : page :=
  mk_page [("ID", PTitle ["V-AUTH-001"]);
           ("Status", PSelect (Some "Verified"));
           ("TC-IDs", PRelation ["TC-AUTH-001"])].

(** A feature with every link but a call flow, whose chain has no gap. *)
Definition feat_pay : page :=
  mk_page [("ID", PTitle ["FEAT-PAY-001"]);
           ("BR-IDs", PRelation ["BR-PAY-001"]);
           ("UR-IDs", PRelation ["UR-PAY-001"]);
           ("FR-IDs", PRelation ["FR-PAY-001"])].

Definition fr_pay : page :=
  mk_page [("ID", PTitle ["FR-PAY-001"]);
           ("V-IDs", PRelation ["V-PAY-001"])].

Definition v_pay : page :=
  mk_page [("ID", PTitle ["V-PAY-001"]);
           ("Status", PSelect (Some "Planned"));
           ("TC-IDs", PRelation ["TC-PAY-001"])].

(** A feature whose requirement relation holds what the remote API puts
    there: the id of the related page. *)
Definition feat_ship : page :=
  mk_page [("ID", PTitle ["FEAT-SHIP-001"]);
           ("BR-IDs", PRelation ["BR-SHIP-001"]);
           ("UR-IDs", PRelation ["UR-SHIP-001"]);
           ("FR-IDs", PRelation ["59833787-2cf9-4fdf-8782-e53db20768a5"])].

(** A feature whose first requirement link leads to no entry. *)
Definition feat_gap : page :=
  mk_page [("ID", PTitle ["FEAT-GAP-001"]);
           ("BR-IDs", PRelation ["BR-GAP-001"]);
           ("UR-IDs", PRelation ["UR-GAP-001"]);
           ("CF-IDs", PRelation ["CF-GAP-001"]);
           ("FR-IDs", PRelation ["FR-GONE-001"; "FR-PAY-001"])].

Definition pages : list (string * page) :=
  [("FEAT-AUTH-001", feat_auth); ("FR-AUTH-001", fr_auth);
   ("V-AUTH-001", v_auth); ("FEAT-PAY-001", feat_pay);
   ("FR-PAY-001", fr_pay); ("V-PAY-001", v_pay);
   ("FEAT-SHIP-001", feat_ship); ("FEAT-GAP-001", feat_gap)].

Fixpoint find_page (l : list (string * page)) (id_str : string) : list page :=
  match l with
  | [] => []
  | (k, pg) :: l' => if String.eqb k id_str then [pg] else find_page l' id_str
  end.

Definition search_database (db_id : string) (flt : option filter)
  : M nat (list page) :=
  fun requests =>
    (S requests,
     Return match flt with
            | Some f => find_page pages (f_value f)
            | None => map snd pages
            end).

(** Manifests and parsed symbols. *)
Definition mk_symbol (name type file_path : string) (line_start line_end : Z)
  : CodeSymbol :=
  {| name := name; type := type; file_path := file_path;
     line_start := line_start; line_end := line_end; parent := None |}.

Definition mk_manifest (symbols : list SymbolMapping) (exclusions : Exclusions)
  : Manifest :=
  {| service := "test-service"; version := "1.0"; metadata := ∅;
     symbols := symbols; features := []; interfaces := []; tests := [];
     exclusions := exclusions |}.

Definition no_exclusions : Exclusions :=
  {| patterns := []; excl_symbols := [] |}.

(** A class and a test function, both mapped. *)
Definition manifest_full : Manifest :=
  mk_manifest
    [{| map_path := "test.py::TestClass"; map_type := "class";
        map_ids := ["FEAT-001"] |};
     {| map_path := "test.py::test_function"; map_type := "function";
        map_ids := ["FR-001"] |}]
    no_exclusions.

Definition parsed_full : list CodeSymbol :=
  [mk_symbol "TestClass" "class" "test.py" 1 5;
   mk_symbol "test_function" "function" "test.py" 7 10].

(** An exclusion list with an empty pattern, and a class that no mapping
    mentions. *)
Definition manifest_empty_pattern : Manifest :=
  mk_manifest [] {| patterns := [""]; excl_symbols := [] |}.

Definition parsed_orphan : list CodeSymbol :=
  [mk_symbol "OrphanClass" "class" "test.py" 1 2].

(** A mapped class, an unmapped class and a mapping without code. *)
Definition manifest_mixed : Manifest :=
  mk_manifest
    [{| map_path := "test.py::MappedClass"; map_type := "class";
        map_ids := ["FEAT-001"] |};
     {| map_path := "test.py::MissingClass"; map_type := "class";
        map_ids := ["FEAT-002"] |}]
    {| patterns := ["**/__init__.py"]; excl_symbols := [] |}.

Definition parsed_mixed : list CodeSymbol :=
  [mk_symbol "MappedClass" "class" "test.py" 1 2;
   mk_symbol "OrphanClass" "class" "test.py" 3 4].

(** No suggestion is ever close enough. *)
Definition no_close_matches (word : string) (possibilities : list string)
  : list string := [].

(** The exclusions and the parsed symbols of the repository's own test of
    exclusion patterns. *)
Definition manifest_init_pattern : Manifest :=
  mk_manifest []
    {| patterns := ["**/__init__.py"];
       excl_symbols := ["test.py::DeprecatedClass"] |}.

Definition parsed_init : list CodeSymbol :=
  [mk_symbol "InitClass" "class" "__init__.py" 1 2;
   mk_symbol "DeprecatedClass" "class" "test.py" 1 2;
   mk_symbol "RegularClass" "class" "test.py" 3 4].

Definition manifest_star : Manifest :=
  mk_manifest [] {| patterns := ["src/*"]; excl_symbols := [] |}.

Definition manifest_double_star : Manifest :=
  mk_manifest [] {| patterns := ["src/**/x.py"]; excl_symbols := [] |}.

(** A payload that is [None], a boolean, the empty list or the empty tuple,
    with its JSON text: a tuple is written as a list. *)
Inductive cached : Type :=
| PNone
| PBool (b : bool)
| PList
| PTuple.

Definition json_dump (d : cached) : string :=
  match d with
  | PNone => "null"
  | PBool true => "true"
  | PBool false => "false"
  | PList | PTuple => "[]"
  end.

Definition json_load (s : string) : option cached :=
  if String.eqb s "null" then Some PNone
  else if String.eqb s "true" then Some (PBool true)
  else if String.eqb s "false" then Some (PBool false)
  else if String.eqb s "[]" then Some PList
  else None.

Definition cache_config : Cache.config :=
  {| Cache.cache_enabled := true; Cache.cache_ttl := 3600;
     Cache.cache_dir := ".golden-thread-cache" |}.


(** A world that is the time stamp of the moment, in a place where the
    clocks are put forward by one hour at the time stamp 1000. *)
Definition utc_offset (t : Q) : Z :=
  if Qle_bool 1000 t then 3600000000%Z else 0%Z.

Definition local_time (t : Q) : Z :=
  (Qfloor (t * 1000000) + utc_offset t)%Z.

(** [datetime] ends with the year 9999. *)
Definition fromtimestamp (t : Q) : outcome Z :=
  if (local_time t <? 253402300800000000)%Z then Return (local_time t)
  else if (local_time t <? 253433923200000000)%Z
  then Raise (ValueError "year 10000 is out of range")
  else Raise (OtherError "time stamp after the year 10000").

Definition datetime_now (w : Q) : Q * Z := (w, local_time w).

Definition file_time (w : Q) : Q * Q := (w, w).

Definition get_cached :=
  Cache._get_cached PNone json_load fromtimestamp datetime_now.

Definition set_cached :=
  Cache._set_cached (World := Q) json_dump file_time.

End Demo.


(** ** Notions used to state what the validators return *)

(** The ["path"] entry of a coverage error. *)
Definition coverage_error_path (e : Coverage.error) : string :=
  match e with
  | Coverage.ORPHAN_MANIFEST _ path _ => path
  | Coverage.ORPHAN_CODE _ path _ _ _ => path
  end.

(** The qualified paths of the parsed symbols, as a set. *)
Definition parsed_paths (parsed_symbols : list CodeSymbol) : gset string :=
  list_to_set (map qualified_path parsed_symbols).

(** A manifest mapping without code. *)
Definition unmatched (parsed_symbols : list CodeSymbol) (mapping : SymbolMapping)
  : bool :=
  negb (bool_decide (map_path mapping ∈ parsed_paths parsed_symbols)).

(** A parsed symbol that the coverage validator reports. *)
Definition coverage_orphan (m : Manifest) (symbol : CodeSymbol) : bool :=
  Coverage._should_check_symbol symbol
  && negb (bool_decide (qualified_path symbol ∈ get_symbol_paths m))
  && negb (Coverage._is_excluded m symbol).

(** The suggestion that [detect_orphans] attaches to an orphan symbol and
    to an orphan mapping. *)
Definition code_suggestion (symbol : CodeSymbol) : Orphans.suggestion_entry :=
  {| Orphans.orphan := qualified_path symbol;
     Orphans.sugg_type := "code";
     Orphans.suggestion := Orphans._generate_manifest_snippet symbol |}.

Definition manifest_suggestion
    (get_close_matches : string -> list string -> list string)
    (parsed_symbols : list CodeSymbol) (mapping : SymbolMapping)
  : Orphans.suggestion_entry :=
  {| Orphans.orphan := map_path mapping;
     Orphans.sugg_type := "manifest";
     Orphans.suggestion :=
       match Orphans._find_similar_symbols get_close_matches parsed_symbols
               (map_path mapping) with
       | [] => "Symbol not found in codebase. "
               +:+ "Consider removing from manifest or fixing the path."
       | similar =>
           "Did you mean one of these?" +:+ Orphans.nl
           +:+ String.concat Orphans.nl (map (fun s => "  - " +:+ s) similar)
       end |}.

(** The relation types that a registry type is expected to carry, and the
    property names tried for one relation type, in order. *)
Definition expected_relations (id_type : string) : list string :=
  default [] (RELATION_PROPERTIES !! id_type).

Definition relation_names (rel_type : string) : list string :=
  [rel_type +:+ "-IDs"; rel_type +:+ " IDs"; rel_type].

(** A property that holds a relation with at least one related page. *)
Definition holds_relation (props : gmap string prop_value) (prop_name : string)
    (rel_ids : list string) : Prop :=
  props !! prop_name = Some (PRelation rel_ids) /\ rel_ids <> [].

(** The codes of the messages of [validate_traceability_chain]. *)
Definition CHAIN_ERROR_CODES : list string :=
  ["INVALID_ID"; "MISSING_BR"; "MISSING_UR"; "MISSING_FR"; "MISSING_V";
   "MISSING_TC"; "MISSING_EA"].

(** A message whose code, as the consistency validator reads it, is one of
    the chain codes. *)
Definition coded (msg : string) : Prop :=
  Consistency.parse_code msg "VALIDATION_ERROR" ∈ CHAIN_ERROR_CODES.

(** An id that the manifest references, under some type. *)
Definition referenced (m : Manifest) (id_str : string) : Prop :=
  exists id_type ids,
    (id_type, ids) ∈ get_all_referenced_ids m /\ id_str ∈ ids.

(** An entry of the loop over the referenced ids: it names its id and no
    feature. *)
Definition id_entry (m : Manifest) (en : Consistency.entry) : Prop :=
  (Consistency.code en = "INVALID_FORMAT"
   \/ Consistency.code en = "INVALID_ID") /\
  Consistency.feature en = None /\
  exists id_str, Consistency.entry_id en = Some id_str /\ referenced m id_str.

(** An entry of the loop over the features: it names its feature and no
    id, and its code is a chain code or [VALIDATION_ERROR]. *)
Definition feature_entry (m : Manifest) (en : Consistency.entry) : Prop :=
  (Consistency.code en = "VALIDATION_ERROR"
   \/ Consistency.code en ∈ CHAIN_ERROR_CODES) /\
  Consistency.entry_id en = None /\
  exists f, f ∈ features m /\ Consistency.feature en = Some (feat_id f).

Definition feature_warning (m : Manifest) (en : Consistency.entry) : Prop :=
  Consistency.code en = "MISSING_CF" /\
  Consistency.entry_id en = None /\
  exists f, f ∈ features m /\ Consistency.feature en = Some (feat_id f).

Definition attributed (m : Manifest) (en : Consistency.entry) : Prop :=
  id_entry m en \/ feature_entry m en.

(** ** More samples *)

Module Samples.

(** A manifest with one mapped symbol, one malformed id and one feature. *)
Definition manifest_auth : Manifest :=
  {| service := "auth-service"; version := "1.0"; metadata := ∅;
     symbols :=
       [{| map_path := "auth.py::login"; map_type := "function";
           map_ids := ["FR-AUTH-001"; "fr-auth-2"] |}];
     features :=
       [{| feat_id := "FEAT-AUTH-001"; feat_description := "Sign in";
           business_requirements := ["BR-AUTH-001"];
           user_requirements := []; call_flows := [] |}];
     interfaces := []; tests := [];
     exclusions := Demo.no_exclusions |}.

(** A manifest without exclusions that maps one class of two. *)
Definition manifest_plain : Manifest :=
  Demo.mk_manifest
    [{| map_path := "test.py::MappedClass"; map_type := "class";
        map_ids := ["FEAT-001"] |}]
    Demo.no_exclusions.

(** A feature with every link but a call flow, whose one verification is
    marked Verified and has a test case and an evidence artifact. *)
Definition feat_done : page :=
  Demo.mk_page [("ID", PTitle ["FEAT-DONE-001"]);
                ("BR-IDs", PRelation ["BR-DONE-001"]);
                ("UR-IDs", PRelation ["UR-DONE-001"]);
                ("FR-IDs", PRelation ["FR-DONE-001"])].

Definition fr_done : page :=
  Demo.mk_page [("ID", PTitle ["FR-DONE-001"]);
                ("V-IDs", PRelation ["V-DONE-001"])].

Definition v_done : page :=
  Demo.mk_page [("ID", PTitle ["V-DONE-001"]);
                ("Status", PSelect (Some "Verified"));
                ("TC-IDs", PRelation ["TC-DONE-001"]);
                ("EA-IDs", PRelation ["EA-DONE-001"])].

Definition pages : list (string * page) :=
  [("FEAT-DONE-001", feat_done); ("FR-DONE-001", fr_done);
   ("V-DONE-001", v_done)].

Definition search_database (db_id : string) (flt : option filter)
  : M nat (list page) :=
  fun requests =>
    (S requests,
     Return match flt with
            | Some f => Demo.find_page pages (f_value f)
            | None => map snd pages
            end).

(** The registry of [Demo], out of reach from the request number [first]
    to the one before [next]. *)
Definition search_database_out (first next : nat) (db_id : string)
    (flt : option filter) : M nat (list page) :=
  fun requests =>
    if ((first <=? requests) && (requests <? next))%nat
    then (S requests,
          Raise (NotionError
                   ("Request timeout querying database " +:+ db_id)))
    else Demo.search_database db_id flt requests.

(** A manifest that refers to a requirement and to a feature of [Demo]. *)
Definition manifest_pay : Manifest :=
  {| service := "pay-service"; version := "1.0"; metadata := ∅;
     symbols :=
       [{| map_path := "pay.py::charge"; map_type := "function";
           map_ids := ["FR-PAY-001"] |}];
     features :=
       [{| feat_id := "FEAT-PAY-001"; feat_description := "Pay";
           business_requirements := [];
           user_requirements := []; call_flows := [] |}];
     interfaces := []; tests := [];
     exclusions := Demo.no_exclusions |}.

(** One exclusion pattern, a file name, and a class of a file of that name
    in a directory. *)
Definition manifest_test_py : Manifest :=
  Demo.mk_manifest [] {| patterns := ["test.py"]; excl_symbols := [] |}.

Definition parsed_helper : list CodeSymbol :=
  [Demo.mk_symbol "Helper" "class" "a/test.py" 1 2].

End Samples.

(** The (type, id) pairs of a manifest, in the order in which
    [get_all_referenced_ids] files them. *)
Definition referenced_pairs (m : Manifest) : list (string * string) :=
  flat_map
    (fun symbol => map (fun id_str => (id_prefix id_str, id_str)) (map_ids symbol))
    (symbols m)
  ++ flat_map
       (fun feature =>
          (id_prefix (feat_id feature), feat_id feature)
          :: map (pair "BR") (business_requirements feature)
          ++ map (pair "UR") (user_requirements feature)
          ++ map (pair "CF") (call_flows feature))
       (features m)
  ++ flat_map
       (fun iface =>
          (id_prefix (iface_id iface), iface_id iface)
          :: map (fun req_id => (id_prefix req_id, req_id)) (requirements iface))
       (interfaces m)
  ++ flat_map
       (fun test =>
          map (pair "TC") (test_cases test)
          ++ map (pair "V") (verifications test))
       (tests m).

(** Filing a list of pairs, one [setdefault(...).add(...)] each. *)
Definition file_pairs (d : list (string * gset string))
    (l : list (string * string)) : list (string * gset string) :=
  foldl (fun d p => setdefault_add d (fst p) (snd p)) d l.

(** An id filed under a type. *)
Definition filed (d : list (string * gset string)) (id_type id_str : string)
  : Prop :=
  exists ids, (id_type, ids) ∈ d /\ id_str ∈ ids.

(** [s.split("::", 1)]: the text before the first ["::"], and the text
    after it when there is one. *)
Fixpoint cut_colons (s : string) : string * option string :=
  match s with
  | EmptyString => ("", None)
  | String c s' =>
      match s' with
      | String d rest =>
          if Ascii.eqb c ":" && Ascii.eqb d ":" then ("", Some rest)
          else let '(h, t) := cut_colons s' in (String c h, t)
      | EmptyString => (String c "", None)
      end
  end.

(** [SymbolMapping.file_path] *)
Definition mapping_file_path (mapping : SymbolMapping) : string :=
  match cut_colons (map_path mapping) with
  | (h, Some _) => h
  | (_, None) => map_path mapping
  end.

(** [SymbolMapping.symbol_name] *)
Definition mapping_symbol_name (mapping : SymbolMapping) : string :=
  match cut_colons (map_path mapping) with
  | (_, Some t) => t
  | (_, None) => ""
  end.

(** The name that [CodeSymbol.qualified_path] puts after the ["::"]. *)
Definition dotted_name (s : CodeSymbol) : string :=
  match parent s with
  | None | Some "" => name s
  | Some p => p +:+ "." +:+ name s
  end.

(** [Manifest.get_ids_for_symbol]: the ids of the first mapping with that
    path. *)
Definition get_ids_for_symbol (m : Manifest) (symbol_path : string)
  : gset string :=
  match find (fun mapping => String.eqb (map_path mapping) symbol_path)
          (symbols m) with
  | Some mapping => list_to_set (map_ids mapping)
  | None => ∅
  end.

(** ** File discovery ([golden_thread/parsers/base.py]) *)

Module Parser.

(** [pattern[3:]] *)
Definition drop3 (pattern : string) : string :=
  match pattern with
  | String _ (String _ (String _ rest)) => rest
  | _ => ""
  end.

(** The loop of [_should_ignore] over [self.ignore_patterns]. *)
Fixpoint any_ignore_match (rel_path : string) (ignore_patterns : list string)
  : outcome bool :=
  match ignore_patterns with
  | [] => Return false
  | pattern :: rest =>
      match Glob.path_match rel_path pattern with
      | Raise e => Raise e
      | Return true => Return true
      | Return false =>
          if Py.startswith pattern "**/" then
            let simple_pattern := drop3 pattern in
            match Glob.path_match rel_path simple_pattern with
            | Raise e => Raise e
            | Return true => Return true
            | Return false => any_ignore_match rel_path rest
            end
          else any_ignore_match rel_path rest
      end
  end.

(** [_should_ignore]; [rel_path] is the result of
    [file_path.relative_to(self.root_directory)], [None] when that call
    raises [ValueError]. *)
Definition _should_ignore (ignore_patterns : list string)
    (rel_path : option string) : outcome bool :=
  match rel_path with
  | None => Return true
  | Some rel_path => any_ignore_match rel_path ignore_patterns
  end.

(** The dictionary [type_map] of [_should_extract_symbol]. *)
Definition type_map : list (string * string) :=
  [("classes", "class"); ("functions", "function"); ("methods", "method");
   ("interfaces", "interface"); ("types", "type"); ("structs", "struct")].

Definition type_map_get (symbol_type : string) : option string :=
  snd <$> find (fun kv => String.eqb (fst kv) symbol_type) type_map.

Definition in_list (x : string) (l : list string) : bool :=
  existsb (String.eqb x) l.

(** [_should_extract_symbol], [extract_types] being [self.config.get("extract", [])],
    a list of strings: [None] is in no such list. *)
Definition _should_extract_symbol (extract_types : list string)
    (symbol_type : string) : bool :=
  match extract_types with
  | [] => true
  | _ =>
      in_list symbol_type extract_types
      || in_list (symbol_type +:+ "s") extract_types
      || match type_map_get symbol_type with
         | Some singular => in_list singular extract_types
         | None => false
         end
  end.

End Parser.

(** A pattern of a single component: no [/], not empty and not [.]. *)
Definition name_pattern (pattern : string) : bool :=
  negb (Py.contains "/" pattern) && negb (String.eqb pattern "")
  && negb (String.eqb pattern ".").

(** The last component of [path] matches [pattern]. *)
Definition file_name_matches (path pattern : string) : bool :=
  match rev (snd (Glob.parse_parts path)) with
  | [] => false
  | file_name :: _ => Glob.fnmatchcase file_name pattern
  end.

(** A text that [fnmatch] reads as itself: no [*], [?] or [[]. *)
Definition literal (s : string) : bool :=
  negb (Py.contains "*" s) && negb (Py.contains "?" s)
  && negb (Py.contains "[" s).

(** ** Reports ([golden_thread/cli.py]) *)

Module Cli.

(** An error dictionary of either validator. *)
Definition error : Type := (Coverage.error + Consistency.entry)%type.

Record service_result : Type :=
  { service_name : string;
    valid : bool;
    errors : list error;
    warnings : list Consistency.entry;
    coverage_percentage : Q;
    total_symbols : nat;
    mapped_symbols : nat;
    orphan_symbols : list string;
    invalid_mappings : list string }.

(** The dictionary that [validate_service] returns, from the manifest and
    the results of the two validators. *)
Definition service_report (m : Manifest)
    (coverage_result : Coverage.CoverageResult)
    (consistency_result : Consistency.ConsistencyResult) : service_result :=
  let all_errors :=
    map inl (Coverage.errors coverage_result)
    ++ map inr (Consistency.errors consistency_result) in
  let all_warnings := Consistency.warnings consistency_result in
  {| service_name := service m;
     valid := (length all_errors =? 0)%nat;
     errors := all_errors;
     warnings := all_warnings;
     coverage_percentage := Coverage.coverage_percentage coverage_result;
     total_symbols := Coverage.total_symbols coverage_result;
     mapped_symbols := Coverage.mapped_symbols coverage_result;
     orphan_symbols := Coverage.orphan_symbols coverage_result;
     invalid_mappings := Coverage.invalid_mappings coverage_result |}.

(** The body of the loop of [combine_results]. *)
Definition extend (combined result : service_result) : service_result :=
  {| service_name := service_name combined;
     valid := valid combined;
     errors := errors combined ++ errors result;
     warnings := warnings combined ++ warnings result;
     coverage_percentage := coverage_percentage combined;
     total_symbols := total_symbols combined + total_symbols result;
     mapped_symbols := mapped_symbols combined + mapped_symbols result;
     orphan_symbols := orphan_symbols combined ++ orphan_symbols result;
     invalid_mappings := invalid_mappings combined ++ invalid_mappings result |}.

(** [combine_results] *)
Definition combine_results (results : list service_result)
  : outcome service_result :=
  let combined :=
    {| service_name := "all";
       valid := forallb valid results;
       errors := [];
       warnings := [];
       coverage_percentage := 0%Q;
       total_symbols := 0;
       mapped_symbols := 0;
       orphan_symbols := [];
       invalid_mappings := [] |} in
  let combined := foldl extend combined results in
  if (0 <? total_symbols combined)%nat then
    match Float.int_truediv (Z.of_nat (mapped_symbols combined))
            (Z.of_nat (total_symbols combined)) with
    | Raise e => Raise e
    | Return quotient =>
        Return {| service_name := service_name combined;
                  valid := valid combined;
                  errors := errors combined;
                  warnings := warnings combined;
                  coverage_percentage := Float.mul quotient 100;
                  total_symbols := total_symbols combined;
                  mapped_symbols := mapped_symbols combined;
                  orphan_symbols := orphan_symbols combined;
                  invalid_mappings := invalid_mappings combined |}
    end
  else Return combined.

(** [has_errors], as the [validate] command computes it for its exit
    code. *)
Definition has_errors (all_results : list service_result) : bool :=
  existsb (fun r => negb (valid r)) all_results.

End Cli.

(** ** The client's requests ([golden_thread/notion/client.py])

    A JSON value is a [json]; the keys of an object are distinct.  The
    world holds whatever lies outside the client and its cache directory:
    the remote service, the clocks, the time that passes.  Every reading
    of a clock, every sleep and every request is a step of the world.
    What [requests] does with a request is one of: a [requests.Timeout], a
    status that [raise_for_status] turns into a [requests.HTTPError],
    another [requests.RequestException] (a body that is not JSON among
    them), an exception of another kind, or a decoded body, which is any
    JSON value. *)

Module Client.

#[local] Set Warnings "-register-all".

Inductive json : Type :=
| JNull
| JBool (b : bool)
| JNum (n : Z)
| JFloat (x : Q)
| JStr (s : string)
| JList (items : list json)
| JDict (entries : list (string * json)).

(** The truth value of a JSON value in a Python [if] or [while]. *)
Definition truthy (v : json) : bool :=
  match v with
  | JNull => false
  | JBool b => b
  | JNum n => negb (n =? 0)%Z
  | JFloat x => negb (Qeq_bool x 0)
  | JStr s => negb (String.eqb s "")
  | JList items => match items with [] => false | _ => true end
  | JDict entries => match entries with [] => false | _ => true end
  end.

(** [cached is not None] *)
Definition is_not_None (v : json) : bool :=
  match v with
  | JNull => false
  | _ => true
  end.

(** [type(v).__name__] *)
Definition type_name (v : json) : string :=
  match v with
  | JNull => "NoneType"
  | JBool _ => "bool"
  | JNum _ => "int"
  | JFloat _ => "float"
  | JStr _ => "str"
  | JList _ => "list"
  | JDict _ => "dict"
  end.

Fixpoint assoc {A : Type} (key : string) (entries : list (string * A))
  : option A :=
  match entries with
  | [] => None
  | (k, v) :: entries' => if String.eqb k key then Some v else assoc key entries'
  end.

(** [data.get(key, default)]: only an object has [get]. *)
Definition get_item (data : json) (key : string) (dflt : json)
  : outcome json :=
  match data with
  | JDict entries => Return (default dflt (assoc key entries))
  | _ =>
      Raise (AttributeError
               ("'" +:+ type_name data +:+ "' object has no attribute 'get'"))
  end.

(** [results.extend(items)]: the elements of a list, the keys of an object
    or the characters of a string are appended; nothing else can be
    iterated over. *)
Definition extend (results : list json) (items : json)
  : outcome (list json) :=
  match items with
  | JList l => Return (results ++ l)
  | JDict entries => Return (results ++ map (fun kv => JStr kv.1) entries)
  | JStr s =>
      Return (results
              ++ map (fun c => JStr (String c "")) (list_ascii_of_string s))
  | _ =>
      Raise (TypeError ("'" +:+ type_name items +:+ "' object is not iterable"))
  end.

Record payload : Type :=
  { page_size : Z;
    filter : option json;
    start_cursor : option json }.

Inductive response : Type :=
| Timeout
| HTTPError (status_code : Z) (text : string)
| RequestException (msg : string)
| Failure (e : exn)
| Ok (data : json).

Section Remote.
Context {World : Type}.

(** The client object ([last_request_time]), the files of the cache
    directory, whether a cache file can be written, and the world. *)
Record state : Type :=
  { files : gmap string Cache.file;
    writable : bool;
    last_request_time : Q;
    world : World }.

Definition set_world (st : state) (w : World) : state :=
  {| files := files st; writable := writable st;
     last_request_time := last_request_time st; world := w |}.

Definition set_files (st : state) (fs : gmap string Cache.file) (w : World)
  : state :=
  {| files := fs; writable := writable st;
     last_request_time := last_request_time st; world := w |}.

(** [time.time()], and what [time.sleep(secs)] makes of the world for a
    [secs] that is not negative. *)
Variable time_time : World -> World * Q.
Variable time_sleep : Q -> World -> World.
Variable datetime_now : World -> World * Z.
Variable file_time : World -> World * Q.
Variable fromtimestamp : Q -> outcome Z.

(** [time.sleep(secs)] *)
Definition sleep (secs : Q) : M state unit :=
  fun st =>
    if Qle_bool 0 secs then (set_world st (time_sleep secs (world st)), Return tt)
    else (st, Raise (ValueError "sleep length must be non-negative")).

Definition base_url : string := "https://api.notion.com/v1".

(** [self.rate_limit]: requests per second. *)
Definition rate_limit : Z := 3.

(** [time.time()] on the state. *)
Definition now : M state Q :=
  fun st => let '(w, t) := time_time (world st) in (set_world st w, Return t).

Definition get_last_request_time : M state Q :=
  fun st => (st, Return (last_request_time st)).

Definition set_last_request_time (t : Q) : M state unit :=
  fun st =>
    ({| files := files st; writable := writable st;
        last_request_time := t; world := world st |}, Return tt).

(** [_rate_limit] *)
Definition _rate_limit : M state unit :=
  (t <- now ;;
   last <- get_last_request_time ;;
   let elapsed := Float.sub t last in
   min_interval <- lift (Float.div 1 (inject_Z rate_limit)) ;;
   _ <- (if negb (Qle_bool min_interval elapsed)
         then sleep (Float.sub min_interval elapsed)
         else ret tt) ;;
   t <- now ;;
   set_last_request_time t)%monad.

(** What [_rate_limit] goes through: the time elapsed at the first reading
    of the clock, the world after the pause if there is one, and the state
    after the second reading. *)
Definition elapsed (st : state) : Q :=
  Float.sub (time_time (world st)).2 (last_request_time st).

Definition rested (st : state) : World :=
  let w := (time_time (world st)).1 in
  if negb (Qle_bool (Float.rnd (1 / 3)) (elapsed st))
  then time_sleep (Float.sub (Float.rnd (1 / 3)) (elapsed st)) w
  else w.

Definition paced (st : state) : state :=
  {| files := files st;
     writable := writable st;
     last_request_time := (time_time (rested st)).2;
     world := (time_time (rested st)).1 |}.

Variable cfg : Cache.config.
Variable json_dump : json -> string.
Variable json_load : string -> option json.
(** [hashlib.sha256(key_data.encode()).hexdigest()] *)
Variable sha256_hexdigest : string -> string.
(** [str(filter_params)] *)
Variable py_str : option json -> string.
(** [requests.post(url, json=payload)] and [requests.get(url)], followed
    by [raise_for_status()] and [json()]. *)
Variable post : string -> payload -> World -> World * response.
Variable get : string -> World -> World * response.

(** [_get_cache_key] *)
Definition _get_cache_key (key_data : string) : string :=
  sha256_hexdigest key_data.

(** [_get_cached] and [_set_cached] on the state. *)
Definition _get_cached (cache_key : string) : M state json :=
  fun st =>
    let '(fs, w, cached) :=
      Cache._get_cached JNull json_load fromtimestamp datetime_now cfg
        cache_key (files st) (world st) in
    (set_files st fs w, cached).

Definition _set_cached (cache_key : string) (data : json) : M state unit :=
  fun st =>
    let '(fs, w) :=
      Cache._set_cached json_dump file_time cfg cache_key data (writable st)
        (files st) (world st) in
    (set_files st fs w, Return tt).

(** The message of the [NotionError] that [search_database] raises for a
    [requests.HTTPError]. *)
Definition database_http_error (database_id : string) (status_code : Z)
    (text : string) : string :=
  if (status_code =? 404)%Z then
    "Database not found: " +:+ database_id +:+ Orphans.nl
    +:+ "Please check your database IDs in the configuration."
  else if (status_code =? 401)%Z then
    "Notion API authentication failed. Please check your API token."
  else if (status_code =? 429)%Z then
    "Notion API rate limit exceeded. Please try again later."
  else "Notion API error: " +:+ pretty status_code +:+ " - " +:+ text.

(** [requests.post] with the handlers of [search_database]: the three
    failures of [requests] become a [NotionError], anything else goes
    through. *)
Definition post_query (database_id url : string) (payload : payload)
  : M state json :=
  fun st =>
    let '(w, response) := post url payload (world st) in
    let st := set_world st w in
    match response with
    | Timeout =>
        (st, Raise (NotionError
                      ("Request timeout querying database " +:+ database_id)))
    | HTTPError status_code text =>
        (st, Raise (NotionError
                      (database_http_error database_id status_code text)))
    | RequestException msg =>
        (st, Raise (NotionError
                      ("Failed to query database " +:+ database_id
                       +:+ ": " +:+ msg)))
    | Failure e => (st, Raise e)
    | Ok data => (st, Return data)
    end.

(** The [while has_more] loop of [search_database] inside its [try], entered
    with [has_more] true; [fuel] bounds the number of requests, and [None]
    is returned when it runs out. *)
Fixpoint query_loop (fuel : nat) (database_id url : string)
    (payload : payload) (results : list json) (next_cursor : json)
  : M state (option (list json)) :=
  match fuel with
  | O => ret None
  | S fuel =>
      let payload :=
        if truthy next_cursor
        then {| page_size := page_size payload; filter := filter payload;
                start_cursor := Some next_cursor |}
        else payload in
      (data <- post_query database_id url payload ;;
       items <- lift (get_item data "results" (JList [])) ;;
       results <- lift (extend results items) ;;
       has_more <- lift (get_item data "has_more" (JBool false)) ;;
       next_cursor <- lift (get_item data "next_cursor" JNull) ;;
       if truthy has_more
       then
         _ <- _rate_limit ;;
         query_loop fuel database_id url payload results next_cursor
       else ret (Some results))%monad
  end.

(** [search_database]; [None] when [fuel] requests did not reach the last
    page. *)
Definition search_database (fuel : nat) (database_id : string)
    (filter_params : option json) : M state (option json) :=
  let cache_key :=
    _get_cache_key ("db_" +:+ database_id +:+ "_" +:+ py_str filter_params) in
  (cached <- _get_cached cache_key ;;
   if is_not_None cached then ret (Some cached)
   else
     _ <- _rate_limit ;;
     let url := base_url +:+ "/databases/" +:+ database_id +:+ "/query" in
     let payload :=
       {| page_size := 100;
          filter := match filter_params with
                    | Some f => if truthy f then Some f else None
                    | None => None
                    end;
          start_cursor := None |} in
     results <- query_loop fuel database_id url payload [] JNull ;;
     match results with
     | None => ret None
     | Some results =>
         _ <- _set_cached cache_key (JList results) ;;
         ret (Some (JList results))
     end)%monad.

(** The message of the [NotionError] that [get_page] raises for a
    [requests.HTTPError]. *)
Definition page_http_error (page_id : string) (status_code : Z)
    (text : string) : string :=
  if (status_code =? 404)%Z then "Page not found: " +:+ page_id
  else if (status_code =? 401)%Z then
    "Notion API authentication failed. Please check your API token."
  else "Notion API error: " +:+ pretty status_code +:+ " - " +:+ text.

(** [requests.get] with the handlers of [get_page]. *)
Definition get_url (page_id url : string) : M state json :=
  fun st =>
    let '(w, response) := get url (world st) in
    let st := set_world st w in
    match response with
    | Timeout =>
        (st, Raise (NotionError
                      ("Request timeout retrieving page " +:+ page_id)))
    | HTTPError status_code text =>
        (st, Raise (NotionError (page_http_error page_id status_code text)))
    | RequestException msg =>
        (st, Raise (NotionError
                      ("Failed to retrieve page " +:+ page_id +:+ ": "
                       +:+ msg)))
    | Failure e => (st, Raise e)
    | Ok result => (st, Return result)
    end.

(** [get_page] *)
Definition get_page (page_id : string) : M state json :=
  let cache_key := _get_cache_key ("page_" +:+ page_id) in
  (cached <- _get_cached cache_key ;;
   if is_not_None cached then ret cached
   else
     _ <- _rate_limit ;;
     let url := base_url +:+ "/pages/" +:+ page_id in
     result <- get_url page_id url ;;
     _ <- _set_cached cache_key result ;;
     ret result)%monad.

(** The rows, the truth of [has_more] and the cursor of a body. *)
Definition page_rows (data : json) : outcome json :=
  get_item data "results" (JList []).

Definition more (data : json) : outcome json :=
  get_item data "has_more" (JBool false).

Definition cursor (data : json) : outcome json :=
  get_item data "next_cursor" JNull.

(** A service that hands out, page by page, the rows that follow a cursor:
    [rows_from c] are the rows from the cursor [c] on ([None] being the
    start), and a page that announces more is not empty. *)
Definition paginates (url : string) (rows_from : option json -> list json)
  : Prop :=
  forall (p : payload) (w : World),
  exists w' data rows has_more next_cursor,
    post url p w = (w', Ok data) /\
    page_rows data = Return (JList rows) /\
    more data = Return has_more /\
    cursor data = Return next_cursor /\
    if truthy has_more
    then truthy next_cursor = true /\ rows <> [] /\
         rows ++ rows_from (Some next_cursor) = rows_from (start_cursor p)
    else rows = rows_from (start_cursor p).

(** A service whose every answer to a query is a failure of [requests] or
    an object whose ["results"] can be iterated over. *)
Definition answers_well (url : string) : Prop :=
  forall (p : payload) (w : World),
    match (post url p w).2 with
    | Failure _ => False
    | Ok data =>
        exists items results,
          page_rows data = Return items /\ extend [] items = Return results
    | _ => True
    end.

End Remote.

Arguments state World : clear implicits.

End Client.

(** ** A small remote service

    Three rows are handed out in two pages.  The world is the number of
    requests made and the time stamp of the moment; a request takes an
    eighth of a second, a sleep takes what is asked for, and local time is
    one hour ahead of the time stamp. *)

Module Service.

Definition World : Type := nat * Q.

Definition time_time (w : World) : World * Q := (w, Float.rnd w.2).

Definition time_sleep (secs : Q) (w : World) : World :=
  (w.1, Qred (w.2 + secs)).

Definition local_time (t : Q) : Z := (Qfloor (t * 1000000) + 3600000000)%Z.

Definition datetime_now (w : World) : World * Z := (w, local_time w.2).

Definition file_time (w : World) : World * Q := (w, w.2).

Definition fromtimestamp (t : Q) : outcome Z := Return (local_time t).

Definition row_a : Client.json := Client.JStr "a".
Definition row_b : Client.json := Client.JStr "b".
Definition row_c : Client.json := Client.JStr "c".

Definition request (w : World) : World := (S w.1, Qred (w.2 + (1 # 8))).

Definition post (url : string) (p : Client.payload) (w : World)
  : World * Client.response :=
  (request w,
   Client.Ok
     match Client.start_cursor p with
     | None =>
         Client.JDict [("results", Client.JList [row_a; row_b]);
                       ("has_more", Client.JBool true);
                       ("next_cursor", Client.JStr "cursor-2")]
     | Some _ =>
         Client.JDict [("results", Client.JList [row_c]);
                       ("has_more", Client.JBool false);
                       ("next_cursor", Client.JNull)]
     end).

Definition rows_from (cursor : option Client.json) : list Client.json :=
  match cursor with
  | None => [row_a; row_b; row_c]
  | Some _ => [row_c]
  end.

Definition page_1 : Client.json :=
  Client.JDict [("id", Client.JStr "page-1")].

Definition get (url : string) (w : World) : World * Client.response :=
  (request w, Client.Ok page_1).

(** A service that cannot be reached in time, and one whose body is a list
    where an object is expected. *)
Definition post_down (url : string) (p : Client.payload) (w : World)
  : World * Client.response :=
  (request w, Client.Timeout).

Definition post_list (url : string) (p : Client.payload) (w : World)
  : World * Client.response :=
  (request w, Client.Ok (Client.JList [row_a])).

Definition item_text (v : Client.json) : string :=
  match v with
  | Client.JStr s => s
  | _ => "?"
  end.

(** The JSON text of a list of strings and of [page_1], and the reading of
    the two texts that occur. *)
Definition json_dump (v : Client.json) : string :=
  match v with
  | Client.JList items => "[" +:+ String.concat "," (map item_text items) +:+ "]"
  | Client.JDict _ => "{page-1}"
  | _ => "null"
  end.

Definition json_load (s : string) : option Client.json :=
  if String.eqb s "[a,b,c]" then Some (Client.JList [row_a; row_b; row_c])
  else if String.eqb s "{page-1}" then Some page_1
  else if String.eqb s "null" then Some Client.JNull
  else None.

Definition key_of (key_data : string) : string := key_data.

Definition py_str (filter_params : option Client.json) : string :=
  match filter_params with
  | None => "None"
  | Some _ => "{...}"
  end.

Definition start : Client.state World :=
  {| Client.files := ∅; Client.writable := true;
     Client.last_request_time := 0; Client.world := (0%nat, 10%Q) |}.

(** A client whose last request was a quarter of a second ago. *)
Definition hurried : Client.state World :=
  {| Client.files := ∅; Client.writable := true;
     Client.last_request_time := 0; Client.world := (0%nat, (1 # 4)%Q) |}.

Definition rows : Client.json := Client.JList [row_a; row_b; row_c].

(** The cache file of the query for ["db-feat"] without a filter, written
    at the time stamp 0. *)
Definition rows_file : Cache.file :=
  {| Cache.content := "[a,b,c]"; Cache.st_mtime := 0;
     Cache.readable := true |}.

Definition warm : Client.state World :=
  {| Client.files :=
       {[ ".golden-thread-cache/db_db-feat_None.json" := rows_file ]};
     Client.writable := true;
     Client.last_request_time := 0; Client.world := (0%nat, 10%Q) |}.

(** The state [st] a while later. *)
Definition later (secs : Q) (st : Client.state World) : Client.state World :=
  Client.set_world st ((Client.world st).1, Qred ((Client.world st).2 + secs)).

Definition cache_config : Cache.config :=
  {| Cache.cache_enabled := true; Cache.cache_ttl := 3600;
     Cache.cache_dir := ".golden-thread-cache" |}.

Definition _rate_limit := Client._rate_limit time_time time_sleep.

Definition search_database_with post :=
  Client.search_database time_time time_sleep datetime_now file_time
    fromtimestamp cache_config json_dump json_load key_of py_str post.

Definition search_database := search_database_with post.

Definition search_database_down := search_database_with post_down.

Definition search_database_list := search_database_with post_list.

Definition get_page :=
  Client.get_page time_time time_sleep datetime_now file_time fromtimestamp
    cache_config json_dump json_load key_of get.

End Service.

(** * Properties *)

(** ** Strings *)

Lemma append_nil (t : string) : "" +:+ t = t.
Proof. reflexivity. Qed.

Lemma append_cons c (s t : string) : String c s +:+ t = String c (s +:+ t).
Proof. reflexivity. Qed.

Ltac str_norm := repeat (rewrite append_cons || rewrite append_nil).

(** ** Identifier format *)

Lemma split_no_sep sep s :
  Py.contains sep s = false -> Py.split sep s = [s].
Proof.
  induction s as [|c s IH]; simpl; [reflexivity|].
  intros H. apply orb_false_iff in H as [Hc Hs].
  rewrite Hc, (IH Hs). reflexivity.
Qed.

Lemma split_cut sep a b :
  Py.contains sep a = false ->
  Py.split sep (a +:+ String sep b) = a :: Py.split sep b.
Proof.
  induction a as [|c a IH]; simpl.
  - intros _. rewrite Ascii.eqb_refl. reflexivity.
  - intros H. apply orb_false_iff in H as [Hc Ha].
    rewrite Hc, (IH Ha). reflexivity.
Qed.

Lemma contains_cut sep s :
  Py.contains sep s = true ->
  exists a b, s = a +:+ String sep b /\ Py.contains sep a = false.
Proof.
  induction s as [|c s IH]; simpl; [discriminate|].
  destruct (Ascii.eqb c sep) eqn:Hc; simpl.
  - intros _. apply Ascii.eqb_eq in Hc as ->. exists "", s. auto.
  - intros H. destruct (IH H) as (a & b & -> & Ha).
    exists (String c a), b. simpl. rewrite Hc, Ha. auto.
Qed.

Lemma split_nonempty sep s : Py.split sep s <> [].
Proof.
  destruct s as [|c s]; simpl; [discriminate|].
  destruct (Ascii.eqb c sep); [discriminate|].
  destruct (Py.split sep s); discriminate.
Qed.

Lemma extract_none id_str :
  Py.contains "-" id_str = false -> _extract_id_type id_str = None.
Proof.
  intros H. unfold _extract_id_type. rewrite (split_no_sep _ _ H).
  reflexivity.
Qed.

Lemma extract_some ty rest :
  Py.contains "-" ty = false ->
  _extract_id_type (ty +:+ "-" +:+ rest) = Some ty.
Proof.
  intros H. unfold _extract_id_type.
  change ("-" +:+ rest) with (String "-" rest).
  rewrite (split_cut _ _ _ H).
  pose proof (split_nonempty "-" rest) as Hne.
  destruct (Py.split "-" rest); [congruence|]. reflexivity.
Qed.

Lemma ID_PATTERNS_lookup ty pat :
  ID_PATTERNS !! ty = Some pat ->
  pat = id_regex ty /\ pat <> [] /\ ty <> "" /\ Py.contains "-" ty = false.
Proof.
  intros H. apply elem_of_list_to_map_2 in H.
  repeat (apply elem_of_cons in H as [H|H];
          [injection H as -> ->;
           split; [reflexivity|split; [discriminate|split;
             [discriminate|reflexivity]]]|]).
  apply elem_of_nil in H. destruct H.
Qed.

(** What the nodes of an identifier pattern accept. *)

Lemma go_lits t p s b :
  Re.go (Re.lits t ++ p) s b = true <->
  exists s', s = t +:+ s' /\
             Re.go p s' (match t with EmptyString => b | _ => false end) = true.
Proof.
  revert s b. induction t as [|c t IH]; intros s b; simpl.
  - split; [intros H; exists s; auto|intros (s' & -> & H); exact H].
  - destruct s as [|d r].
    + split; [discriminate|intros (s' & Hs & _); discriminate].
    + rewrite andb_true_iff, Ascii.eqb_eq, IH. split.
      * intros (-> & s' & -> & H). exists s'. split; [reflexivity|].
        destruct t; exact H.
      * intros (s' & Hs & H). injection Hs as -> ->.
        split; [reflexivity|]. exists s'. split; [reflexivity|].
        destruct t; exact H.
Qed.

Lemma plus_spec a k s :
  Re.plus a k s = true <->
  exists u v, s = u +:+ v /\ u <> "" /\
              Py.all_chars (Re.atom_ok a) u = true /\ k v = true.
Proof.
  induction s as [|c r IH]; simpl.
  - split; [discriminate|].
    intros (u & v & Hs & Hu & _). destruct u; [congruence|discriminate].
  - rewrite andb_true_iff, orb_true_iff, IH. split.
    + intros (Hc & [(u & v & -> & Hu & Hall & Hk)|Hk]).
      * exists (String c u), v. simpl. rewrite Hc, Hall. auto.
      * exists (String c ""), r. simpl. rewrite Hc. auto.
    + intros (u & v & Hs & Hu & Hall & Hk).
      destruct u as [|d u]; [congruence|]. simpl in Hs, Hall.
      injection Hs as -> ->. apply andb_true_iff in Hall as [Hd Hall].
      split; [exact Hd|]. destruct u as [|e u].
      * right. exact Hk.
      * left. exists (String e u), v. auto.
Qed.

Lemma rep_spec a k n s :
  Re.rep a k n s = true <->
  exists u v, s = u +:+ v /\ String.length u = n /\
              Py.all_chars (Re.atom_ok a) u = true /\ k v = true.
Proof.
  revert s. induction n as [|n IH]; intros s; simpl.
  - split.
    + intros H. exists "", s. auto.
    + intros (u & v & -> & Hu & _ & Hk). destruct u; [exact Hk|discriminate].
  - destruct s as [|c r].
    + split; [discriminate|].
      intros (u & v & Hs & Hu & _). destruct u; discriminate.
    + rewrite andb_true_iff, IH. split.
      * intros (Hc & u & v & -> & Hu & Hall & Hk).
        exists (String c u), v. simpl. rewrite Hc, Hall, Hu. auto.
      * intros (u & v & Hs & Hu & Hall & Hk).
        destruct u as [|d u]; [discriminate|]. simpl in Hs, Hu, Hall.
        injection Hs as -> ->. injection Hu as Hu.
        apply andb_true_iff in Hall as [Hd Hall].
        split; [exact Hd|]. exists u, v. auto.
Qed.

Lemma at_end_spec s :
  Re.at_end s = true <-> s = "" \/ s = String "010" "".
Proof.
  destruct s as [|c [|d s]]; simpl.
  - split; auto.
  - rewrite Ascii.eqb_eq. split.
    + intros ->. auto.
    + intros [H|H]; [discriminate|]. injection H as ->. reflexivity.
  - split; [discriminate|]. intros [H|H]; discriminate.
Qed.

Lemma id_regex_spec ty s :
  ty <> "" ->
  Re.re_match (id_regex ty) s = true <->
  exists scope num tl,
    s = ty +:+ "-" +:+ scope +:+ "-" +:+ num +:+ tl /\
    scope <> "" /\ Py.all_chars Py.is_upper scope = true /\
    String.length num = 3 /\ Py.all_chars Py.is_digit num = true /\
    (tl = "" \/ tl = String "010" "").
Proof.
  intros Hty. unfold Re.re_match, id_regex.
  cbn [Re.go]. rewrite andb_true_l, go_lits.
  destruct ty as [|c0 ty0]; [congruence|]. set (ty := String c0 ty0).
  split.
  - intros (s1 & -> & H). cbn [Re.go] in H.
    destruct s1 as [|d s2]; [discriminate|].
    apply andb_true_iff in H as [Hd H]. apply Ascii.eqb_eq in Hd as ->.
    apply plus_spec in H as (scope & s3 & -> & Hne & Hup & H).
    destruct s3 as [|d s4]; [discriminate|].
    apply andb_true_iff in H as [Hd H]. apply Ascii.eqb_eq in Hd as ->.
    apply rep_spec in H as (num & tl & -> & Hlen & Hdig & H).
    cbn [Re.go] in H. rewrite andb_true_r in H. apply at_end_spec in H.
    exists scope, num, tl. auto 10.
  - intros (scope & num & tl & -> & Hne & Hup & Hlen & Hdig & Htl).
    exists ("-" +:+ scope +:+ "-" +:+ num +:+ tl). split; [reflexivity|].
    str_norm. cbn [Re.go Re.atom_ok]. rewrite Ascii.eqb_refl, andb_true_l.
    apply plus_spec. exists scope, ("-" +:+ num +:+ tl).
    split; [reflexivity|]. split; [exact Hne|]. split; [exact Hup|].
    str_norm. rewrite Ascii.eqb_refl, andb_true_l.
    apply rep_spec. exists num, tl.
    split; [reflexivity|]. split; [exact Hlen|]. split; [exact Hdig|].
    cbn [Re.go]. rewrite andb_true_r. apply at_end_spec. exact Htl.
Qed.

Lemma validate_id_format_no_dash id_str :
  Py.contains "-" id_str = false ->
  _extract_id_type id_str = None /\ validate_id_format id_str = false.
Proof.
  intros H. split; [exact (extract_none _ H)|].
  unfold validate_id_format. rewrite (extract_none _ H). reflexivity.
Qed.

Lemma validate_id_format_dash ty rest :
  Py.contains "-" ty = false ->
  _extract_id_type (ty +:+ "-" +:+ rest) = Some ty /\
  validate_id_format (ty +:+ "-" +:+ rest) =
    match ID_PATTERNS !! ty with
    | Some pat => negb (String.eqb ty "")
                  && Re.re_match pat (ty +:+ "-" +:+ rest)
    | None => false
    end.
Proof.
  intros H. split; [exact (extract_some _ _ H)|].
  unfold validate_id_format. rewrite (extract_some _ _ H).
  destruct (ID_PATTERNS !! ty) as [pat|] eqn:Hpat.
  - destruct (ID_PATTERNS_lookup _ _ Hpat) as (_ & Hne & _ & _).
    destruct ty as [|c ty]; [reflexivity|].
    destruct pat; [congruence|]. reflexivity.
  - destruct ty; reflexivity.
Qed.

Lemma validate_id_format_shape id_str :
  validate_id_format id_str = true <-> well_formed_id id_str.
Proof.
  split.
  - intros Hv. destruct (Py.contains "-" id_str) eqn:Hc.
    + apply contains_cut in Hc as (ty & rest & -> & Hty).
      destruct (validate_id_format_dash ty rest Hty) as [_ Heq].
      change (String "-" rest) with ("-" +:+ rest) in Hv.
      rewrite Heq in Hv.
      destruct (ID_PATTERNS !! ty) as [pat|] eqn:Hpat; [|discriminate].
      destruct (ID_PATTERNS_lookup _ _ Hpat) as (-> & _ & Hne & _).
      apply andb_true_iff in Hv as [_ Hv].
      apply (id_regex_spec _ _ Hne) in Hv
        as (scope & num & tl & Hs & Hrest).
      exists ty, scope, num, tl. rewrite Hpat. split; [eauto|].
      split; [exact Hs|exact Hrest].
    + destruct (validate_id_format_no_dash _ Hc) as [_ Hf]. congruence.
  - intros (ty & scope & num & tl & [pat Hpat] & -> & Hrest).
    destruct (ID_PATTERNS_lookup _ _ Hpat) as (-> & _ & Hne & Hty).
    destruct (validate_id_format_dash ty
                (scope +:+ "-" +:+ num +:+ tl) Hty) as [_ ->].
    rewrite Hpat. apply andb_true_iff. split.
    + destruct ty; [congruence|reflexivity].
    + apply (id_regex_spec _ _ Hne). exists scope, num, tl. auto.
Qed.

(** A type outside the table is rejected, and the [$] of the patterns lets
    one final newline through. *)
Example validate_id_format_edges :
  validate_id_format "REST-HEALTH-001" = false /\
  validate_id_format "FEAT-CV-123" = true /\
  validate_id_format ("BR-AUTH-001" +:+ String "010" "") = true /\
  validate_id_format "-AUTH-001" = false.
Proof. vm_compute. repeat split. Qed.

(** C8. [validate_id_format] takes as type the text before the first [-],
    looks up the pattern of that type and answers whether [re.match]
    accepts the identifier; it answers false when there is no [-], when the
    type is empty or when the type has no pattern.  The accepted
    identifiers are exactly those of the shape [well_formed_id], and the
    four identifiers of the design document are classified as stated
    there. *)
Theorem validate_id_format_spec :
  validate_id_format "BR-AUTH-001" = true /\
  validate_id_format "br-auth-001" = false /\
  validate_id_format "BR-001" = false /\
  validate_id_format "INVALID" = false /\
  (forall id_str,
     Py.contains "-" id_str = false ->
     _extract_id_type id_str = None /\ validate_id_format id_str = false) /\
  (forall ty rest,
     Py.contains "-" ty = false ->
     _extract_id_type (ty +:+ "-" +:+ rest) = Some ty /\
     validate_id_format (ty +:+ "-" +:+ rest) =
       match ID_PATTERNS !! ty with
       | Some pat => negb (String.eqb ty "")
                     && Re.re_match pat (ty +:+ "-" +:+ rest)
       | None => false
       end) /\
  (forall id_str, validate_id_format id_str = true <-> well_formed_id id_str).
Proof.
  split; [vm_compute; reflexivity|].
  split; [vm_compute; reflexivity|].
  split; [vm_compute; reflexivity|].
  split; [vm_compute; reflexivity|].
  split; [exact validate_id_format_no_dash|].
  split; [exact validate_id_format_dash|].
  exact validate_id_format_shape.
Qed.

(** ** Loops with effects *)

Lemma bind_run {W A B} (m : M W A) (f : A -> M W B) w :
  bind m f w
  = match m w with
    | (w', Return a) => f a w'
    | (w', Raise e) => (w', Raise e)
    end.
Proof. reflexivity. Qed.

Lemma bind_assoc {W A B C} (m : M W A) (f : A -> M W B) (g : B -> M W C) w :
  bind (bind m f) g w = bind m (fun a => bind (f a) g) w.
Proof.
  rewrite !bind_run. destruct (m w) as [w1 [e|a]]; reflexivity.
Qed.

Lemma for_each_app {W A S} (xs ys : list A) (body : S -> A -> M W S) acc w :
  for_each (xs ++ ys) body acc w
  = bind (for_each xs body acc) (for_each ys body) w.
Proof.
  revert acc w. induction xs as [|x xs IH]; intros acc w.
  - reflexivity.
  - cbn [for_each app]. rewrite bind_assoc, !bind_run.
    destruct (body acc x w) as [w1 [e|acc1]]; [reflexivity|].
    apply IH.
Qed.

Lemma for_each_concat {W A B S} (f : A -> list B) (body : S -> B -> M W S)
    (xs : list A) acc w :
  for_each xs (fun acc x => for_each (f x) body acc) acc w
  = for_each (concat (map f xs)) body acc w.
Proof.
  revert acc w. induction xs as [|x xs IH]; intros acc w.
  - reflexivity.
  - cbn [for_each map concat]. rewrite for_each_app, !bind_run.
    destruct (for_each (f x) body acc w) as [w1 [e|acc1]]; [reflexivity|].
    apply IH.
Qed.

(** ** Chain validation *)

Lemma verified_test (s : string) :
  negb (String.eqb s "") && String.eqb (Py.lower s) "verified"
  = String.eqb (Py.lower s) "verified".
Proof. destruct s; reflexivity. Qed.

Lemma get_list_lookup (d : gmap string (list string)) k l :
  d !! k = Some l -> get_list d k = l.
Proof. intros H. unfold get_list. rewrite H. reflexivity. Qed.

Lemma has_requirements_links (d : gmap string (list string)) ts :
  existsb (fun req_type => negb (missing d req_type)) ts = false ->
  concat (map (get_list d) ts) = [].
Proof.
  induction ts as [|t ts IH]; simpl; [reflexivity|].
  intros H. apply orb_false_iff in H as [Ht Hts].
  rewrite (IH Hts), app_nil_r.
  unfold missing in Ht. unfold get_list.
  destruct (d !! t) as [[|x l]|]; simpl in *; congruence.
Qed.

Section ChainFacts.
Context {W : Type}.
Variable database_ids : gmap string string.
Variable search_database : string -> option filter -> M W (list page).

Local Abbreviation get := (get_entry database_ids search_database).
Local Abbreviation check_v :=
  (check_verification database_ids search_database).
Local Abbreviation check_req :=
  (check_requirement database_ids search_database).
Local Abbreviation chain :=
  (validate_traceability_chain database_ids search_database).

(** The two checks on a resolved verification are made one after the
    other, each on its own condition. *)
Lemma check_verification_resolved errs v_id v w w' :
  get v_id w = (w', Return (Some v)) ->
  check_v errs v_id w
  = (w', Return
           (errs
            ++ (if missing (related_ids v) "TC"
                then ["MISSING_TC: " +:+ v_id +:+ " has no Test Case"]
                else [])
            ++ (if is_verified v && missing (related_ids v) "EA"
                then ["MISSING_EA: " +:+ v_id
                      +:+ " is Verified but has no Evidence Artifact"]
                else []))).
Proof.
  intros H. unfold check_verification, bind. rewrite H.
  rewrite verified_test. unfold is_verified, ret.
  destruct (missing (related_ids v) "TC");
    destruct (String.eqb (Py.lower (status v)) "verified");
    destruct (missing (related_ids v) "EA"); simpl;
    rewrite ?app_nil_r, <- ?app_assoc; reflexivity.
Qed.

Lemma check_verification_absent errs v_id w w' :
  get v_id w = (w', Return None) ->
  check_v errs v_id w
  = (w', Return (errs ++ ["INVALID_ID: " +:+ v_id +:+ " not found"])).
Proof. intros H. unfold check_verification, bind. rewrite H. reflexivity. Qed.

Lemma check_requirement_resolved errs req_id req w w' :
  get req_id w = (w', Return (Some req)) ->
  missing (related_ids req) "V" = false ->
  check_req errs req_id w
  = for_each (get_list (related_ids req) "V") check_v errs w'.
Proof.
  intros H HV. unfold check_requirement, bind. rewrite H, HV. reflexivity.
Qed.

Lemma check_requirement_absent errs req_id w w' :
  get req_id w = (w', Return None) ->
  check_req errs req_id w
  = (w', Return (errs ++ ["INVALID_ID: " +:+ req_id +:+ " not found"])).
Proof. intros H. unfold check_requirement, bind. rewrite H. reflexivity. Qed.

Lemma check_requirement_raises errs req_id e w w' :
  get req_id w = (w', Raise e) ->
  check_req errs req_id w = (w', Raise e).
Proof. intros H. unfold check_requirement, bind. rewrite H. reflexivity. Qed.

(** Once the feature is resolved, the rest of the validation is one pass
    over its requirement links. *)
Lemma chain_resolved feat_id feat w w' :
  get feat_id w = (w', Return (Some feat)) ->
  chain feat_id w
  = bind (for_each (requirement_links feat) check_req
            (feature_errors feat_id feat))
      (fun errors =>
         ret {| Chain.valid := (length errors =? 0)%nat;
                Chain.errors := errors;
                Chain.warnings := feature_warnings feat_id feat |}) w'.
Proof.
  intros H. unfold validate_traceability_chain. unfold bind at 1. rewrite H.
  unfold bind. rewrite for_each_concat. fold (requirement_links feat).
  assert (Hfe :
    (let errors := [] in
     let errors :=
       if missing (related_ids feat) "BR"
       then errors ++ ["MISSING_BR: " +:+ feat_id
                       +:+ " has no Business Requirement"]
       else errors in
     let errors :=
       if missing (related_ids feat) "UR"
       then errors ++ ["MISSING_UR: " +:+ feat_id
                       +:+ " has no User Requirement"]
       else errors in
     if negb (existsb
                (fun req_type => negb (missing (related_ids feat) req_type))
                REQ_TYPES)
     then errors ++ ["MISSING_FR: " +:+ feat_id
                     +:+ " has no Functional Requirements"]
     else errors) = feature_errors feat_id feat).
  { unfold feature_errors.
    destruct (existsb _ REQ_TYPES) eqn:Hex.
    - assert (Hl : requirement_links feat <> []).
      { intros Hl. unfold requirement_links in Hl.
        apply existsb_exists in Hex as (t & Ht & Hm).
        assert (Hin : forall x, In x (get_list (related_ids feat) t) -> False).
        { intros x Hx.
          assert (Hx' : In x (concat (map (get_list (related_ids feat))
                                        REQ_TYPES))).
          { apply in_concat.
            exists (get_list (related_ids feat) t). split.
            - apply in_map. exact Ht.
            - exact Hx. }
          rewrite Hl in Hx'. exact Hx'. }
        unfold missing in Hm. unfold get_list in Hin.
        destruct (related_ids feat !! t) as [[|x l]|]; simpl in *;
          try discriminate.
        apply (Hin x). left. reflexivity. }
      destruct (requirement_links feat); [congruence|].
      destruct (missing (related_ids feat) "BR");
        destruct (missing (related_ids feat) "UR"); reflexivity.
    - apply has_requirements_links in Hex. unfold requirement_links.
      rewrite Hex.
      destruct (missing (related_ids feat) "BR");
        destruct (missing (related_ids feat) "UR"); reflexivity. }
  cbv zeta in Hfe. cbv zeta. rewrite Hfe. reflexivity.
Qed.

Lemma chain_absent feat_id w w' :
  get feat_id w = (w', Return None) ->
  chain feat_id w
  = (w', Return {| Chain.valid := false;
                   Chain.errors :=
                     ["INVALID_ID: " +:+ feat_id
                      +:+ " not found in Feature Registry"];
                   Chain.warnings := [] |}).
Proof.
  intros H. unfold validate_traceability_chain, bind. rewrite H. reflexivity.
Qed.

End ChainFacts.

(** C1. A feature with business, user and requirement links, whose one
    requirement has one verification: the errors of the chain are those of
    the test-case check followed by those of the evidence check, each
    decided by its own condition.  When the verification has a test case,
    a status that reads "verified" in any letter case, and no evidence, the
    result holds one error, [MISSING_EA], none with code [MISSING_TC], and
    is not valid. *)
Theorem chain_verified_without_evidence {W : Type}
    (database_ids : gmap string string)
    (search_database : string -> option filter -> M W (list page))
    (feat_id req_id v_id : string) (feat req v : RegistryEntry)
    (w0 w1 w2 w3 : W) :
  get_entry database_ids search_database feat_id w0
    = (w1, Return (Some feat)) ->
  missing (related_ids feat) "BR" = false ->
  missing (related_ids feat) "UR" = false ->
  requirement_links feat = [req_id] ->
  get_entry database_ids search_database req_id w1
    = (w2, Return (Some req)) ->
  related_ids req !! "V" = Some [v_id] ->
  get_entry database_ids search_database v_id w2 = (w3, Return (Some v)) ->
  exists res,
    validate_traceability_chain database_ids search_database feat_id w0
      = (w3, Return res) /\
    Chain.errors res
      = (if missing (related_ids v) "TC"
         then ["MISSING_TC: " +:+ v_id +:+ " has no Test Case"]
         else [])
        ++ (if is_verified v && missing (related_ids v) "EA"
            then ["MISSING_EA: " +:+ v_id
                  +:+ " is Verified but has no Evidence Artifact"]
            else []) /\
    Chain.valid res = (length (Chain.errors res) =? 0)%nat /\
    (missing (related_ids v) "TC" = false ->
     is_verified v = true ->
     missing (related_ids v) "EA" = true ->
     map (fun e => Consistency.parse_code e "VALIDATION_ERROR")
       (Chain.errors res) = ["MISSING_EA"] /\
     List.filter
       (fun e => String.eqb (Consistency.parse_code e "VALIDATION_ERROR")
                   "MISSING_TC")
       (Chain.errors res) = [] /\
     Chain.valid res = false).
Proof.
  intros Hfeat HBR HUR Hlinks Hreq HV Hv.
  rewrite (chain_resolved _ _ _ _ _ _ Hfeat), bind_run, Hlinks.
  assert (Hfe : feature_errors feat_id feat = []).
  { unfold feature_errors. rewrite HBR, HUR, Hlinks. reflexivity. }
  rewrite Hfe. cbn [for_each]. rewrite bind_run.
  assert (HmV : missing (related_ids req) "V" = false).
  { unfold missing. rewrite HV. reflexivity. }
  rewrite (check_requirement_resolved _ _ _ _ _ _ _ Hreq HmV).
  rewrite (get_list_lookup _ _ _ HV). cbn [for_each]. rewrite bind_run.
  rewrite (check_verification_resolved _ _ _ _ _ _ _ Hv).
  cbn [ret app]. eexists. split; [reflexivity|].
  cbn [Chain.errors Chain.valid].
  split; [reflexivity|]. split; [reflexivity|].
  intros -> -> ->. cbn [andb app map List.filter length].
  split; [reflexivity|]. split; reflexivity.
Qed.

Lemma chain_verified_without_evidence_witness :
  exists res,
    validate_traceability_chain Demo.database_ids Demo.search_database
      "FEAT-AUTH-001" 0%nat = (3%nat, Return res) /\
    Chain.errors res
      = ["MISSING_EA: V-AUTH-001 is Verified but has no Evidence Artifact"] /\
    Chain.valid res = false.
Proof.
  destruct (chain_verified_without_evidence
              Demo.database_ids Demo.search_database
              "FEAT-AUTH-001" "FR-AUTH-001" "V-AUTH-001"
              (_parse_entry Demo.feat_auth "FEAT")
              (_parse_entry Demo.fr_auth "FR")
              (_parse_entry Demo.v_auth "V")
              0%nat 1%nat 2%nat 3%nat)
    as (res & Hrun & Herr & Hvalid & Hcase);
    try (vm_compute; reflexivity).
  exists res. split; [exact Hrun|].
  destruct Hcase as (_ & _ & Hinv); try (vm_compute; reflexivity).
  split; [|exact Hinv].
  rewrite Herr. vm_compute. reflexivity.
Defined.

Section CompleteChain.
Context {W : Type}.
Variable database_ids : gmap string string.
Variable search_database : string -> option filter -> M W (list page).

Local Abbreviation check_v :=
  (check_verification database_ids search_database).
Local Abbreviation check_req :=
  (check_requirement database_ids search_database).

Lemma verifications_complete_pass vs errs w :
  Forall (verification_complete database_ids search_database) vs ->
  exists w', for_each vs check_v errs w = (w', Return errs).
Proof.
  intros H. revert w. induction H as [|v_id vs Hv _ IH]; intros w.
  - exists w. reflexivity.
  - destruct Hv as (v & Hres & HTC & HEA). destruct (Hres w) as [w1 Hw1].
    cbn [for_each]. rewrite bind_run.
    rewrite (check_verification_resolved _ _ _ _ _ _ _ Hw1), HTC.
    destruct (is_verified v).
    + rewrite (HEA eq_refl). cbn [andb app]. rewrite app_nil_r. apply IH.
    + cbn [andb app]. rewrite app_nil_r. apply IH.
Qed.

Lemma requirements_complete_pass reqs errs w :
  Forall (requirement_complete database_ids search_database) reqs ->
  exists w', for_each reqs check_req errs w = (w', Return errs).
Proof.
  intros H. revert w. induction H as [|req_id reqs Hr _ IH]; intros w.
  - exists w. reflexivity.
  - destruct Hr as (req & Hres & HV & Hvs). destruct (Hres w) as [w1 Hw1].
    cbn [for_each]. rewrite bind_run.
    rewrite (check_requirement_resolved _ _ _ _ _ _ _ Hw1 HV).
    destruct (verifications_complete_pass _ errs w1 Hvs) as [w2 ->].
    apply IH.
Qed.

End CompleteChain.

(** A feature with business, user and requirement links and a chain
    without gaps below them, but no call-flow link: the result has no
    error, the one warning [MISSING_CF], and is valid.  A chain without
    gaps has no verification marked Verified. *)
Theorem chain_missing_call_flow_only {W : Type}
    (database_ids : gmap string string)
    (search_database : string -> option filter -> M W (list page))
    (feat_id : string) (feat : RegistryEntry) (w0 w1 : W) :
  get_entry database_ids search_database feat_id w0
    = (w1, Return (Some feat)) ->
  missing (related_ids feat) "BR" = false ->
  missing (related_ids feat) "UR" = false ->
  requirement_links feat <> [] ->
  missing (related_ids feat) "CF" = true ->
  Forall (requirement_complete database_ids search_database)
    (requirement_links feat) ->
  exists w',
    validate_traceability_chain database_ids search_database feat_id w0
    = (w', Return {| Chain.valid := true;
                     Chain.errors := [];
                     Chain.warnings :=
                       ["MISSING_CF: " +:+ feat_id +:+ " has no Call Flow"] |}).
Proof.
  intros Hfeat HBR HUR Hlinks HCF Hall.
  rewrite (chain_resolved _ _ _ _ _ _ Hfeat), bind_run.
  assert (Hfe : feature_errors feat_id feat = []).
  { unfold feature_errors. rewrite HBR, HUR.
    destruct (requirement_links feat); [congruence|reflexivity]. }
  rewrite Hfe.
  destruct (requirements_complete_pass _ _ _ [] w1 Hall) as [w' ->].
  exists w'. unfold feature_warnings. rewrite HCF. reflexivity.
Qed.

Lemma chain_missing_call_flow_only_witness :
  exists w',
    validate_traceability_chain Demo.database_ids Demo.search_database
      "FEAT-PAY-001" 0%nat
    = (w', Return {| Chain.valid := true;
                     Chain.errors := [];
                     Chain.warnings :=
                       ["MISSING_CF: FEAT-PAY-001 has no Call Flow"] |}).
Proof.
  apply (chain_missing_call_flow_only
           Demo.database_ids Demo.search_database
           "FEAT-PAY-001" (_parse_entry Demo.feat_pay "FEAT") 0%nat 1%nat);
    try (vm_compute; reflexivity).
  - vm_compute. discriminate.
  - change (requirement_links (_parse_entry Demo.feat_pay "FEAT"))
      with ["FR-PAY-001"].
    constructor; [|constructor].
    exists (_parse_entry Demo.fr_pay "FR").
    split; [intros w; exists (S w); reflexivity|].
    split; [vm_compute; reflexivity|].
    change (get_list (related_ids (_parse_entry Demo.fr_pay "FR")) "V")
      with ["V-PAY-001"].
    constructor; [|constructor].
    exists (_parse_entry Demo.v_pay "V").
    split; [intros w; exists (S w); reflexivity|].
    split; [vm_compute; reflexivity|].
    vm_compute. discriminate.
Defined.

(** C7. A feature that is complete but for a call flow is rejected when a
    verification of its chain is marked Verified.  The page of the
    verification [V-DONE-001] links a test case and an evidence artifact,
    yet the entry parsed from it has no evidence link, the relations read
    for a verification being those to test cases and requirements; the
    chain validation of [FEAT-DONE-001] returns the error [MISSING_EA]
    beside the warning [MISSING_CF], and the result is not valid. *)
Theorem chain_verified_with_evidence_rejected :
  properties Samples.v_done !! "EA-IDs" = Some (PRelation ["EA-DONE-001"]) /\
  status (_parse_entry Samples.v_done "V") = "Verified" /\
  missing (related_ids (_parse_entry Samples.v_done "V")) "TC" = false /\
  missing (related_ids (_parse_entry Samples.v_done "V")) "EA" = true /\
  validate_traceability_chain Demo.database_ids Samples.search_database
    "FEAT-DONE-001" 0%nat
  = (3%nat,
     Return
       {| Chain.valid := false;
          Chain.errors :=
            ["MISSING_EA: V-DONE-001 is Verified but has no Evidence Artifact"];
          Chain.warnings := ["MISSING_CF: FEAT-DONE-001 has no Call Flow"] |}).
Proof. repeat split; vm_compute; reflexivity. Qed.

(** C2, as the code has it.  For a requirement link at any position: when
    the entry resolves to nothing, an [INVALID_ID] error is recorded for
    that id and the validation goes on with the links that follow; when
    resolving it raises, the exception leaves
    [validate_traceability_chain].  [get_entry] raises [NotionError] for an
    id whose type has no configured collection. *)
Theorem chain_requirement_resolution {W : Type}
    (database_ids : gmap string string)
    (search_database : string -> option filter -> M W (list page)) :
  (forall feat_id feat visited req_id rest errs (w0 w1 w2 w3 : W),
     get_entry database_ids search_database feat_id w0
       = (w1, Return (Some feat)) ->
     requirement_links feat = visited ++ req_id :: rest ->
     for_each visited (check_requirement database_ids search_database)
       (feature_errors feat_id feat) w1 = (w2, Return errs) ->
     (get_entry database_ids search_database req_id w2 = (w3, Return None) ->
      validate_traceability_chain database_ids search_database feat_id w0
      = bind
          (for_each rest (check_requirement database_ids search_database)
             (errs ++ ["INVALID_ID: " +:+ req_id +:+ " not found"]))
          (fun errors =>
             ret {| Chain.valid := (length errors =? 0)%nat;
                    Chain.errors := errors;
                    Chain.warnings := feature_warnings feat_id feat |}) w3) /\
     (forall e,
        get_entry database_ids search_database req_id w2 = (w3, Raise e) ->
        validate_traceability_chain database_ids search_database feat_id w0
        = (w3, Raise e))) /\
  (forall id_str id_type (w : W),
     _extract_id_type id_str = Some id_type ->
     id_type <> "" ->
     database_ids !! id_type = None ->
     get_entry database_ids search_database id_str w
     = (w, Raise (NotionError
                    ("Unknown ID type: " +:+ id_type
                     +:+ String "010" "Please add " +:+ id_type
                     +:+ " database ID to configuration.")))).
Proof.
  split.
  - intros feat_id feat visited req_id rest errs w0 w1 w2 w3 Hfeat Hlinks Hvis.
    rewrite (chain_resolved _ _ _ _ _ _ Hfeat), Hlinks.
    rewrite bind_run, for_each_app, bind_run, Hvis.
    cbn [for_each]. rewrite bind_run. split.
    + intros Hnone. rewrite (check_requirement_absent _ _ _ _ _ _ Hnone).
      rewrite bind_run. reflexivity.
    + intros e He. rewrite (check_requirement_raises _ _ _ _ _ _ _ He).
      reflexivity.
  - intros id_str id_type w Hty Hne Hdb. unfold get_entry.
    rewrite Hty, Hdb. destruct id_type; [congruence|reflexivity].
Qed.

Lemma chain_requirement_resolution_witness :
  validate_traceability_chain Demo.database_ids Demo.search_database
    "FEAT-GAP-001" 0%nat
  = (4%nat,
     Return {| Chain.valid := false;
               Chain.errors := ["INVALID_ID: FR-GONE-001 not found"];
               Chain.warnings := [] |}).
Proof.
  destruct (chain_requirement_resolution
              Demo.database_ids Demo.search_database) as [Hlink _].
  assert (Hfeat :
    get_entry Demo.database_ids Demo.search_database "FEAT-GAP-001" 0%nat
    = (1%nat, Return (Some (_parse_entry Demo.feat_gap "FEAT"))))
    by (vm_compute; reflexivity).
  assert (Hlinks :
    requirement_links (_parse_entry Demo.feat_gap "FEAT")
    = [] ++ "FR-GONE-001" :: ["FR-PAY-001"])
    by (vm_compute; reflexivity).
  assert (Hvisited :
    for_each [] (check_requirement Demo.database_ids Demo.search_database)
      (feature_errors "FEAT-GAP-001" (_parse_entry Demo.feat_gap "FEAT"))
      1%nat
    = (1%nat, Return []))
    by (vm_compute; reflexivity).
  destruct (Hlink _ _ _ _ _ _ _ _ _ 2%nat Hfeat Hlinks Hvisited)
    as [Hnone _].
  rewrite Hnone by (vm_compute; reflexivity).
  vm_compute. reflexivity.
Defined.

(** A feature whose requirement relation holds a page id: resolving the
    link raises and the exception leaves [validate_traceability_chain]. *)
Lemma chain_link_exception_escapes :
  validate_traceability_chain Demo.database_ids Demo.search_database
    "FEAT-SHIP-001" 0%nat
  = (1%nat,
     Raise (NotionError
              ("Unknown ID type: 59833787" +:+ String "010"
                 "Please add 59833787 database ID to configuration."))).
Proof. vm_compute. reflexivity. Qed.

(** ** Consistency validation *)

Lemma foldl_snoc_map {A B} (g : A -> B) (l : list A) (acc : list B) :
  foldl (fun acc x => acc ++ [g x]) acc l = acc ++ map g l.
Proof.
  revert acc. induction l as [|x l IH]; intros acc; simpl.
  - rewrite app_nil_r. reflexivity.
  - rewrite IH, <- app_assoc. reflexivity.
Qed.

Lemma extends_refl {A} (a : list A) : extends a a.
Proof. exists []. rewrite app_nil_r. reflexivity. Qed.

Lemma extends_trans {A} (a b c : list A) :
  extends a b -> extends b c -> extends a c.
Proof.
  intros [k ->] [k' ->]. exists (k ++ k'). rewrite app_assoc. reflexivity.
Qed.

Lemma extends_elem_of {A} (a b : list A) x : extends a b -> x ∈ a -> x ∈ b.
Proof. intros [k ->] Hx. apply elem_of_app. left. exact Hx. Qed.

Lemma extends_snoc {A} (a : list A) x : extends a (a ++ [x]).
Proof. exists [x]. reflexivity. Qed.

Section ConsistencyFacts.
Context {W : Type}.
Variable database_ids : gmap string string.
Variable search_database : string -> option filter -> M W (list page).

Local Abbreviation get := (get_entry database_ids search_database).
Local Abbreviation chain :=
  (validate_traceability_chain database_ids search_database).
Local Abbreviation check_id :=
  (Consistency.check_id database_ids search_database).
Local Abbreviation check_feature :=
  (Consistency.check_feature database_ids search_database).

(** One id: what [check_id] returns in each of the four cases. *)
Lemma check_id_cases id_type errs id_str w :
  if validate_id_format id_str then
    match get id_str w with
    | (w', Return (Some _)) =>
        check_id id_type errs id_str w = (w', Return errs)
    | (w', Return None) =>
        check_id id_type errs id_str w
        = (w', Return (errs ++ [Consistency.id_not_found id_type id_str]))
    | (w', Raise e) =>
        check_id id_type errs id_str w
        = (w', Return (errs ++ [Consistency.id_check_failed id_str e]))
    end
  else
    check_id id_type errs id_str w
    = (w, Return (errs ++ [Consistency.invalid_format id_str])).
Proof.
  unfold Consistency.check_id, try_except, bind.
  destruct (validate_id_format id_str); cbn [negb]; [|reflexivity].
  destruct (get id_str w) as [w' [e|[en|]]]; reflexivity.
Qed.

(** One feature: the chain result folded in, or one entry for a raised
    exception. *)
Lemma check_feature_cases errs warns f w :
  match chain (feat_id f) w with
  | (w', Return res) =>
      check_feature (errs, warns) f w
      = (w', Return
               (errs ++ map (Consistency.chain_error (feat_id f))
                          (Chain.errors res),
                warns ++ map (Consistency.chain_warning (feat_id f))
                           (Chain.warnings res)))
  | (w', Raise e) =>
      check_feature (errs, warns) f w
      = (w', Return (errs ++ [Consistency.chain_failed (feat_id f) e], warns))
  end.
Proof.
  unfold Consistency.check_feature, try_except, bind.
  destruct (chain (feat_id f) w) as [w' [e|res]]; [reflexivity|].
  rewrite !foldl_snoc_map. reflexivity.
Qed.

End ConsistencyFacts.

(** ** Coverage *)

Lemma symbol_map_dom (syms : list CodeSymbol) :
  dom (Coverage.symbol_map syms)
  = (list_to_set (map qualified_path syms) : gset string).
Proof.
  unfold Coverage.symbol_map.
  assert (H : forall (d : gmap string CodeSymbol),
             dom (foldl (fun d s => <[qualified_path s := s]> d) d syms)
             = dom d ∪ list_to_set (map qualified_path syms)).
  { induction syms as [|s syms IH]; intros d; simpl.
    - set_solver.
    - rewrite IH, dom_insert_L. set_solver. }
  rewrite H, dom_empty_L. set_solver.
Qed.

Lemma check_mapping_mapped (smap : gmap string CodeSymbol)
    (l : list SymbolMapping) st :
  (foldl (Coverage.check_mapping smap) st l).2
  = st.2 ∪ (list_to_set (map map_path l) ∩ dom smap).
Proof.
  revert st. induction l as [|mp l IH]; intros [[errs inv] mapped]; simpl.
  - set_solver.
  - rewrite IH. destruct (smap !! map_path mp) as [s|] eqn:Hs; simpl.
    + apply (elem_of_dom_2 smap) in Hs. set_solver.
    + apply (not_elem_of_dom smap) in Hs. set_solver.
Qed.

(** ** Rounding *)

Lemma pow2_pos (e : Z) : (0 < Float.pow2 e)%Q.
Proof.
  unfold Float.pow2. destruct (0 <=? e)%Z eqn:He.
  - apply Z.leb_le in He. unfold Qlt. cbn. pose proof (Z.pow_pos_nonneg 2 e).
    lia.
  - reflexivity.
Qed.

Lemma rne_nonneg (x : Q) : (0 <= x)%Q -> (0 <= Float.rne x)%Z.
Proof.
  intros Hx. unfold Float.rne.
  assert (Hf : (0 <= Qfloor x)%Z).
  { change 0%Z with (Qfloor 0). apply Qfloor_resp_le, Hx. }
  destruct (_ ?= _)%Q; [destruct (Z.even _)| |]; lia.
Qed.

Lemma rne_le (x : Q) (n : Z) : (x <= inject_Z n)%Q -> (Float.rne x <= n)%Z.
Proof.
  intros Hx. unfold Float.rne.
  assert (Hf : (Qfloor x <= n)%Z).
  { rewrite <- (Qfloor_Z n). apply Qfloor_resp_le, Hx. }
  destruct (Z.eq_dec (Qfloor x) n) as [Heq|Hne].
  - assert (Hxn : (x == inject_Z n)%Q).
    { apply Qle_antisym; [exact Hx|]. rewrite <- Heq. apply Qfloor_le. }
    assert (Hr : (x - inject_Z (Qfloor x) ?= 1 # 2)%Q = Lt).
    { apply (proj1 (Qlt_alt _ _)). rewrite Heq. lra. }
    rewrite Hr. lia.
  - destruct (_ ?= _)%Q; [destruct (Z.even _)| |]; lia.
Qed.

Lemma rnd_pos_nonneg (x : Q) : (0 <= x)%Q -> (0 <= Float.rnd_pos x)%Q.
Proof.
  intros Hx. unfold Float.rnd_pos. rewrite Qred_correct.
  apply Qmult_le_0_compat.
  - change 0%Q with (inject_Z 0). rewrite <- Zle_Qle. apply rne_nonneg.
    apply Qle_shift_div_l; [apply pow2_pos|]. rewrite Qmult_0_l. exact Hx.
  - apply Qlt_le_weak, pow2_pos.
Qed.

Lemma rnd_nonneg (x : Q) : (0 <= x)%Q -> (0 <= Float.rnd x)%Q.
Proof.
  intros Hx. unfold Float.rnd. destruct x as [[|n|n] d]; cbn [Qnum].
  - apply Qle_refl.
  - apply rnd_pos_nonneg, Hx.
  - exfalso. unfold Qle in Hx. cbn in Hx. lia.
Qed.

Lemma pow2_neg (e : Z) :
  (e <= 0)%Z -> (Float.pow2 e == 1 / inject_Z (2 ^ (- e)))%Q.
Proof.
  intros He. unfold Float.pow2. destruct (0 <=? e)%Z eqn:H0.
  - apply Z.leb_le in H0. assert (e = 0%Z) as -> by lia. reflexivity.
  - assert (Hp : (0 < 2 ^ (- e))%Z) by (apply Z.pow_pos_nonneg; lia).
    unfold Qeq, Qdiv, Qinv, inject_Z. cbn.
    destruct (2 ^ (- e))%Z eqn:Hpow; try lia. cbn. lia.
Qed.

Lemma ilog2_le (x : Q) (k : Z) :
  (0 < x)%Q -> (x <= inject_Z (2 ^ k))%Q -> (0 <= k)%Z ->
  (Float.ilog2 x <= k)%Z.
Proof.
  intros Hpos Hle Hk. unfold Float.ilog2.
  assert (Hlog : (Z.log2 (Qnum x) - Z.log2 (Z.pos (Qden x)) <= k)%Z).
  { destruct x as [n d]. cbn [Qnum Qden] in *.
    unfold Qle, Qlt in *. cbn in Hle, Hpos.
    assert (Hn : (n <= 2 ^ k * Z.pos d)%Z) by lia.
    apply Z.log2_le_mono in Hn.
    rewrite Z.mul_comm, Z.log2_mul_pow2 in Hn by lia. lia. }
  destruct (Qle_bool _ _); lia.
Qed.

Lemma rnd_le_int (x : Q) (n k : Z) :
  (0 <= x)%Q -> (x <= inject_Z n)%Q -> (n <= 2 ^ k)%Z -> (0 <= k <= 52)%Z ->
  (Float.rnd x <= inject_Z n)%Q.
Proof.
  intros H0 Hn Hk Hk52. unfold Float.rnd.
  destruct (Qnum x) eqn:Hnum.
  - eapply Qle_trans; [|exact Hn]. destruct x as [nx d]. cbn in Hnum.
    subst nx. unfold Qle. cbn. lia.
  - assert (Hpos : (0 < x)%Q).
    { destruct x as [nx d]. cbn in Hnum. subst nx. reflexivity. }
    unfold Float.rnd_pos. rewrite Qred_correct.
    assert (He : (Float.ulp_exp x <= 0)%Z).
    { unfold Float.ulp_exp, Float.emin.
      assert (Float.ilog2 x <= k)%Z; [|lia].
      apply ilog2_le; [exact Hpos| |lia].
      eapply Qle_trans; [exact Hn|]. rewrite <- Zle_Qle. exact Hk. }
    set (e := Float.ulp_exp x) in *.
    assert (Hp : (0 < 2 ^ (- e))%Z) by (apply Z.pow_pos_nonneg; lia).
    assert (Hp2 := pow2_neg e He).
    assert (Hq : (0 < inject_Z (2 ^ (- e)))%Q).
    { change 0%Q with (inject_Z 0). rewrite <- Zlt_Qlt. exact Hp. }
    assert (Hne : ~ (inject_Z (2 ^ (- e)) == 0)%Q) by lra.
    assert (Hdiv : (x / Float.pow2 e == x * inject_Z (2 ^ (- e)))%Q).
    { setoid_rewrite Hp2. field. exact Hne. }
    assert (Hr : (Float.rne (x / Float.pow2 e) <= n * 2 ^ (- e))%Z).
    { apply rne_le. setoid_rewrite Hdiv. rewrite inject_Z_mult.
      apply Qmult_le_compat_r; [exact Hn|apply Qlt_le_weak, Hq]. }
    rewrite Zle_Qle, inject_Z_mult in Hr.
    set (r := Float.rne (x / Float.pow2 e)) in *.
    assert (Hgoal : (inject_Z r * Float.pow2 e
                     == inject_Z r / inject_Z (2 ^ (- e)))%Q).
    { rewrite Hp2. field. exact Hne. }
    rewrite Hgoal.
    apply Qle_shift_div_r; [exact Hq|exact Hr].
  - exfalso. destruct x as [nx d]. cbn in Hnum. subst nx.
    unfold Qle in H0. cbn in H0. lia.
Qed.

Lemma percentage_returns (mapped total : nat) :
  (0 < total)%nat ->
  Coverage.percentage mapped total
  = Return
      (Float.mul
         (Float.rnd (inject_Z (Z.of_nat mapped) / inject_Z (Z.of_nat total)))
         100).
Proof.
  intros Ht. unfold Coverage.percentage, Float.int_truediv.
  destruct (Z.of_nat total =? 0)%Z eqn:H0; [|reflexivity].
  apply Z.eqb_eq in H0. lia.
Qed.

Lemma quotient_bounds (mapped total : nat) :
  (0 < total)%nat -> (mapped <= total)%nat ->
  (0 <= inject_Z (Z.of_nat mapped) / inject_Z (Z.of_nat total) <= 1)%Q.
Proof.
  intros Ht Hm.
  assert (H0 : (0 < inject_Z (Z.of_nat total))%Q).
  { change 0%Q with (inject_Z 0). rewrite <- Zlt_Qlt. lia. }
  split.
  - apply Qle_shift_div_l; [exact H0|]. rewrite Qmult_0_l.
    change 0%Q with (inject_Z 0). rewrite <- Zle_Qle. lia.
  - apply Qle_shift_div_r; [exact H0|]. rewrite Qmult_1_l.
    rewrite <- Zle_Qle. lia.
Qed.

Lemma percentage_le_hundred (mapped total : nat) :
  (0 < total)%nat -> (mapped <= total)%nat ->
  (Float.mul
     (Float.rnd (inject_Z (Z.of_nat mapped) / inject_Z (Z.of_nat total)))
     100 <= 100)%Q.
Proof.
  intros Ht Hm. destruct (quotient_bounds mapped total Ht Hm) as [H0 H1].
  set (q := (inject_Z (Z.of_nat mapped) / inject_Z (Z.of_nat total))%Q) in *.
  assert (Hq1 : (Float.rnd q <= 1)%Q).
  { apply (rnd_le_int q 1 0); [exact H0|exact H1|now vm_compute|lia]. }
  assert (Hq0 : (0 <= Float.rnd q)%Q) by (apply rnd_nonneg, H0).
  unfold Float.mul.
  apply (rnd_le_int _ 100 7); [| |now vm_compute|lia].
  - apply Qmult_le_0_compat; [exact Hq0|discriminate].
  - change (inject_Z 100) with (1 * 100)%Q.
    apply Qmult_le_compat_r; [exact Hq1|discriminate].
Qed.

(** ** The result of the coverage validator *)

(** [validate] raises nothing: the guard keeps the division away from a
    zero divisor. *)
Lemma validate_unfold (m : Manifest) (syms : list CodeSymbol) :
  let st1 :=
    foldl (Coverage.check_mapping (Coverage.symbol_map syms)) ([], [], ∅)
      (symbols m) in
  let st2 :=
    foldl (Coverage.check_symbol m (get_symbol_paths m)) (st1.1.1, []) syms in
  let total := length (List.filter Coverage._should_check_symbol syms) in
  let mapped := size st1.2 in
  Coverage.validate m syms
  = Return
      {| Coverage.total_symbols := total;
         Coverage.mapped_symbols := mapped;
         Coverage.orphan_symbols := st2.2;
         Coverage.invalid_mappings := st1.1.2;
         Coverage.coverage_percentage :=
           if (total =? 0)%nat then 0%Q
           else Float.mul
                  (Float.rnd
                     (inject_Z (Z.of_nat mapped) / inject_Z (Z.of_nat total)))
                  100;
         Coverage.errors := st2.1 |}.
Proof.
  cbv zeta. unfold Coverage.validate.
  destruct (foldl (Coverage.check_mapping _) _ (symbols m))
    as [[errs inv] mapped].
  cbn [fst snd].
  destruct (foldl (Coverage.check_symbol m _) _ syms) as [errs' orph].
  cbn [fst snd].
  destruct (length (List.filter Coverage._should_check_symbol syms))
    as [|n] eqn:Hn.
  - reflexivity.
  - change (0 <? S n)%nat with true. cbv iota.
    rewrite percentage_returns by lia. reflexivity.
Qed.

Lemma validate_returns (m : Manifest) (syms : list CodeSymbol) :
  exists r, Coverage.validate m syms = Return r.
Proof. eexists. apply validate_unfold. Qed.

(** The two counts of [validate]. *)
Lemma coverage_counts (m : Manifest) (syms : list CodeSymbol)
    (r : Coverage.CoverageResult) :
  Coverage.validate m syms = Return r ->
  Coverage.mapped_symbols r
  = size (get_symbol_paths m ∩ list_to_set (map qualified_path syms)) /\
  Coverage.total_symbols r
  = length (List.filter Coverage._should_check_symbol syms).
Proof.
  rewrite validate_unfold. intros [= <-].
  pose proof (check_mapping_mapped (Coverage.symbol_map syms) (symbols m)
                ([], [], ∅)) as Hmapped.
  cbn [Coverage.mapped_symbols Coverage.total_symbols].
  split; [|reflexivity].
  simpl in Hmapped. rewrite Hmapped, symbol_map_dom.
  unfold get_symbol_paths. f_equal. set_solver.
Qed.

Lemma coverage_percentage_eq (m : Manifest) (syms : list CodeSymbol)
    (r : Coverage.CoverageResult) :
  Coverage.validate m syms = Return r ->
  Coverage.coverage_percentage r
  = if (Coverage.total_symbols r =? 0)%nat
    then 0%Q
    else Float.mul
           (Float.rnd
              (inject_Z (Z.of_nat (Coverage.mapped_symbols r))
               / inject_Z (Z.of_nat (Coverage.total_symbols r))))
           100.
Proof. rewrite validate_unfold. intros [= <-]. reflexivity. Qed.

(** C4. [validate] returns for every manifest and every list of symbols:
    the division is never reached with a zero divisor.  The percentage
    returned is the float that Python computes for [mapped / total * 100],
    [mapped] being the number of distinct manifest paths that are the
    qualified path of a parsed symbol and [total] the number of checkable
    parsed symbols: the quotient of the two integers rounded to a float,
    times 100, rounded again; it is exactly 0 when no symbol is checkable.
    The number of mapped symbols depends on the set of manifest paths only;
    in particular a manifest that lists some of the paths once more has the
    same number of mapped symbols. *)
Theorem coverage_percentage_spec (m : Manifest) (syms : list CodeSymbol) :
  let mapped :=
    size (get_symbol_paths m ∩ list_to_set (map qualified_path syms)) in
  let total := length (List.filter Coverage._should_check_symbol syms) in
  exists r,
    Coverage.validate m syms = Return r /\
    Coverage.mapped_symbols r = mapped /\
    Coverage.total_symbols r = total /\
    Coverage.coverage_percentage r
    = (if (total =? 0)%nat then 0%Q
       else Float.mul
              (Float.rnd
                 (inject_Z (Z.of_nat mapped) / inject_Z (Z.of_nat total)))
              100) /\
    (total = 0%nat -> Coverage.coverage_percentage r = 0%Q) /\
    (forall m',
       get_symbol_paths m' = get_symbol_paths m ->
       exists r',
         Coverage.validate m' syms = Return r' /\
         Coverage.mapped_symbols r' = Coverage.mapped_symbols r) /\
    (forall m' again,
       symbols m' = again ++ symbols m ->
       (forall mp, mp ∈ again -> map_path mp ∈ get_symbol_paths m) ->
       exists r',
         Coverage.validate m' syms = Return r' /\
         Coverage.mapped_symbols r' = Coverage.mapped_symbols r).
Proof.
  cbv zeta. destruct (validate_returns m syms) as [r Hr]. exists r.
  destruct (coverage_counts m syms r Hr) as [Hm Ht].
  pose proof (coverage_percentage_eq m syms r Hr) as Hp.
  rewrite Hm, Ht in Hp.
  assert (Hset : forall m',
             get_symbol_paths m' = get_symbol_paths m ->
             exists r',
               Coverage.validate m' syms = Return r' /\
               Coverage.mapped_symbols r' = Coverage.mapped_symbols r).
  { intros m' Hsame. destruct (validate_returns m' syms) as [r' Hr'].
    exists r'. split; [exact Hr'|].
    destruct (coverage_counts m' syms r' Hr') as [Hm' _].
    rewrite Hm', Hm, Hsame. reflexivity. }
  split; [exact Hr|]. split; [exact Hm|]. split; [exact Ht|].
  split; [exact Hp|]. split; [|split; [exact Hset|]].
  - intros H0. rewrite Hp, H0. reflexivity.
  - intros m' again Hsyms Hagain. apply Hset.
    unfold get_symbol_paths in *. rewrite Hsyms, map_app, list_to_set_app_L.
    assert (Hsub : (list_to_set (map map_path again) : gset string)
                   ⊆ list_to_set (map map_path (symbols m))).
    { intros p Hp'. apply elem_of_list_to_set, list_elem_of_fmap in Hp'
        as (mp & -> & Hmp). exact (Hagain mp Hmp). }
    set_solver.
Qed.

(** The floats that [validate] returns where the exact quotient is no
    float: one symbol mapped out of three gives 33.33333333333333, which is
    less than a third of a hundred. *)
Example coverage_percentage_rounds :
  Coverage.percentage 1 3 = Return (2345624805922133 # 70368744177664) /\
  Coverage.percentage 57 100 = Return (8022036836253695 # 140737488355328) /\
  (2345624805922133 # 70368744177664 < 100 / 3)%Q /\
  (8022036836253695 # 140737488355328 < 57)%Q /\
  Coverage.percentage 1 0 = Raise (ZeroDivisionError "division by zero").
Proof. vm_compute. repeat split. Qed.

(** C10. The mapped count takes in every manifest path that is the
    qualified path of some parsed symbol, checkable or not, while the total
    counts checkable symbols only; with a class and a test function both
    mapped, two symbols are mapped out of one and the percentage is 200. *)
Theorem coverage_above_hundred :
  (forall m syms,
     exists r,
       Coverage.validate m syms = Return r /\
       Coverage.mapped_symbols r
       = size (get_symbol_paths m ∩ list_to_set (map qualified_path syms)) /\
       Coverage.total_symbols r
       = length (List.filter Coverage._should_check_symbol syms)) /\
  (exists r,
     Coverage.validate Demo.manifest_full Demo.parsed_full = Return r /\
     Coverage.mapped_symbols r = 2%nat /\
     Coverage.total_symbols r = 1%nat /\
     Coverage.coverage_percentage r = 200%Q) /\
  exists m syms r,
    Coverage.validate m syms = Return r /\
    (100 < Coverage.coverage_percentage r)%Q.
Proof.
  split; [|split].
  - intros m syms. destruct (validate_returns m syms) as [r Hr]. exists r.
    split; [exact Hr|]. exact (coverage_counts m syms r Hr).
  - eexists. split; [vm_compute; reflexivity|]. repeat split.
  - exists Demo.manifest_full, Demo.parsed_full. eexists.
    split; [vm_compute; reflexivity|]. reflexivity.
Qed.

(** ** Orphan detection *)

Lemma coverage_checkable_orphan_checkable (s : CodeSymbol) :
  Coverage._should_check_symbol s = true ->
  Orphans._should_check_symbol s = true.
Proof.
  unfold Coverage._should_check_symbol, Orphans._should_check_symbol.
  destruct (Py.startswith (name s) "_"); [discriminate|].
  destruct (existsb _ _); [discriminate|].
  destruct (Py.startswith (name s) "test_"); [discriminate|].
  reflexivity.
Qed.

Lemma path_match_returns path pat :
  Glob.nonempty_pattern pat = true ->
  exists b, Glob.path_match path pat = Return b.
Proof.
  unfold Glob.nonempty_pattern, Glob.path_match.
  destruct (Glob.parse_parts pat) as [root pat_parts].
  destruct (Glob.parse_parts path) as [path_root parts].
  destruct pat_parts as [|p ps]; [discriminate|]. intros _. cbn [snd].
  destruct (negb (String.eqb root "") && negb (String.eqb root path_root));
    [eauto|].
  destruct (negb (String.eqb root "")).
  - destruct (negb _); eauto.
  - destruct (_ <? _)%nat; eauto.
Qed.

Lemma any_path_match_returns path pats :
  Forall (fun p => Glob.nonempty_pattern p = true) pats ->
  exists b, Orphans.any_path_match path pats = Return b.
Proof.
  induction 1 as [|pat pats Hpat _ IH]; simpl; [eauto|].
  destruct (path_match_returns path pat Hpat) as [[|] ->]; eauto.
Qed.

Lemma is_excluded_returns m s :
  Forall (fun p => Glob.nonempty_pattern p = true) (patterns (exclusions m)) ->
  exists b, Orphans._is_excluded m s = Return b.
Proof.
  intros H. unfold Orphans._is_excluded.
  destruct (is_excluded m (qualified_path s)); [eauto|].
  apply any_path_match_returns. exact H.
Qed.

Lemma find_orphan_code_eq m syms oc sg :
  Forall (fun p => Glob.nonempty_pattern p = true) (patterns (exclusions m)) ->
  exists sg',
    Orphans.find_orphan_code m (get_symbol_paths m) syms (oc, sg)
    = Return (oc ++ map Orphans.code_entry
                      (List.filter (Orphans.is_orphan_code m) syms), sg').
Proof.
  intros Hpat. revert oc sg.
  induction syms as [|s syms IH]; intros oc sg; simpl.
  - exists sg. rewrite app_nil_r. reflexivity.
  - unfold Orphans.is_orphan_code at 1.
    destruct (bool_decide (qualified_path s ∈ get_symbol_paths m));
      cbn [negb andb]; [apply IH|].
    destruct (is_excluded_returns m s Hpat) as [[|] ->]; cbn [negb andb].
    + apply IH.
    + destruct (Orphans._should_check_symbol s).
      * destruct (IH (oc ++ [Orphans.code_entry s])
                    (sg ++ [{| Orphans.orphan := qualified_path s;
                               Orphans.sugg_type := "code";
                               Orphans.suggestion :=
                                 Orphans._generate_manifest_snippet s |}]))
          as [sg' ->].
        exists sg'. cbn [map]. rewrite <- app_assoc. reflexivity.
      * apply IH.
Qed.

Lemma find_orphan_manifest_eq gcm syms (paths : gset string) l st :
  (foldl (Orphans.find_orphan_manifest gcm syms paths) st l).1
  = st.1 ++ map Orphans.manifest_entry
              (List.filter
                 (fun mp => negb (bool_decide (map_path mp ∈ paths))) l).
Proof.
  revert st. induction l as [|mp l IH]; intros [om sg]; simpl.
  - rewrite app_nil_r. reflexivity.
  - rewrite IH. destruct (bool_decide (map_path mp ∈ paths)); cbn [negb fst].
    + reflexivity.
    + cbn [map]. rewrite <- app_assoc. reflexivity.
Qed.

(** What the detection does relative to its own filter, for a manifest
    whose exclusion patterns all have at least one part (the others make
    [Path.match] raise).  [detect_orphans] returns; every parsed symbol
    that is checkable, that [OrphanValidator._is_excluded] does not exclude
    and that is no manifest path has its entry in [orphan_code]; every
    mapping whose path is no parsed symbol has its entry in
    [orphan_manifest]; a path that is both a parsed symbol and a mapping is
    the path of no entry of either list. *)
Theorem detect_orphans_symmetric
    (get_close_matches : string -> list string -> list string)
    (m : Manifest) (syms : list CodeSymbol) :
  Forall (fun p => Glob.nonempty_pattern p = true) (patterns (exclusions m)) ->
  exists r,
    Orphans.detect_orphans get_close_matches m syms = Return r /\
    (forall s,
       s ∈ syms ->
       Orphans._should_check_symbol s = true
       \/ Coverage._should_check_symbol s = true ->
       Orphans._is_excluded m s = Return false ->
       qualified_path s ∉ get_symbol_paths m ->
       Orphans.code_entry s ∈ Orphans.orphan_code r) /\
    (forall mp,
       mp ∈ symbols m ->
       map_path mp ∉ map qualified_path syms ->
       Orphans.manifest_entry mp ∈ Orphans.orphan_manifest r) /\
    (forall p,
       p ∈ get_symbol_paths m ->
       p ∈ map qualified_path syms ->
       (p ∉ map Orphans.oc_path (Orphans.orphan_code r)) /\
       (p ∉ map Orphans.om_path (Orphans.orphan_manifest r))).
Proof.
  intros Hpat. unfold Orphans.detect_orphans.
  destruct (find_orphan_code_eq m syms [] [] Hpat) as [sg Hoc].
  rewrite Hoc. cbn [app].
  pose proof (find_orphan_manifest_eq get_close_matches syms
                (list_to_set (map qualified_path syms)) (symbols m) ([], sg))
    as Hom.
  destruct (foldl _ ([], sg) (symbols m)) as [om sg'].
  cbn [fst app] in Hom. subst om.
  eexists. split; [reflexivity|].
  cbn [Orphans.orphan_code Orphans.orphan_manifest].
  split; [|split].
  - intros s Hs Hcheck Hex Hnot.
    apply list_elem_of_fmap_2, list_elem_of_In, filter_In.
    split; [apply list_elem_of_In; exact Hs|].
    unfold Orphans.is_orphan_code. rewrite Hex.
    rewrite bool_decide_eq_false_2 by exact Hnot. cbn [negb andb].
    destruct Hcheck as [H|H]; [exact H|].
    exact (coverage_checkable_orphan_checkable s H).
  - intros mp Hmp Hnot.
    apply list_elem_of_fmap_2, list_elem_of_In, filter_In.
    split; [apply list_elem_of_In; exact Hmp|].
    rewrite bool_decide_eq_false_2; [reflexivity|].
    rewrite elem_of_list_to_set. exact Hnot.
  - intros p Hm Hp. split.
    + intros Hin. apply list_elem_of_fmap in Hin as (e & -> & He).
      apply list_elem_of_fmap in He as (s & -> & Hs).
      apply list_elem_of_In, filter_In in Hs as [_ Hs].
      unfold Orphans.is_orphan_code in Hs.
      cbn [Orphans.code_entry Orphans.oc_path] in Hm.
      rewrite bool_decide_eq_true_2 in Hs by exact Hm. discriminate.
    + intros Hin. apply list_elem_of_fmap in Hin as (e & -> & He).
      apply list_elem_of_fmap in He as (mp & -> & Hmp).
      apply list_elem_of_In, filter_In in Hmp as [_ Hmp].
      cbn [Orphans.manifest_entry Orphans.om_path] in Hp.
      rewrite bool_decide_eq_true_2 in Hmp; [discriminate|].
      rewrite elem_of_list_to_set. exact Hp.
Qed.

Lemma detect_orphans_symmetric_witness :
  exists r,
    Orphans.detect_orphans Demo.no_close_matches
      Demo.manifest_mixed Demo.parsed_mixed = Return r /\
    Orphans.code_entry (Demo.mk_symbol "OrphanClass" "class" "test.py" 3 4)
      ∈ Orphans.orphan_code r /\
    ("test.py::MappedClass" ∉ map Orphans.oc_path (Orphans.orphan_code r)) /\
    ("test.py::MappedClass"
       ∉ map Orphans.om_path (Orphans.orphan_manifest r)).
Proof.
  destruct (detect_orphans_symmetric Demo.no_close_matches
              Demo.manifest_mixed Demo.parsed_mixed)
    as (r & Hrun & Hcode & _ & Hboth).
  { repeat constructor. }
  exists r. split; [exact Hrun|]. split.
  - apply Hcode.
    + apply elem_of_cons. right. apply elem_of_cons. left. reflexivity.
    + left. reflexivity.
    + vm_compute. reflexivity.
    + vm_compute. intros H. discriminate H.
  - apply Hboth.
    + unfold get_symbol_paths. apply elem_of_list_to_set.
      apply elem_of_cons. left. reflexivity.
    + apply elem_of_cons. left. reflexivity.
Defined.

(** With an empty exclusion pattern the detection raises instead of
    returning its lists. *)
Lemma detect_orphans_empty_pattern_raises :
  Orphans.detect_orphans Demo.no_close_matches
    Demo.manifest_empty_pattern Demo.parsed_orphan
  = Raise (ValueError "empty pattern").
Proof. vm_compute. reflexivity. Qed.

(** C5. The orphan detection drops an unmapped class that no exclusion
    covers.  With the one exclusion pattern [test.py] and the unmapped
    class [Helper] of [a/test.py]: the class is checkable for both
    validators, the pattern does not match the path as a glob, so that the
    design document does not exclude the class ([spec_is_excluded]), and
    the coverage validator does not exclude it and reports it; the
    orphan validator excludes it, [Path.match] comparing the pattern with
    the end of the path, and returns an empty [orphan_code].  With the
    empty pattern the detection raises where the coverage validator
    returns and reports the class. *)
Theorem detect_orphans_drops_unexcluded_symbol
    (get_close_matches : string -> list string -> list string) :
  let s := Demo.mk_symbol "Helper" "class" "a/test.py" 1 2 in
  Samples.parsed_helper = [s] /\
  Orphans._should_check_symbol s = true /\
  Coverage._should_check_symbol s = true /\
  (qualified_path s ∉ get_symbol_paths Samples.manifest_test_py) /\
  Glob.spec_glob "a/test.py" "test.py" = false /\
  spec_is_excluded Samples.manifest_test_py s = false /\
  Coverage._is_excluded Samples.manifest_test_py s = false /\
  Coverage.orphan_symbols
    <$> Coverage.validate Samples.manifest_test_py Samples.parsed_helper
  = Return ["a/test.py::Helper"] /\
  Orphans._is_excluded Samples.manifest_test_py s = Return true /\
  Orphans.detect_orphans get_close_matches Samples.manifest_test_py
    Samples.parsed_helper
  = Return {| Orphans.orphan_code := []; Orphans.orphan_manifest := [];
              Orphans.suggestions := [] |} /\
  Orphans.detect_orphans get_close_matches Demo.manifest_empty_pattern
    Demo.parsed_orphan
  = Raise (ValueError "empty pattern") /\
  Coverage.orphan_symbols
    <$> Coverage.validate Demo.manifest_empty_pattern Demo.parsed_orphan
  = Return ["test.py::OrphanClass"].
Proof.
  cbv zeta. repeat split; try (vm_compute; reflexivity).
  vm_compute. intros H. discriminate H.
Qed.

(** ** Exclusion patterns *)

(** The pattern model against the answers of the standard library. *)
Example fnmatch_star_crosses_separator :
  Glob.fnmatch "src/a/b.py" "src/*" = true /\
  Glob.fnmatch "pkg/mod.py" "*.py" = true /\
  Glob.fnmatch "a/test.py" "test.py" = false /\
  Glob.fnmatch "__init__.py" "**/__init__.py" = false /\
  Glob.fnmatch "a/b/__init__.py" "**/__init__.py" = true /\
  Glob.fnmatch "src/a/b/x.py" "src/**/x.py" = true /\
  Glob.fnmatch "" "*" = true.
Proof. vm_compute. repeat split. Qed.

Example path_match_from_the_right :
  Glob.path_match "src/a/b.py" "src/*" = Return false /\
  Glob.path_match "pkg/mod.py" "*.py" = Return true /\
  Glob.path_match "a/test.py" "test.py" = Return true /\
  Glob.path_match "__init__.py" "**/__init__.py" = Return false /\
  Glob.path_match "a/b/__init__.py" "**/__init__.py" = Return true /\
  Glob.path_match "src/a/b/x.py" "src/**/x.py" = Return false /\
  Glob.path_match "/a/b.py" "/*/b.py" = Return true /\
  Glob.path_match "//a/b.py" "/a/b.py" = Return false /\
  Glob.path_match "a/./b.py" "a/b.py" = Return true /\
  Glob.path_match "" "*" = Return false /\
  Glob.path_match "a.py" "." = Raise (ValueError "empty pattern").
Proof. vm_compute. repeat split. Qed.

(** Character classes: a set, its complement, a range, and a bracket
    that is not closed. *)
Example fnmatch_character_classes :
  Glob.fnmatchcase "test.py" "[ct]est.py" = true /\
  Glob.fnmatchcase "best.py" "[ct]est.py" = false /\
  Glob.fnmatchcase "best.py" "[!ct]est.py" = true /\
  Glob.fnmatchcase "test_b.py" "test_[a-c].py" = true /\
  Glob.fnmatchcase "[x" "[x" = true /\
  Glob.path_match "pkg/test_a.py" "**/test_[ab].py" = Return true.
Proof. vm_compute. repeat split. Qed.

(** C3, on the code.  The two exclusion filters answer differently, and
    neither follows the pattern semantics of the design document
    ([spec_is_excluded]): the coverage filter lets [*] run across [/] and
    does not let [**/] stand for no directory at all (the repository's own
    test expects [__init__.py] to be excluded by [**/__init__.py]); the
    orphan filter matches from the right and treats [**] as one
    component. *)
Theorem exclusion_filters_differ :
  let in_src := Demo.mk_symbol "helper" "function" "src/a/b.py" 1 2 in
  let deep := Demo.mk_symbol "helper" "function" "src/a/b/x.py" 1 2 in
  let init := Demo.mk_symbol "InitClass" "class" "__init__.py" 1 2 in
  (spec_is_excluded Demo.manifest_star in_src = false /\
   Coverage._is_excluded Demo.manifest_star in_src = true /\
   Orphans._is_excluded Demo.manifest_star in_src = Return false) /\
  (spec_is_excluded Demo.manifest_double_star deep = true /\
   Coverage._is_excluded Demo.manifest_double_star deep = true /\
   Orphans._is_excluded Demo.manifest_double_star deep = Return false) /\
  (spec_is_excluded Demo.manifest_init_pattern init = true /\
   Coverage._is_excluded Demo.manifest_init_pattern init = false /\
   Orphans._is_excluded Demo.manifest_init_pattern init = Return false) /\
  Coverage.orphan_symbols
    <$> Coverage.validate Demo.manifest_init_pattern Demo.parsed_init
  = Return ["__init__.py::InitClass"; "test.py::RegularClass"].
Proof. vm_compute. repeat split. Qed.

(** ** The cache *)

(** The times to live that [timedelta] takes. *)
Lemma timedelta_range (seconds : Z) :
  (-86399999913600 <= seconds <= 86399999999999)%Z <->
  Cache.timedelta seconds = Return (seconds * 1000000)%Z.
Proof.
  unfold Cache.timedelta. cbv zeta.
  destruct (Z.abs (seconds / 86400) <=? 999999999)%Z eqn:Hd.
  - apply Z.leb_le in Hd. split; [reflexivity|]. intros _.
    revert Hd. Z.div_mod_to_equations. lia.
  - apply Z.leb_gt in Hd. split.
    + intros Hr. exfalso. revert Hd. Z.div_mod_to_equations. lia.
    + destruct (_ && _); discriminate.
Qed.

Lemma timedelta_overflow (seconds : Z) :
  ~ (-86399999913600 <= seconds <= 86399999999999)%Z ->
  exists msg, Cache.timedelta seconds = Raise (OverflowError msg).
Proof.
  intros Hr. unfold Cache.timedelta. cbv zeta.
  destruct (Z.abs (seconds / 86400) <=? 999999999)%Z eqn:Hd.
  - exfalso. apply Hr. apply timedelta_range. unfold Cache.timedelta.
    cbv zeta. rewrite Hd. reflexivity.
  - destruct (_ && _); eauto.
Qed.

Section CacheFacts.
Context {Json World : Type}.
Variable py_None : Json.
Variable json_dump : Json -> string.
Variable json_load : string -> option Json.
Variable fromtimestamp : Q -> outcome Z.
Variable datetime_now : World -> World * Z.
Variable file_time : World -> World * Q.

Local Abbreviation get_cached :=
  (Cache._get_cached py_None json_load fromtimestamp datetime_now).
Local Abbreviation set_cached :=
  (Cache._set_cached json_dump file_time).


Lemma get_cached_fresh cfg key (fs : gmap string Cache.file) w f mtime ttl :
  Cache.cache_enabled cfg = true ->
  fs !! Cache._get_cache_path cfg key = Some f ->
  fromtimestamp (Cache.st_mtime f) = Return mtime ->
  Cache.timedelta (Cache.cache_ttl cfg) = Return ttl ->
  ((datetime_now w).2 - mtime <= ttl)%Z ->
  get_cached cfg key fs w
  = match (if Cache.readable f then json_load (Cache.content f) else None) with
    | Some data => (fs, (datetime_now w).1, Return data)
    | None =>
        (delete (Cache._get_cache_path cfg key) fs, (datetime_now w).1,
         Return py_None)
    end.
Proof.
  intros Hen Hf Hm Httl Hfresh. unfold Cache._get_cached.
  rewrite Hen, Hf, Hm. cbn [negb]. destruct (datetime_now w) as [w' now].
  rewrite Httl. cbn [fst snd] in *.
  apply Z.ltb_ge in Hfresh. rewrite Hfresh. reflexivity.
Qed.

Lemma set_cached_written cfg key data (fs : gmap string Cache.file) w :
  Cache.cache_enabled cfg = true ->
  set_cached cfg key data true fs w
  = (<[Cache._get_cache_path cfg key :=
         {| Cache.content := json_dump data;
            Cache.st_mtime := (file_time w).2;
            Cache.readable := true |}]> fs, (file_time w).1).
Proof.
  intros Hen. unfold Cache._set_cached. rewrite Hen. cbn [negb].
  destruct (file_time w); reflexivity.
Qed.

End CacheFacts.




(** * Further properties of the code *)

(** ** What the coverage validator reports *)

Lemma symbol_map_lookup (syms : list CodeSymbol) (p : string) :
  is_Some (Coverage.symbol_map syms !! p) <-> p ∈ parsed_paths syms.
Proof.
  rewrite <- elem_of_dom, symbol_map_dom. reflexivity.
Qed.

Lemma check_mapping_fold (syms : list CodeSymbol) (l : list SymbolMapping)
    errs inv (mapped : gset string) :
  exists mapped',
    foldl (Coverage.check_mapping (Coverage.symbol_map syms))
      (errs, inv, mapped) l
    = (errs ++ map (fun mp =>
                      Coverage.ORPHAN_MANIFEST
                        ("Manifest entry '" +:+ map_path mp
                         +:+ "' has no matching code")
                        (map_path mp) (map_ids mp))
                 (List.filter (unmatched syms) l),
       inv ++ map map_path (List.filter (unmatched syms) l),
       mapped').
Proof.
  revert errs inv mapped. induction l as [|mp l IH]; intros errs inv mapped.
  - exists mapped. simpl. rewrite !app_nil_r. reflexivity.
  - cbn [foldl Coverage.check_mapping List.filter].
    destruct (Coverage.symbol_map syms !! map_path mp) as [s|] eqn:Hs.
    + assert (Hun : unmatched syms mp = false).
      { unfold unmatched. rewrite bool_decide_eq_true_2; [reflexivity|].
        apply symbol_map_lookup. rewrite Hs. eauto. }
      rewrite Hun. apply IH.
    + assert (Hun : unmatched syms mp = true).
      { unfold unmatched. rewrite bool_decide_eq_false_2; [reflexivity|].
        intros Hin. apply symbol_map_lookup in Hin as [x Hx]. congruence. }
      rewrite Hun. cbn [map].
      destruct (IH (errs ++ [Coverage.ORPHAN_MANIFEST
                               ("Manifest entry '" +:+ map_path mp
                                +:+ "' has no matching code")
                               (map_path mp) (map_ids mp)])
                  (inv ++ [map_path mp]) mapped) as [mapped' ->].
      exists mapped'. rewrite <- !app_assoc. reflexivity.
Qed.

Lemma check_symbol_fold (m : Manifest) (syms : list CodeSymbol) errs orph :
  foldl (Coverage.check_symbol m (get_symbol_paths m)) (errs, orph) syms
  = (errs ++ map (fun s =>
                    Coverage.ORPHAN_CODE
                      ("Code symbol '" +:+ qualified_path s
                       +:+ "' not in manifest")
                      (qualified_path s) (file_path s) (line_start s) (type s))
               (List.filter (coverage_orphan m) syms),
     orph ++ map qualified_path (List.filter (coverage_orphan m) syms)).
Proof.
  revert errs orph. induction syms as [|s syms IH]; intros errs orph.
  - simpl. rewrite !app_nil_r. reflexivity.
  - cbn [foldl Coverage.check_symbol List.filter].
    destruct (coverage_orphan m s) eqn:Hor; unfold coverage_orphan in Hor;
      destruct (Coverage._should_check_symbol s);
      destruct (bool_decide (qualified_path s ∈ get_symbol_paths m));
      destruct (Coverage._is_excluded m s);
      try discriminate Hor; cbn [negb]; try apply IH.
    rewrite IH. cbn [map]. rewrite <- !app_assoc. reflexivity.
Qed.

(** The lists and the errors of [validate], in closed form. *)
Lemma coverage_validate_lists (m : Manifest) (syms : list CodeSymbol)
    (r : Coverage.CoverageResult) :
  Coverage.validate m syms = Return r ->
  Coverage.invalid_mappings r
  = map map_path (List.filter (unmatched syms) (symbols m)) /\
  Coverage.orphan_symbols r
  = map qualified_path (List.filter (coverage_orphan m) syms) /\
  map coverage_error_path (Coverage.errors r)
  = Coverage.invalid_mappings r ++ Coverage.orphan_symbols r /\
  map Coverage.code (Coverage.errors r)
  = repeat "ORPHAN_MANIFEST" (length (Coverage.invalid_mappings r))
    ++ repeat "ORPHAN_CODE" (length (Coverage.orphan_symbols r)).
Proof.
  rewrite validate_unfold. intros [= <-].
  destruct (check_mapping_fold syms (symbols m) [] [] ∅) as [mapped ->].
  cbn [fst snd]. rewrite check_symbol_fold. cbn [app fst snd].
  cbn [Coverage.invalid_mappings Coverage.orphan_symbols Coverage.errors].
  split; [reflexivity|]. split; [reflexivity|].
  rewrite !map_app, !map_map. cbn [coverage_error_path Coverage.code].
  split; [reflexivity|]. rewrite !length_map.
  f_equal.
  - induction (List.filter (unmatched syms) (symbols m)); simpl; congruence.
  - induction (List.filter (coverage_orphan m) syms); simpl; congruence.
Qed.

(** X1. The invalid mappings of [validate] are the paths of the manifest
    mappings that are the qualified path of no parsed symbol, in manifest
    order and as often as the manifest lists them. *)
Theorem coverage_invalid_mappings (m : Manifest) (syms : list CodeSymbol) :
  Coverage.invalid_mappings <$> Coverage.validate m syms
  = Return
      (map map_path
         (List.filter
            (fun mp =>
               negb (bool_decide (map_path mp ∈ map qualified_path syms)))
            (symbols m))).
Proof.
  destruct (validate_returns m syms) as [r Hr]. rewrite Hr.
  cbn [fmap outcome_fmap]. f_equal.
  destruct (coverage_validate_lists m syms r Hr) as (-> & _).
  f_equal. apply filter_ext. intros mp. unfold unmatched, parsed_paths.
  f_equal. apply bool_decide_ext. apply elem_of_list_to_set.
Qed.

(** X2. The orphan symbols of [validate] are the qualified paths, in parse
    order, of the symbols that are checkable, absent from the manifest
    paths and not excluded; so no reported path is a manifest path, and a
    symbol that is private, a test, or excluded is never the reason for a
    report. *)
Theorem coverage_orphan_symbols (m : Manifest) (syms : list CodeSymbol) :
  exists r,
    Coverage.validate m syms = Return r /\
    Coverage.orphan_symbols r
    = map qualified_path
        (List.filter
           (fun s =>
              Coverage._should_check_symbol s
              && negb (bool_decide (qualified_path s ∈ get_symbol_paths m))
              && negb (Coverage._is_excluded m s))
           syms) /\
    (forall p,
       p ∈ Coverage.orphan_symbols r ->
       (p ∉ get_symbol_paths m) /\
       exists s, s ∈ syms /\ qualified_path s = p /\
                 Coverage._should_check_symbol s = true /\
                 Coverage._is_excluded m s = false).
Proof.
  destruct (validate_returns m syms) as [r Hr]. exists r.
  split; [exact Hr|].
  destruct (coverage_validate_lists m syms r Hr) as (_ & Ho & _).
  split; [exact Ho|].
  intros p Hp. rewrite Ho in Hp.
  apply list_elem_of_fmap in Hp as (s & -> & Hs).
  apply list_elem_of_In, filter_In in Hs as [Hs Hf].
  unfold coverage_orphan in Hf.
  apply andb_true_iff in Hf as [Hf Hex].
  apply andb_true_iff in Hf as [Hck Hin].
  apply negb_true_iff in Hex. apply negb_true_iff, bool_decide_eq_false in Hin.
  split; [exact Hin|].
  exists s. split; [apply list_elem_of_In; exact Hs|]. auto.
Qed.

(** X3. The errors of [validate] are one [ORPHAN_MANIFEST] per invalid
    mapping followed by one [ORPHAN_CODE] per orphan symbol, each with the
    path of its entry; the result has no error exactly when every mapping
    has code and every checkable symbol is mapped or excluded. *)
Theorem coverage_errors_shape (m : Manifest) (syms : list CodeSymbol) :
  exists r,
    Coverage.validate m syms = Return r /\
    map coverage_error_path (Coverage.errors r)
    = Coverage.invalid_mappings r ++ Coverage.orphan_symbols r /\
    map Coverage.code (Coverage.errors r)
    = repeat "ORPHAN_MANIFEST" (length (Coverage.invalid_mappings r))
      ++ repeat "ORPHAN_CODE" (length (Coverage.orphan_symbols r)) /\
    (Coverage.errors r = [] <->
     (forall mp, mp ∈ symbols m -> map_path mp ∈ map qualified_path syms) /\
     (forall s, s ∈ syms -> Coverage._should_check_symbol s = true ->
                qualified_path s ∈ get_symbol_paths m
                \/ Coverage._is_excluded m s = true)).
Proof.
  destruct (validate_returns m syms) as [r Hr]. exists r.
  split; [exact Hr|].
  destruct (coverage_validate_lists m syms r Hr) as (Hi & Ho & Hp & Hc).
  split; [exact Hp|]. split; [exact Hc|].
  assert (Hnil : Coverage.errors r = [] <->
                 List.filter (unmatched syms) (symbols m) = [] /\
                 List.filter (coverage_orphan m) syms = []).
  { rewrite Hi, Ho in Hp. split.
    - intros He. rewrite He in Hp. symmetry in Hp.
      apply app_eq_nil in Hp as [H1 H2].
      apply map_eq_nil in H1, H2. auto.
    - intros [H1 H2]. rewrite H1, H2 in Hp.
      apply map_eq_nil in Hp. exact Hp. }
  rewrite Hnil. split.
  - intros [H1 H2]. split.
    + intros mp Hmp.
      destruct (bool_decide (map_path mp ∈ parsed_paths syms)) eqn:Hb.
      * apply bool_decide_eq_true in Hb.
        apply elem_of_list_to_set in Hb. exact Hb.
      * assert (Hin : In mp (List.filter (unmatched syms) (symbols m))).
        { apply filter_In. split; [apply list_elem_of_In; exact Hmp|].
          unfold unmatched. rewrite Hb. reflexivity. }
        rewrite H1 in Hin. destruct Hin.
    + intros s Hs Hck.
      destruct (bool_decide (qualified_path s ∈ get_symbol_paths m)) eqn:Hb;
        [left; apply bool_decide_eq_true in Hb; exact Hb|].
      destruct (Coverage._is_excluded m s) eqn:Hex; [right; reflexivity|].
      assert (Hin : In s (List.filter (coverage_orphan m) syms)).
      { apply filter_In. split; [apply list_elem_of_In; exact Hs|].
        unfold coverage_orphan. rewrite Hck, Hb, Hex. reflexivity. }
      rewrite H2 in Hin. destruct Hin.
  - intros [H1 H2]. split.
    + destruct (List.filter (unmatched syms) (symbols m)) as [|mp l] eqn:Hf;
        [reflexivity|].
      assert (Hin : In mp (List.filter (unmatched syms) (symbols m)))
        by (rewrite Hf; left; reflexivity).
      apply filter_In in Hin as [Hmp Hun]. unfold unmatched in Hun.
      apply negb_true_iff, bool_decide_eq_false in Hun.
      exfalso. apply Hun. apply elem_of_list_to_set, H1, list_elem_of_In, Hmp.
    + destruct (List.filter (coverage_orphan m) syms) as [|s l] eqn:Hf;
        [reflexivity|].
      assert (Hin : In s (List.filter (coverage_orphan m) syms))
        by (rewrite Hf; left; reflexivity).
      apply filter_In in Hin as [Hs Hor]. unfold coverage_orphan in Hor.
      apply andb_true_iff in Hor as [Hor Hex].
      apply andb_true_iff in Hor as [Hck Hin].
      apply negb_true_iff in Hex.
      apply negb_true_iff, bool_decide_eq_false in Hin.
      destruct (H2 s (proj2 (list_elem_of_In _ _) Hs) Hck); congruence.
Qed.

Lemma size_list_to_set_le (l : list string) :
  size (list_to_set l : gset string) <= length l.
Proof.
  induction l as [|x l IH].
  - rewrite list_to_set_nil, size_empty. simpl. lia.
  - rewrite list_to_set_cons, size_union_alt, size_singleton. simpl.
    pose proof (subseteq_size (list_to_set l ∖ {[x]} : gset string)
                  (list_to_set l)) as Hsub.
    assert (Hle : size (list_to_set l ∖ {[x]} : gset string)
                  <= size (list_to_set l : gset string))
      by (apply Hsub; set_solver).
    lia.
Qed.

(** X4. The mapped count and the distinct invalid mappings split the
    distinct manifest paths; the mapped count exceeds neither the number of
    mappings nor the number of parsed symbols; and when every parsed symbol
    is checkable the mapped count is at most the total and the percentage
    at most 100. *)
Theorem coverage_counts_bounds (m : Manifest) (syms : list CodeSymbol) :
  exists r,
    Coverage.validate m syms = Return r /\
    Coverage.mapped_symbols r
    + size (list_to_set (Coverage.invalid_mappings r) : gset string)
    = size (get_symbol_paths m) /\
    Coverage.mapped_symbols r <= length (symbols m) /\
    Coverage.mapped_symbols r <= length syms /\
    (Forall (fun s => Coverage._should_check_symbol s = true) syms ->
     Coverage.mapped_symbols r <= Coverage.total_symbols r /\
     (Coverage.coverage_percentage r <= 100)%Q).
Proof.
  destruct (validate_returns m syms) as [r Hr]. exists r.
  split; [exact Hr|].
  destruct (coverage_counts m syms r Hr) as [Hm Ht].
  destruct (coverage_validate_lists m syms r Hr) as (Hi & _).
  assert (Hinv : (list_to_set (Coverage.invalid_mappings
                                 r) : gset string)
                 = get_symbol_paths m ∖ parsed_paths syms).
  { rewrite Hi. unfold get_symbol_paths. apply set_eq. intros p.
    rewrite elem_of_list_to_set, elem_of_difference, elem_of_list_to_set.
    rewrite !list_elem_of_fmap. split.
    - intros (mp & -> & Hmp).
      apply list_elem_of_In, filter_In in Hmp as [Hmp Hun].
      unfold unmatched in Hun.
      apply negb_true_iff, bool_decide_eq_false in Hun.
      split; [|exact Hun]. exists mp. split; [reflexivity|].
      apply list_elem_of_In. exact Hmp.
    - intros [(mp & -> & Hmp) Hun]. exists mp. split; [reflexivity|].
      apply list_elem_of_In, filter_In. split; [apply list_elem_of_In, Hmp|].
      unfold unmatched. rewrite bool_decide_eq_false_2; [reflexivity|exact Hun]. }
  assert (Hsyms : Coverage.mapped_symbols r
                  <= length syms).
  { rewrite Hm. etransitivity; [apply subseteq_size|].
    - apply (intersection_subseteq_r (get_symbol_paths m)).
    - unfold parsed_paths.
      etransitivity; [apply size_list_to_set_le|]. rewrite length_map. lia. }
  split; [|split; [|split; [exact Hsyms|]]].
  - rewrite Hinv, Hm. fold (parsed_paths syms).
    rewrite <- size_union by set_solver. f_equal.
    apply set_eq. intros p.
    rewrite elem_of_union, elem_of_intersection, elem_of_difference.
    destruct (decide (p ∈ parsed_paths syms)); tauto.
  - rewrite Hm. etransitivity; [apply subseteq_size|].
    + apply (intersection_subseteq_l _ (list_to_set (map qualified_path syms))).
    + unfold get_symbol_paths.
      etransitivity; [apply size_list_to_set_le|]. rewrite length_map. lia.
  - intros Hall.
    assert (Htot : Coverage.total_symbols r
                   = length syms).
    { rewrite Ht. clear -Hall. induction Hall as [|s l Hs _ IH]; simpl.
      - reflexivity.
      - rewrite Hs. simpl. rewrite IH. reflexivity. }
    split; [lia|].
    rewrite (coverage_percentage_eq m syms r Hr).
    destruct (Coverage.total_symbols r) as [|n] eqn:Htotal.
    + discriminate.
    + change (S n =? 0)%nat with false. cbv iota.
      apply percentage_le_hundred; lia.
Qed.

Lemma coverage_counts_bounds_witness :
  exists r,
    Coverage.validate Demo.manifest_mixed Demo.parsed_mixed = Return r /\
    Coverage.mapped_symbols r = 1 /\
    Coverage.total_symbols r = 2 /\
    Coverage.mapped_symbols r <= Coverage.total_symbols r /\
    (Coverage.coverage_percentage r <= 100)%Q.
Proof.
  destruct (coverage_counts_bounds Demo.manifest_mixed Demo.parsed_mixed)
    as (r & Hr & _ & _ & _ & Hall).
  exists r. split; [exact Hr|].
  assert (Hsyms : Forall (fun s => Coverage._should_check_symbol s = true)
                    Demo.parsed_mixed) by (repeat constructor).
  pose proof Hr as Hval. vm_compute in Hval. injection Hval as <-.
  split; [reflexivity|]. split; [reflexivity|].
  exact (Hall Hsyms).
Defined.

(** ** What the orphan validator reports *)

Lemma find_orphan_code_returned m syms oc sg oc' sg' :
  Orphans.find_orphan_code m (get_symbol_paths m) syms (oc, sg)
  = Return (oc', sg') ->
  oc' = oc ++ map Orphans.code_entry
                (List.filter (Orphans.is_orphan_code m) syms) /\
  sg' = sg ++ map code_suggestion
                (List.filter (Orphans.is_orphan_code m) syms).
Proof.
  revert oc sg. induction syms as [|s syms IH]; intros oc sg; simpl.
  - intros H. injection H as <- <-. rewrite !app_nil_r. auto.
  - destruct (Orphans.is_orphan_code m s) eqn:Hor;
      unfold Orphans.is_orphan_code in Hor;
      destruct (bool_decide (qualified_path s ∈ get_symbol_paths m));
      destruct (Orphans._is_excluded m s) as [e|[|]];
      destruct (Orphans._should_check_symbol s);
      try discriminate Hor; cbn [negb andb]; try apply IH;
      try discriminate.
    intros H. apply IH in H as [-> ->].
    cbn [map]. rewrite <- !app_assoc. auto.
Qed.

Lemma find_orphan_manifest_fold gcm syms l om sg :
  foldl (Orphans.find_orphan_manifest gcm syms (parsed_paths syms)) (om, sg) l
  = (om ++ map Orphans.manifest_entry (List.filter (unmatched syms) l),
     sg ++ map (manifest_suggestion gcm syms) (List.filter (unmatched syms) l)).
Proof.
  revert om sg. induction l as [|mp l IH]; intros om sg.
  - simpl. rewrite !app_nil_r. reflexivity.
  - cbn [foldl Orphans.find_orphan_manifest List.filter].
    destruct (unmatched syms mp) eqn:Hun; unfold unmatched in Hun;
      destruct (bool_decide (map_path mp ∈ parsed_paths syms));
      try discriminate Hun.
    + rewrite IH. cbn [map]. rewrite <- !app_assoc. f_equal.
      f_equal. f_equal. unfold manifest_suggestion.
      destruct (Orphans._find_similar_symbols gcm syms (map_path mp));
        reflexivity.
    + apply IH.
Qed.

Lemma map_constant {A B} (f : A -> B) (c : B) (l : list A) :
  (forall x, f x = c) -> map f l = repeat c (length l).
Proof.
  intros Hf. induction l as [|x l IH]; simpl; [reflexivity|].
  rewrite Hf, IH. reflexivity.
Qed.

(** The three lists of a returned [detect_orphans], in closed form. *)
Lemma detect_orphans_returned gcm m syms r :
  Orphans.detect_orphans gcm m syms = Return r ->
  Orphans.orphan_code r
  = map Orphans.code_entry (List.filter (Orphans.is_orphan_code m) syms) /\
  Orphans.orphan_manifest r
  = map Orphans.manifest_entry (List.filter (unmatched syms) (symbols m)) /\
  Orphans.suggestions r
  = map code_suggestion (List.filter (Orphans.is_orphan_code m) syms)
    ++ map (manifest_suggestion gcm syms)
         (List.filter (unmatched syms) (symbols m)).
Proof.
  unfold Orphans.detect_orphans. fold (parsed_paths syms).
  destruct (Orphans.find_orphan_code m (get_symbol_paths m) syms ([], []))
    as [e|[oc sg]] eqn:Hoc; [discriminate|].
  apply find_orphan_code_returned in Hoc as [-> ->].
  rewrite find_orphan_manifest_fold. cbn [app].
  intros H. injection H as <-. auto.
Qed.

(** X5. Whenever [detect_orphans] returns, its orphan manifest entries are
    exactly the mappings that the coverage validator lists as invalid
    mappings, in the same order: the two validators agree on the manifest
    side. *)
Theorem orphan_manifest_agrees_with_coverage
    (get_close_matches : string -> list string -> list string)
    (m : Manifest) (syms : list CodeSymbol) (r : Orphans.OrphanResult) :
  Orphans.detect_orphans get_close_matches m syms = Return r ->
  Coverage.invalid_mappings <$> Coverage.validate m syms
  = Return (map Orphans.om_path (Orphans.orphan_manifest r)) /\
  Orphans.orphan_manifest r
  = map Orphans.manifest_entry
      (List.filter
         (fun mp => negb (bool_decide (map_path mp ∈ map qualified_path syms)))
         (symbols m)).
Proof.
  intros Hr. apply detect_orphans_returned in Hr as (_ & Hom & _).
  destruct (validate_returns m syms) as [c Hc]. rewrite Hc.
  cbn [fmap outcome_fmap].
  destruct (coverage_validate_lists m syms c Hc) as (-> & _).
  rewrite Hom, map_map. split; [reflexivity|].
  f_equal. apply filter_ext. intros mp. unfold unmatched, parsed_paths.
  f_equal. apply bool_decide_ext. apply elem_of_list_to_set.
Qed.

Lemma orphan_manifest_agrees_with_coverage_witness :
  exists r,
    Orphans.detect_orphans Demo.no_close_matches
      Demo.manifest_mixed Demo.parsed_mixed = Return r /\
    Coverage.invalid_mappings
      <$> Coverage.validate Demo.manifest_mixed Demo.parsed_mixed
    = Return (map Orphans.om_path (Orphans.orphan_manifest r)) /\
    map Orphans.om_path (Orphans.orphan_manifest r) = ["test.py::MissingClass"].
Proof.
  eexists. split; [vm_compute; reflexivity|].
  split.
  - apply (orphan_manifest_agrees_with_coverage Demo.no_close_matches
             Demo.manifest_mixed Demo.parsed_mixed).
    vm_compute. reflexivity.
  - vm_compute. reflexivity.
Defined.

(** X6. Whenever [detect_orphans] returns, it carries exactly one
    suggestion per orphan: first one of type "code" for each orphan symbol,
    then one of type "manifest" for each orphan mapping, each naming its
    orphan. *)
Theorem orphan_suggestions_one_per_orphan
    (get_close_matches : string -> list string -> list string)
    (m : Manifest) (syms : list CodeSymbol) (r : Orphans.OrphanResult) :
  Orphans.detect_orphans get_close_matches m syms = Return r ->
  map Orphans.orphan (Orphans.suggestions r)
  = map Orphans.oc_path (Orphans.orphan_code r)
    ++ map Orphans.om_path (Orphans.orphan_manifest r) /\
  map Orphans.sugg_type (Orphans.suggestions r)
  = repeat "code" (length (Orphans.orphan_code r))
    ++ repeat "manifest" (length (Orphans.orphan_manifest r)) /\
  length (Orphans.suggestions r)
  = length (Orphans.orphan_code r) + length (Orphans.orphan_manifest r).
Proof.
  intros Hr. apply detect_orphans_returned in Hr as (-> & -> & ->).
  rewrite !map_app, !map_map, !length_map, length_app, !length_map.
  split; [reflexivity|]. split; [|reflexivity].
  f_equal; apply map_constant; reflexivity.
Qed.

Lemma orphan_suggestions_one_per_orphan_witness :
  exists r,
    Orphans.detect_orphans Demo.no_close_matches
      Demo.manifest_mixed Demo.parsed_mixed = Return r /\
    map Orphans.orphan (Orphans.suggestions r)
    = ["test.py::OrphanClass"; "test.py::MissingClass"] /\
    length (Orphans.suggestions r)
    = length (Orphans.orphan_code r) + length (Orphans.orphan_manifest r).
Proof.
  eexists. split; [vm_compute; reflexivity|].
  split; [vm_compute; reflexivity|].
  apply (orphan_suggestions_one_per_orphan Demo.no_close_matches
           Demo.manifest_mixed Demo.parsed_mixed).
  vm_compute. reflexivity.
Defined.

(** X7. With no exclusion pattern in the manifest, [detect_orphans]
    returns and every orphan symbol of the coverage validator is the path
    of one of its orphan code entries. *)
Theorem coverage_orphans_among_orphan_code
    (get_close_matches : string -> list string -> list string)
    (m : Manifest) (syms : list CodeSymbol) :
  patterns (exclusions m) = [] ->
  exists r c,
    Orphans.detect_orphans get_close_matches m syms = Return r /\
    Coverage.validate m syms = Return c /\
    forall p,
      p ∈ Coverage.orphan_symbols c ->
      p ∈ map Orphans.oc_path (Orphans.orphan_code r).
Proof.
  intros Hpat.
  assert (Hok : Forall (fun p => Glob.nonempty_pattern p = true)
                  (patterns (exclusions m)))
    by (rewrite Hpat; constructor).
  destruct (find_orphan_code_eq m syms [] [] Hok) as [sg Hoc].
  destruct (Orphans.detect_orphans get_close_matches m syms) as [e|r] eqn:Hr.
  { unfold Orphans.detect_orphans in Hr. rewrite Hoc in Hr.
    destruct (foldl _ _ (symbols m)). discriminate. }
  destruct (validate_returns m syms) as [c Hc].
  exists r, c. split; [reflexivity|]. split; [exact Hc|].
  apply detect_orphans_returned in Hr as (-> & _).
  destruct (coverage_validate_lists m syms c Hc) as (_ & -> & _).
  intros p Hp. apply list_elem_of_fmap in Hp as (s & -> & Hs).
  apply list_elem_of_In, filter_In in Hs as [Hs Hor].
  unfold coverage_orphan in Hor.
  apply andb_true_iff in Hor as [Hor Hex].
  apply andb_true_iff in Hor as [Hck Hin].
  rewrite map_map. apply list_elem_of_fmap. exists s.
  split; [reflexivity|]. apply list_elem_of_In, filter_In.
  split; [exact Hs|]. unfold Orphans.is_orphan_code. rewrite Hin. cbn [andb].
  unfold Coverage._is_excluded in Hex. unfold Orphans._is_excluded.
  rewrite Hpat in *. cbn [existsb Orphans.any_path_match] in *.
  destruct (is_excluded m (qualified_path s)); [discriminate|].
  apply coverage_checkable_orphan_checkable. exact Hck.
Qed.

Lemma coverage_orphans_among_orphan_code_witness :
  exists r c,
    Orphans.detect_orphans Demo.no_close_matches
      Samples.manifest_plain Demo.parsed_mixed = Return r /\
    Coverage.validate Samples.manifest_plain Demo.parsed_mixed = Return c /\
    Coverage.orphan_symbols c = ["test.py::OrphanClass"] /\
    "test.py::OrphanClass" ∈ map Orphans.oc_path (Orphans.orphan_code r).
Proof.
  destruct (coverage_orphans_among_orphan_code Demo.no_close_matches
              Samples.manifest_plain Demo.parsed_mixed eq_refl)
    as (r & c & Hr & Hc & Hincl).
  exists r, c. split; [exact Hr|]. split; [exact Hc|].
  assert (Ho : Coverage.orphan_symbols c = ["test.py::OrphanClass"]).
  { pose proof Hc as Hval. vm_compute in Hval. injection Hval as <-.
    reflexivity. }
  split; [exact Ho|].
  apply Hincl. rewrite Ho. apply list_elem_of_here.
Defined.

(** ** Parsing of registry entries *)

Lemma first_relation_cons props n names :
  first_relation props (n :: names)
  = match props !! n with
    | Some (PRelation (i :: ids)) => Some (i :: ids)
    | _ => first_relation props names
    end.
Proof.
  simpl. destruct (props !! n) as [[items|items|sel|ns|[|i ids]|]|];
    reflexivity.
Qed.

Lemma first_relation_some props names rel_ids :
  first_relation props names = Some rel_ids <->
  exists before prop_name after,
    names = before ++ prop_name :: after /\
    holds_relation props prop_name rel_ids /\
    forall n l, n ∈ before -> ~ holds_relation props n l.
Proof.
  unfold holds_relation. induction names as [|n names IH].
  - split; [discriminate|].
    intros (before & pn & after & Heq & _). destruct before; discriminate.
  - rewrite first_relation_cons.
    destruct (props !! n) as [[items|items|sel|ns|[|i ids]|]|] eqn:Hn;
      try (rewrite IH; split;
           [intros (b & pn & a & -> & Hh & Hb);
            exists (n :: b), pn, a; split; [reflexivity|];
            split; [exact Hh|];
            intros n' l Hin [Hl Hne];
            apply elem_of_cons in Hin as [->|Hin];
            [rewrite Hn in Hl;
             first [discriminate Hl | injection Hl as <-; congruence]
            |exact (Hb n' l Hin (conj Hl Hne))]
           |intros (b & pn & a & Heq & [Hp Hne] & Hb);
            destruct b as [|n0 b]; simpl in Heq; injection Heq as -> ->;
            [rewrite Hn in Hp;
             first [discriminate Hp | injection Hp as <-; congruence]
            |exists b, pn, a; split; [reflexivity|]; split; [auto|];
             intros n' l Hin; apply Hb; apply elem_of_cons; auto]]).
    split.
    + intros H. injection H as <-. exists [], n, names.
      split; [reflexivity|]. split; [split; [exact Hn|discriminate]|].
      intros n' l Hin. apply elem_of_nil in Hin. destruct Hin.
    + intros (b & pn & a & Heq & [Hp Hne] & Hb).
      destruct b as [|n0 b]; simpl in Heq; injection Heq as -> ->.
      * rewrite Hn in Hp. injection Hp as <-. reflexivity.
      * exfalso. apply (Hb n0 (i :: ids)).
        -- apply elem_of_cons. auto.
        -- split; [exact Hn|discriminate].
Qed.

Lemma extract_related_fold props (types : list string)
    (acc : gmap string (list string)) k :
  foldl
    (fun related rel_type =>
       match first_relation props
               [rel_type +:+ "-IDs"; rel_type +:+ " IDs"; rel_type] with
       | Some rel_ids => <[rel_type := rel_ids]> related
       | None => related
       end)
    acc types !! k
  = match (if bool_decide (k ∈ types)
           then first_relation props (relation_names k) else None) with
    | Some l => Some l
    | None => acc !! k
    end.
Proof.
  revert acc. induction types as [|t types IH]; intros acc.
  - reflexivity.
  - cbn [foldl]. rewrite IH.
    destruct (decide (k = t)) as [->|Hne].
    + rewrite (bool_decide_eq_true_2 (t ∈ t :: types))
        by (apply elem_of_cons; auto).
      fold (relation_names t).
      destruct (first_relation props (relation_names t)) as [l|] eqn:Hl.
      * destruct (bool_decide (t ∈ types)); [reflexivity|].
        apply lookup_insert_eq.
      * destruct (bool_decide (t ∈ types)); reflexivity.
    + assert (Hiff : bool_decide (k ∈ t :: types) = bool_decide (k ∈ types)).
      { apply bool_decide_ext. rewrite elem_of_cons. tauto. }
      rewrite Hiff.
      destruct (if bool_decide (k ∈ types)
                then first_relation props (relation_names k) else None);
        [reflexivity|].
      fold (relation_names t).
      destruct (first_relation props (relation_names t));
        [apply lookup_insert_ne; congruence|reflexivity].
Qed.

Lemma extract_related_lookup props id_type k :
  _extract_related_ids props id_type !! k
  = if bool_decide (k ∈ expected_relations id_type)
    then first_relation props (relation_names k) else None.
Proof.
  unfold _extract_related_ids. rewrite extract_related_fold.
  fold (expected_relations id_type). rewrite lookup_empty.
  destruct (bool_decide _); [|reflexivity].
  destruct (first_relation _ _); reflexivity.
Qed.

Lemma first_relation_nonempty props names l :
  first_relation props names = Some l -> l <> [].
Proof.
  intros H. apply first_relation_some in H as (_ & _ & _ & _ & [_ Hne] & _).
  exact Hne.
Qed.

(** X8. The [related_ids] of a parsed entry have a key only for the
    relation types expected of the entry's registry type, each holding the
    non-empty relation found under the first of its three property names;
    so a link counts as present exactly when its key is; and an entry of a
    type without expected relations has no link at all. *)
Theorem parsed_related_ids (pg : page) (id_type k : string) :
  let d := related_ids (_parse_entry pg id_type) in
  d !! k
  = (if bool_decide (k ∈ expected_relations id_type)
     then first_relation (properties pg) (relation_names k) else None) /\
  (forall l, d !! k = Some l -> l <> [] /\ k ∈ expected_relations id_type) /\
  (missing d k = false <-> is_Some (d !! k)) /\
  (RELATION_PROPERTIES !! id_type = None -> d = ∅).
Proof.
  cbv zeta. cbn [_parse_entry related_ids].
  pose proof (extract_related_lookup (properties pg) id_type k) as Hk.
  split; [exact Hk|].
  assert (Hne : forall l,
             _extract_related_ids (properties pg) id_type !! k = Some l ->
             l <> [] /\ k ∈ expected_relations id_type).
  { intros l Hl. rewrite Hk in Hl.
    destruct (bool_decide (k ∈ expected_relations id_type)) eqn:Hb;
      [|discriminate].
    apply bool_decide_eq_true in Hb.
    split; [exact (first_relation_nonempty _ _ _ Hl)|exact Hb]. }
  split; [exact Hne|]. split.
  - unfold missing.
    destruct (_extract_related_ids (properties pg) id_type !! k)
      as [[|x l]|] eqn:Hl.
    + destruct (Hne [] eq_refl) as [Hfalse _]. congruence.
    + split; [eauto|reflexivity].
    + split; [discriminate|intros [x Hx]; discriminate].
  - intros Hnone. apply map_eq. intros k'.
    rewrite extract_related_lookup. unfold expected_relations.
    rewrite Hnone, lookup_empty. cbn [default].
    rewrite bool_decide_eq_false_2; [reflexivity|].
    intros Hin. apply elem_of_nil in Hin. exact Hin.
Qed.

(** X9. The three property names of a relation type are tried in the
    order [T-IDs], [T IDs], [T]: a name is taken when it holds a relation
    with at least one page, and skipped when it is absent, holds another
    kind of property, or holds an empty relation. *)
Theorem relation_name_priority (props : gmap string prop_value)
    (rel_type : string) (rel_ids : list string) :
  first_relation props (relation_names rel_type) = Some rel_ids <->
  holds_relation props (rel_type +:+ "-IDs") rel_ids \/
  ((forall l, ~ holds_relation props (rel_type +:+ "-IDs") l) /\
   holds_relation props (rel_type +:+ " IDs") rel_ids) \/
  ((forall l, ~ holds_relation props (rel_type +:+ "-IDs") l) /\
   (forall l, ~ holds_relation props (rel_type +:+ " IDs") l) /\
   holds_relation props rel_type rel_ids).
Proof.
  rewrite first_relation_some. unfold relation_names. split.
  - intros (before & pn & after & Heq & Hh & Hb).
    destruct before as [|b1 [|b2 [|b3 before]]]; simpl in Heq.
    + injection Heq as <- _. left. exact Hh.
    + injection Heq as <- <- _. right. left. split; [|exact Hh].
      intros l. apply Hb. apply elem_of_cons. auto.
    + injection Heq as <- <- <- _. right. right.
      split; [|split; [|exact Hh]]; intros l; apply Hb;
        rewrite !elem_of_cons; auto.
    + injection Heq as _ _ _ Heq. destruct before; discriminate.
  - intros [Hh|[[H1 Hh]|(H1 & H2 & Hh)]].
    + exists [], (rel_type +:+ "-IDs"), [rel_type +:+ " IDs"; rel_type].
      split; [reflexivity|]. split; [exact Hh|].
      intros n l Hin. apply elem_of_nil in Hin. destruct Hin.
    + exists [rel_type +:+ "-IDs"], (rel_type +:+ " IDs"), [rel_type].
      split; [reflexivity|]. split; [exact Hh|].
      intros n l Hin. apply list_elem_of_singleton in Hin as ->. apply H1.
    + exists [rel_type +:+ "-IDs"; rel_type +:+ " IDs"], rel_type, [].
      split; [reflexivity|]. split; [exact Hh|].
      intros n l Hin. rewrite !elem_of_cons in Hin.
      destruct Hin as [->|[->|Hin]]; [apply H1|apply H2|].
      apply elem_of_nil in Hin. destruct Hin.
Qed.

(** ** Lookups *)

Lemma get_entry_returned {W : Type} (database_ids : gmap string string)
    (search_database : string -> option filter -> M W (list page))
    (id_str : string) (w w' : W) (e : RegistryEntry) :
  get_entry database_ids search_database id_str w = (w', Return (Some e)) ->
  exists id_type pg,
    _extract_id_type id_str = Some id_type /\ id_type <> "" /\
    is_Some (database_ids !! id_type) /\
    e = _parse_entry pg id_type.
Proof.
  unfold get_entry.
  destruct (_extract_id_type id_str) as [[|c ty]|]; try discriminate.
  destruct (database_ids !! String c ty) as [[|c' db]|] eqn:Hdb;
    try discriminate.
  rewrite bind_run. unfold try_except_NotionError.
  destruct (search_database (String c' db) _ w)
    as [w1 [[msg|msg|msg|msg|msg|msg|msg]|res]].
  - destruct (search_database (String c' db) _ w1) as [w2 [ex|res]];
      [discriminate|].
    destruct res as [|pg res]; [discriminate|].
    intros H. injection H as _ <-. exists (String c ty), pg.
    split; [reflexivity|]. split; [discriminate|]. split; [eauto|reflexivity].
  - discriminate.
  - discriminate.
  - discriminate.
  - discriminate.
  - discriminate.
  - discriminate.
  - destruct res as [|pg res]; [discriminate|].
    intros H. injection H as _ <-. exists (String c ty), pg.
    split; [reflexivity|]. split; [discriminate|]. split; [eauto|reflexivity].
Qed.

Lemma evidence_expected_of_test_cases (id_type : string) :
  "EA" ∈ expected_relations id_type -> id_type = "TC".
Proof.
  unfold expected_relations.
  destruct (RELATION_PROPERTIES !! id_type) as [l|] eqn:Hl.
  - apply elem_of_list_to_map_2 in Hl. cbn [default].
    repeat (apply elem_of_cons in Hl as [Hl|Hl];
            [injection Hl as -> ->; intros Hin;
             repeat (apply elem_of_cons in Hin as [Hin|Hin];
                     [try discriminate Hin; reflexivity|]);
             apply elem_of_nil in Hin; destruct Hin|]).
    apply elem_of_nil in Hl. destruct Hl.
  - cbn [default]. intros Hin. apply elem_of_nil in Hin. destruct Hin.
Qed.

(** X10. An entry obtained from [get_entry] for an id whose type is not
    [TC] never carries an evidence link, so [validate_traceability_chain]
    reports [MISSING_EA] for every verification that resolves with a
    status reading "verified", whatever its page holds. *)
Theorem verified_verification_always_missing_evidence {W : Type}
    (database_ids : gmap string string)
    (search_database : string -> option filter -> M W (list page))
    (errs : list string) (v_id : string) (v : RegistryEntry) (w w' : W) :
  get_entry database_ids search_database v_id w = (w', Return (Some v)) ->
  _extract_id_type v_id <> Some "TC" ->
  missing (related_ids v) "EA" = true /\
  (is_verified v = true ->
   check_verification database_ids search_database errs v_id w
   = (w', Return
            (errs
             ++ (if missing (related_ids v) "TC"
                 then ["MISSING_TC: " +:+ v_id +:+ " has no Test Case"]
                 else [])
             ++ ["MISSING_EA: " +:+ v_id
                 +:+ " is Verified but has no Evidence Artifact"]))).
Proof.
  intros Hget Hty.
  assert (HEA : missing (related_ids v) "EA" = true).
  { destruct (get_entry_returned _ _ _ _ _ _ Hget)
      as (ty & pg & Hext & _ & _ & ->).
    unfold missing. cbn [_parse_entry related_ids].
    rewrite extract_related_lookup.
    rewrite bool_decide_eq_false_2; [reflexivity|].
    intros Hin. apply evidence_expected_of_test_cases in Hin. congruence. }
  split; [exact HEA|]. intros Hver.
  rewrite (check_verification_resolved _ _ _ _ _ _ _ Hget), Hver, HEA.
  reflexivity.
Qed.

Lemma verified_verification_always_missing_evidence_witness :
  check_verification Demo.database_ids Demo.search_database [] "V-AUTH-001"
    0%nat
  = (1%nat,
     Return ["MISSING_EA: V-AUTH-001 is Verified but has no Evidence Artifact"]).
Proof.
  destruct (verified_verification_always_missing_evidence
              Demo.database_ids Demo.search_database [] "V-AUTH-001"
              (_parse_entry Demo.v_auth "V") 0%nat 1%nat) as [_ Hrun].
  - vm_compute. reflexivity.
  - vm_compute. discriminate.
  - rewrite Hrun by (vm_compute; reflexivity). vm_compute. reflexivity.
Defined.

(** ** Invariants of the chain validation *)

(** A relation that every returning step of the body respects is respected
    by the loop when it returns. *)
Lemma for_each_relation {W A S} (body : S -> A -> M W S) (R : S -> S -> Prop) :
  (forall s, R s s) ->
  (forall a b c, R a b -> R b c -> R a c) ->
  (forall acc x w w' acc', body acc x w = (w', Return acc') -> R acc acc') ->
  forall xs acc w w' acc',
    for_each xs body acc w = (w', Return acc') -> R acc acc'.
Proof.
  intros Hrefl Htrans Hbody xs.
  induction xs as [|x xs IH]; intros acc w w' acc'.
  - intros H. injection H as _ <-. apply Hrefl.
  - cbn [for_each]. rewrite bind_run.
    destruct (body acc x w) as [w1 [e|acc1]] eqn:Hb; [discriminate|].
    intros H. apply (Htrans _ acc1); [exact (Hbody _ _ _ _ _ Hb)|].
    exact (IH _ _ _ _ H).
Qed.

Lemma coded_snoc (errs : list string) (msg : string) :
  Forall coded errs -> coded msg -> Forall coded (errs ++ [msg]).
Proof. intros H1 H2. apply Forall_app. split; [exact H1|]. constructor; auto. Qed.

Ltac coded_message :=
  unfold coded, CHAIN_ERROR_CODES;
  match goal with
  | |- ?c ∈ _ =>
      let c' := eval vm_compute in c in
      change c with c'
  end;
  repeat (first [apply list_elem_of_here | apply list_elem_of_further]).

Section ChainInvariants.
Context {W : Type}.
Variable database_ids : gmap string string.
Variable search_database : string -> option filter -> M W (list page).

Local Abbreviation check_v :=
  (check_verification database_ids search_database).
Local Abbreviation check_req :=
  (check_requirement database_ids search_database).
Local Abbreviation chain :=
  (validate_traceability_chain database_ids search_database).

Lemma check_verification_grows errs v_id w w' errs' :
  check_v errs v_id w = (w', Return errs') ->
  extends errs errs' /\ (Forall coded errs -> Forall coded errs').
Proof.
  unfold check_verification. rewrite bind_run.
  destruct (get_entry database_ids search_database v_id w)
    as [w1 [e|[v|]]]; [discriminate| |].
  - unfold ret. intros H. injection H as _ <-.
    destruct (missing (related_ids v) "TC");
      destruct (negb (String.eqb (status v) "")
                && String.eqb (Py.lower (status v)) "verified");
      destruct (missing (related_ids v) "EA");
      (split;
       [first [apply extends_refl | apply extends_snoc
              | eapply extends_trans; apply extends_snoc]
       |intros Hc; repeat apply coded_snoc; try exact Hc; coded_message]).
  - unfold ret. intros H. injection H as _ <-.
    split; [apply extends_snoc|].
    intros Hc. apply coded_snoc; [exact Hc|coded_message].
Qed.

Lemma grows_refl (errs : list string) :
  extends errs errs /\ (Forall coded errs -> Forall coded errs).
Proof. split; [apply extends_refl|auto]. Qed.

Lemma grows_trans (a b c : list string) :
  extends a b /\ (Forall coded a -> Forall coded b) ->
  extends b c /\ (Forall coded b -> Forall coded c) ->
  extends a c /\ (Forall coded a -> Forall coded c).
Proof.
  intros [H1 H2] [H3 H4]. split; [exact (extends_trans _ _ _ H1 H3)|auto].
Qed.

Lemma check_requirement_grows errs req_id w w' errs' :
  check_req errs req_id w = (w', Return errs') ->
  extends errs errs' /\ (Forall coded errs -> Forall coded errs').
Proof.
  unfold check_requirement. rewrite bind_run.
  destruct (get_entry database_ids search_database req_id w)
    as [w1 [e|[req|]]]; [discriminate| |].
  - destruct (missing (related_ids req) "V").
    + unfold ret. intros H. injection H as _ <-.
      split; [apply extends_snoc|].
      intros Hc. apply coded_snoc; [exact Hc|coded_message].
    + apply (for_each_relation check_v
               (fun a b => extends a b /\ (Forall coded a -> Forall coded b))
               grows_refl grows_trans check_verification_grows).
  - unfold ret. intros H. injection H as _ <-.
    split; [apply extends_snoc|].
    intros Hc. apply coded_snoc; [exact Hc|coded_message].
Qed.

Lemma feature_errors_coded feat_id feat :
  Forall coded (feature_errors feat_id feat).
Proof.
  unfold feature_errors.
  destruct (missing (related_ids feat) "BR");
    destruct (missing (related_ids feat) "UR");
    destruct (requirement_links feat);
    repeat (constructor; [coded_message|]); constructor.
Qed.

(** What a returned result looks like. *)
Lemma chain_returned feat_id w w' res :
  chain feat_id w = (w', Return res) ->
  Chain.valid res = (length (Chain.errors res) =? 0)%nat /\
  Forall coded (Chain.errors res) /\
  (Chain.warnings res = []
   \/ Chain.warnings res = ["MISSING_CF: " +:+ feat_id +:+ " has no Call Flow"]) /\
  (forall feat w1,
     get_entry database_ids search_database feat_id w = (w1, Return (Some feat)) ->
     extends (feature_errors feat_id feat) (Chain.errors res) /\
     Chain.warnings res = feature_warnings feat_id feat).
Proof.
  destruct (get_entry database_ids search_database feat_id w)
    as [w1 [e|[feat|]]] eqn:Hget.
  - unfold validate_traceability_chain. rewrite bind_run, Hget. discriminate.
  - rewrite (chain_resolved _ _ _ _ _ _ Hget), bind_run.
    destruct (for_each (requirement_links feat) check_req
                (feature_errors feat_id feat) w1) as [w2 [e|errs]] eqn:Hloop;
      [discriminate|].
    apply (for_each_relation check_req
             (fun a b => extends a b /\ (Forall coded a -> Forall coded b))
             grows_refl grows_trans check_requirement_grows) in Hloop
      as [Hext Hcoded].
    unfold ret. intros H. injection H as _ <-.
    cbn [Chain.valid Chain.errors Chain.warnings].
    split; [reflexivity|].
    split; [exact (Hcoded (feature_errors_coded feat_id feat))|].
    split.
    + unfold feature_warnings. destruct (missing (related_ids feat) "CF"); auto.
    + intros feat' w1' Heq. injection Heq as _ <-. auto.
  - rewrite (chain_absent _ _ _ _ _ Hget). intros H. injection H as _ <-.
    cbn [Chain.valid Chain.errors Chain.warnings].
    split; [reflexivity|]. split; [|split; [auto|]].
    + constructor; [coded_message|constructor].
    + intros feat w1' Heq. discriminate.
Qed.

End ChainInvariants.

(** X11. Whenever [validate_traceability_chain] returns, the result is
    valid exactly when it has no error, every error message begins with one
    of the seven chain codes, so that the consistency validator recovers a
    code from it, and the warnings are either none or the one [MISSING_CF]
    of the feature. *)
Theorem chain_result_well_formed {W : Type}
    (database_ids : gmap string string)
    (search_database : string -> option filter -> M W (list page))
    (feat_id : string) (w w' : W) (res : Chain.ChainResult) :
  validate_traceability_chain database_ids search_database feat_id w
    = (w', Return res) ->
  (Chain.valid res = true <-> Chain.errors res = []) /\
  Forall
    (fun msg =>
       Consistency.parse_code msg "VALIDATION_ERROR" ∈ CHAIN_ERROR_CODES)
    (Chain.errors res) /\
  (Chain.warnings res = []
   \/ Chain.warnings res = ["MISSING_CF: " +:+ feat_id +:+ " has no Call Flow"]) /\
  Forall
    (fun msg => Consistency.parse_code msg "VALIDATION_WARNING" = "MISSING_CF")
    (Chain.warnings res).
Proof.
  intros Hrun.
  destruct (chain_returned _ _ _ _ _ _ Hrun) as (Hv & Hc & Hw & _).
  split; [|split; [exact Hc|split; [exact Hw|]]].
  - rewrite Hv. destruct (Chain.errors res); split; intros H;
      try reflexivity; discriminate.
  - destruct Hw as [->| ->]; repeat constructor.
Qed.

Lemma chain_result_well_formed_witness :
  exists res,
    validate_traceability_chain Demo.database_ids Demo.search_database
      "FEAT-GAP-001" 0%nat = (4%nat, Return res) /\
    Chain.valid res = false /\
    Forall
      (fun msg =>
         Consistency.parse_code msg "VALIDATION_ERROR" ∈ CHAIN_ERROR_CODES)
      (Chain.errors res).
Proof.
  eexists. split; [vm_compute; reflexivity|].
  split; [reflexivity|].
  apply (chain_result_well_formed Demo.database_ids Demo.search_database
           "FEAT-GAP-001" 0%nat 4%nat).
  vm_compute. reflexivity.
Defined.

(** X12. The validation is an exhaustive audit: once the feature has
    resolved, whatever the traversal of its requirements and verifications
    finds is added after the feature's own errors, none of which is lost;
    a feature without business, user or requirement links is therefore
    never valid. *)
Theorem chain_keeps_feature_errors {W : Type}
    (database_ids : gmap string string)
    (search_database : string -> option filter -> M W (list page))
    (feat_id : string) (feat : RegistryEntry) (w w1 w' : W)
    (res : Chain.ChainResult) :
  get_entry database_ids search_database feat_id w
    = (w1, Return (Some feat)) ->
  validate_traceability_chain database_ids search_database feat_id w
    = (w', Return res) ->
  (exists found,
     Chain.errors res = feature_errors feat_id feat ++ found) /\
  Chain.warnings res = feature_warnings feat_id feat /\
  (missing (related_ids feat) "BR" = true
   \/ missing (related_ids feat) "UR" = true
   \/ requirement_links feat = [] ->
   Chain.valid res = false).
Proof.
  intros Hget Hrun.
  destruct (chain_returned _ _ _ _ _ _ Hrun) as (Hv & _ & _ & Hfeat).
  destruct (Hfeat feat w1 Hget) as [[found Hext] Hw].
  split; [exists found; exact Hext|]. split; [exact Hw|].
  intros Hmiss. rewrite Hv, Hext.
  assert (Hne : feature_errors feat_id feat <> []).
  { unfold feature_errors. destruct Hmiss as [->|[->| ->]].
    - discriminate.
    - destruct (missing (related_ids feat) "BR"); discriminate.
    - destruct (missing (related_ids feat) "BR");
        destruct (missing (related_ids feat) "UR"); discriminate. }
  destruct (feature_errors feat_id feat); [congruence|reflexivity].
Qed.

Lemma chain_keeps_feature_errors_witness :
  exists res found,
    validate_traceability_chain Demo.database_ids Demo.search_database
      "FEAT-GAP-001" 0%nat = (4%nat, Return res) /\
    Chain.errors res
    = feature_errors "FEAT-GAP-001" (_parse_entry Demo.feat_gap "FEAT")
      ++ found.
Proof.
  destruct (chain_keeps_feature_errors Demo.database_ids Demo.search_database
              "FEAT-GAP-001" (_parse_entry Demo.feat_gap "FEAT")
              0%nat 1%nat 4%nat
              {| Chain.valid := false;
                 Chain.errors := ["INVALID_ID: FR-GONE-001 not found"];
                 Chain.warnings := [] |})
    as ([found Hfound] & _).
  - vm_compute. reflexivity.
  - vm_compute. reflexivity.
  - eexists _, found. split; [vm_compute; reflexivity|exact Hfound].
Defined.

(** ** Attribution of the consistency entries *)

Lemma for_each_relation_elem {W A S} (body : S -> A -> M W S)
    (R : S -> S -> Prop) (xs : list A) :
  (forall s, R s s) ->
  (forall a b c, R a b -> R b c -> R a c) ->
  (forall acc x w w' acc',
     x ∈ xs -> body acc x w = (w', Return acc') -> R acc acc') ->
  forall acc w w' acc',
    for_each xs body acc w = (w', Return acc') -> R acc acc'.
Proof.
  intros Hrefl Htrans. induction xs as [|x xs IH]; intros Hbody acc w w' acc'.
  - intros H. injection H as _ <-. apply Hrefl.
  - cbn [for_each]. rewrite bind_run.
    destruct (body acc x w) as [w1 [e|acc1]] eqn:Hb; [discriminate|].
    intros H. apply (Htrans _ acc1).
    + exact (Hbody _ _ _ _ _ (list_elem_of_here x xs) Hb).
    + apply (IH (fun acc x0 w w' acc' Hin =>
                   Hbody acc x0 w w' acc' (list_elem_of_further _ _ _ Hin))
               _ _ _ _ H).
Qed.

Section Attribution.
Context {W : Type}.
Variable database_ids : gmap string string.
Variable search_database : string -> option filter -> M W (list page).
Variable m : Manifest.

Lemma check_id_attributed id_type ids id_str errs w w' errs' :
  (id_type, ids) ∈ get_all_referenced_ids m -> id_str ∈ ids ->
  Consistency.check_id database_ids search_database id_type errs id_str w
  = (w', Return errs') ->
  Forall (attributed m) errs -> Forall (attributed m) errs'.
Proof.
  intros Hk Hin Hrun Hall.
  assert (Hid : forall en,
             (Consistency.code en = "INVALID_FORMAT"
              \/ Consistency.code en = "INVALID_ID") ->
             Consistency.feature en = None ->
             Consistency.entry_id en = Some id_str ->
             Forall (attributed m) (errs ++ [en])).
  { intros en Hc Hf He. apply Forall_app. split; [exact Hall|].
    constructor; [|constructor]. left. split; [exact Hc|].
    split; [exact Hf|]. exists id_str. split; [exact He|].
    exists id_type, ids. auto. }
  pose proof (check_id_cases database_ids search_database
                id_type errs id_str w) as Hc.
  destruct (validate_id_format id_str).
  - destruct (get_entry database_ids search_database id_str w)
      as [w1 [e|[en|]]]; rewrite Hc in Hrun; injection Hrun as _ <-.
    + apply Hid; auto.
    + exact Hall.
    + apply Hid; auto.
  - rewrite Hc in Hrun. injection Hrun as _ <-. apply Hid; auto.
Qed.

Lemma check_feature_attributed f errs warns w w' errs' warns' :
  f ∈ features m ->
  Consistency.check_feature database_ids search_database (errs, warns) f w
  = (w', Return (errs', warns')) ->
  (Forall (attributed m) errs -> Forall (attributed m) errs') /\
  (Forall (feature_warning m) warns -> Forall (feature_warning m) warns').
Proof.
  intros Hf Hrun.
  pose proof (check_feature_cases database_ids search_database
                errs warns f w) as Hc.
  destruct (validate_traceability_chain database_ids search_database
              (feat_id f) w) as [w1 [e|res]] eqn:Hchain;
    rewrite Hc in Hrun; injection Hrun as _ <- <-.
  - split; [|auto]. intros Hall. apply Forall_app. split; [exact Hall|].
    constructor; [|constructor]. right. split; [left; reflexivity|].
    split; [reflexivity|]. exists f. auto.
  - destruct (chain_returned _ _ _ _ _ _ Hchain) as (_ & Hcoded & Hw & _).
    split; intros Hall; apply Forall_app; (split; [exact Hall|]).
    + apply Forall_map. eapply Forall_impl; [exact Hcoded|].
      intros msg Hmsg. right. split; [right; exact Hmsg|].
      split; [reflexivity|]. exists f. auto.
    + destruct Hw as [->| ->]; [constructor|].
      constructor; [|constructor].
      split; [reflexivity|]. split; [reflexivity|]. exists f. auto.
Qed.

Lemma validate_attributed w w' res :
  Consistency.validate database_ids search_database m w = (w', Return res) ->
  Forall (attributed m) (Consistency.errors res) /\
  Forall (feature_warning m) (Consistency.warnings res).
Proof.
  unfold Consistency.validate. cbv zeta. rewrite bind_run.
  destruct (for_each (get_all_referenced_ids m) _ [] w)
    as [w1 [e|errs1]] eqn:Hloop1; [discriminate|].
  rewrite bind_run.
  destruct (for_each (features m) _ (errs1, []) w1)
    as [w2 [e|[errs2 warns2]]] eqn:Hloop2; [discriminate|].
  unfold ret. intros H. injection H as _ <-.
  cbn [Consistency.errors Consistency.warnings].
  assert (H1 : Forall (attributed m) errs1).
  { refine (for_each_relation_elem _
              (fun a b => Forall (attributed m) a -> Forall (attributed m) b)
              (get_all_referenced_ids m) _ _ _ _ _ _ _ Hloop1 _);
      [auto|auto| |constructor].
    intros acc [id_type ids] w0 w0' acc' Hk Hrun.
    refine (for_each_relation_elem _
              (fun a b => Forall (attributed m) a -> Forall (attributed m) b)
              (elements ids) _ _ _ _ _ _ _ Hrun); [auto|auto|].
    intros acc0 id_str w3 w3' acc0' Hin Hrun0.
    apply elem_of_elements in Hin.
    exact (check_id_attributed _ _ _ _ _ _ _ Hk Hin Hrun0). }
  pose proof (for_each_relation_elem
                (Consistency.check_feature database_ids search_database)
                (fun a b =>
                   (Forall (attributed m) (fst a) ->
                    Forall (attributed m) (fst b)) /\
                   (Forall (feature_warning m) (snd a) ->
                    Forall (feature_warning m) (snd b)))
                (features m)) as Hrel.
  destruct (Hrel (fun s => conj (fun H => H) (fun H => H))) with
    (acc := (errs1, @nil Consistency.entry)) (w := w1) (w' := w2)
    (acc' := (errs2, warns2)) as [He Hw].
  - intros a b c [Ha Hb] [Hc Hd]. auto.
  - intros [errs warns] f w0 w0' [errs' warns'] Hf Hrun. cbn [fst snd].
    exact (check_feature_attributed _ _ _ _ _ _ _ Hf Hrun).
  - exact Hloop2.
  - cbn [fst snd] in He, Hw. split; [exact (He H1)|apply Hw; constructor].
Qed.

End Attribution.

(** X13. Every entry of a consistency result can be traced to the
    manifest: an error either names an id that the manifest references,
    with code [INVALID_FORMAT] or [INVALID_ID], or names a feature of the
    manifest, with a chain code or [VALIDATION_ERROR]; every warning is a
    [MISSING_CF] of a feature of the manifest.  A manifest without
    features therefore yields no warning and only id errors. *)
Theorem consistency_entries_attributed {W : Type}
    (database_ids : gmap string string)
    (search_database : string -> option filter -> M W (list page))
    (m : Manifest) (w w' : W) (res : Consistency.ConsistencyResult) :
  Consistency.validate database_ids search_database m w = (w', Return res) ->
  Forall (fun en => id_entry m en \/ feature_entry m en)
    (Consistency.errors res) /\
  Forall (feature_warning m) (Consistency.warnings res) /\
  (features m = [] ->
   Consistency.warnings res = [] /\
   Forall (id_entry m) (Consistency.errors res)).
Proof.
  intros Hrun.
  destruct (validate_attributed _ _ _ _ _ _ Hrun) as [He Hw].
  split; [exact He|]. split; [exact Hw|].
  intros Hnone. split.
  - destruct (Consistency.warnings res) as [|en l]; [reflexivity|].
    apply Forall_cons in Hw as [(_ & _ & f & Hf & _) _].
    rewrite Hnone in Hf. apply elem_of_nil in Hf. destruct Hf.
  - eapply Forall_impl; [exact He|].
    intros en [Hid|(_ & _ & f & Hf & _)]; [exact Hid|].
    rewrite Hnone in Hf. apply elem_of_nil in Hf. destruct Hf.
Qed.

Lemma consistency_entries_attributed_witness :
  exists res w',
    Consistency.validate Demo.database_ids Demo.search_database
      Samples.manifest_auth 0%nat = (w', Return res) /\
    map Consistency.code (Consistency.errors res)
    = ["INVALID_FORMAT"; "INVALID_ID"; "MISSING_EA"] /\
    Forall (fun en => id_entry Samples.manifest_auth en
                      \/ feature_entry Samples.manifest_auth en)
      (Consistency.errors res).
Proof.
  destruct (Consistency.validate Demo.database_ids Demo.search_database
              Samples.manifest_auth 0%nat) as [w' [e|res]] eqn:Hrun;
    [vm_compute in Hrun; discriminate|].
  exists res, w'. split; [reflexivity|].
  split.
  - pose proof Hrun as Hval. vm_compute in Hval.
    injection Hval as _ <-. reflexivity.
  - exact (proj1 (consistency_entries_attributed _ _ _ _ _ _ Hrun)).
Defined.

(** ** The ids that a manifest references *)

Lemma setdefault_add_filed d k id k' id' :
  filed (setdefault_add d k id) k' id' <->
  filed d k' id' \/ (k' = k /\ id' = id).
Proof.
  unfold filed. induction d as [|[k0 ids0] d IH]; simpl.
  - split.
    + intros (ids & Hin & Hid). apply list_elem_of_singleton in Hin.
      injection Hin as -> ->. apply elem_of_singleton in Hid. auto.
    + intros [(ids & Hin & _)|[-> ->]].
      * apply elem_of_nil in Hin. destruct Hin.
      * exists {[id]}. split; [apply list_elem_of_here|].
        apply elem_of_singleton. reflexivity.
  - destruct (String.eqb_spec k0 k) as [->|Hne].
    + split.
      * intros (ids & Hin & Hid). apply elem_of_cons in Hin as [Heq|Hin].
        -- injection Heq as -> ->. apply elem_of_union in Hid as [Hid|Hid].
           ++ left. exists ids0. split; [apply list_elem_of_here|exact Hid].
           ++ apply elem_of_singleton in Hid. auto.
        -- left. exists ids. split; [apply list_elem_of_further, Hin|exact Hid].
      * intros [(ids & Hin & Hid)|[-> ->]].
        -- apply elem_of_cons in Hin as [Heq|Hin].
           ++ injection Heq as -> ->. exists (ids0 ∪ {[id]}).
              split; [apply list_elem_of_here|]. apply elem_of_union. auto.
           ++ exists ids. split; [apply list_elem_of_further, Hin|exact Hid].
        -- exists (ids0 ∪ {[id]}). split; [apply list_elem_of_here|].
           apply elem_of_union. right. apply elem_of_singleton. reflexivity.
    + split.
      * intros (ids & Hin & Hid). apply elem_of_cons in Hin as [Heq|Hin].
        -- injection Heq as -> ->. left. exists ids0.
           split; [apply list_elem_of_here|exact Hid].
        -- destruct (proj1 IH (ex_intro _ ids (conj Hin Hid)))
             as [(ids' & Hin' & Hid')|Heq]; [|auto].
           left. exists ids'. split; [apply list_elem_of_further, Hin'|exact Hid'].
      * intros [(ids & Hin & Hid)|Heq].
        -- apply elem_of_cons in Hin as [Heq|Hin].
           ++ injection Heq as -> ->. exists ids0.
              split; [apply list_elem_of_here|exact Hid].
           ++ destruct (proj2 IH (or_introl (ex_intro _ ids (conj Hin Hid))))
                as (ids' & Hin' & Hid').
              exists ids'. split; [apply list_elem_of_further, Hin'|exact Hid'].
        -- destruct (proj2 IH (or_intror Heq)) as (ids' & Hin' & Hid').
           exists ids'. split; [apply list_elem_of_further, Hin'|exact Hid'].
Qed.

Lemma setdefault_add_keys d k id :
  map fst (setdefault_add d k id) = map fst d
  \/ ((k ∉ map fst d) /\ map fst (setdefault_add d k id) = map fst d ++ [k]).
Proof.
  induction d as [|[k0 ids0] d IH]; simpl.
  - right. split; [apply not_elem_of_nil|reflexivity].
  - destruct (String.eqb_spec k0 k) as [->|Hne]; [left; reflexivity|].
    simpl. destruct IH as [->|[Hnot ->]]; [left; reflexivity|].
    right. split; [|reflexivity].
    intros Hin. apply elem_of_cons in Hin as [->|Hin]; [congruence|auto].
Qed.

Lemma setdefault_add_nonempty d k id :
  Forall (fun p => snd p <> (∅ : gset string)) d ->
  Forall (fun p => snd p <> (∅ : gset string)) (setdefault_add d k id).
Proof.
  induction 1 as [|[k0 ids0] d Hp Hd IH]; simpl.
  - constructor; [|constructor]. simpl. set_solver.
  - destruct (String.eqb k0 k).
    + constructor; [simpl; set_solver|exact Hd].
    + constructor; [exact Hp|exact IH].
Qed.

Lemma file_pairs_spec d l :
  NoDup (map fst d) ->
  Forall (fun p => snd p <> (∅ : gset string)) d ->
  NoDup (map fst (file_pairs d l)) /\
  Forall (fun p => snd p <> (∅ : gset string)) (file_pairs d l) /\
  forall k id, filed (file_pairs d l) k id <-> filed d k id \/ (k, id) ∈ l.
Proof.
  revert d. induction l as [|[k0 id0] l IH]; intros d Hnd Hne.
  - split; [exact Hnd|]. split; [exact Hne|]. intros k id. split; [auto|].
    intros [H|H]; [exact H|]. apply elem_of_nil in H. destruct H.
  - unfold file_pairs. cbn [foldl fst snd]. fold (file_pairs (setdefault_add d k0 id0) l).
    destruct (IH (setdefault_add d k0 id0)) as (H1 & H2 & H3).
    + destruct (setdefault_add_keys d k0 id0) as [->|[Hnot ->]]; [exact Hnd|].
      apply NoDup_app. split; [exact Hnd|]. split.
      * intros x Hx Hx'. apply list_elem_of_singleton in Hx' as ->. auto.
      * apply NoDup_singleton.
    + apply setdefault_add_nonempty. exact Hne.
    + split; [exact H1|]. split; [exact H2|]. intros k id.
      rewrite H3, setdefault_add_filed, elem_of_cons. split.
      * intros [[H|[-> ->]]|H]; auto.
      * intros [H|[Heq|H]]; auto. injection Heq as -> ->. auto.
Qed.

Lemma file_pairs_app d l1 l2 :
  file_pairs d (l1 ++ l2) = file_pairs (file_pairs d l1) l2.
Proof. unfold file_pairs. apply foldl_app. Qed.

Lemma file_pairs_map {A} (h : A -> string * string) d (l : list A) :
  foldl (fun d x => setdefault_add d (fst (h x)) (snd (h x))) d l
  = file_pairs d (map h l).
Proof.
  revert d. induction l as [|x l IH]; intros d; [reflexivity|].
  cbn [foldl map]. rewrite IH. reflexivity.
Qed.

Lemma file_pairs_flat_map {A} (g : A -> list (string * string)) d (l : list A) :
  foldl (fun d x => file_pairs d (g x)) d l = file_pairs d (flat_map g l).
Proof.
  revert d. induction l as [|x l IH]; intros d; [reflexivity|].
  cbn [foldl flat_map]. rewrite IH, file_pairs_app. reflexivity.
Qed.

Lemma foldl_congr {A B} (f g : A -> B -> A) (a a' : A) (l : list B) :
  (forall a x, f a x = g a x) -> a = a' -> foldl f a l = foldl g a' l.
Proof.
  intros Hfg <-. revert a. induction l as [|x l IH]; intros a; [reflexivity|].
  cbn [foldl]. rewrite Hfg. apply IH.
Qed.

Lemma get_all_referenced_ids_pairs (m : Manifest) :
  get_all_referenced_ids m = file_pairs [] (referenced_pairs m).
Proof.
  unfold get_all_referenced_ids, referenced_pairs. cbv zeta.
  rewrite !file_pairs_app, <- !file_pairs_flat_map.
  apply foldl_congr; [|apply foldl_congr; [|apply foldl_congr;
    [|apply foldl_congr; [|reflexivity]]]].
  - intros d test.
    rewrite file_pairs_app.
    rewrite <- (file_pairs_map (pair "V")), <- (file_pairs_map (pair "TC")).
    reflexivity.
  - intros d iface.
    change ((id_prefix (iface_id iface), iface_id iface)
            :: map (fun req_id => (id_prefix req_id, req_id)) (requirements iface))
      with ([(id_prefix (iface_id iface), iface_id iface)]
            ++ map (fun req_id => (id_prefix req_id, req_id))
                 (requirements iface)).
    rewrite file_pairs_app.
    rewrite <- (file_pairs_map (fun req_id => (id_prefix req_id, req_id))).
    reflexivity.
  - intros d feature.
    change ((id_prefix (feat_id feature), feat_id feature)
            :: map (pair "BR") (business_requirements feature)
            ++ map (pair "UR") (user_requirements feature)
            ++ map (pair "CF") (call_flows feature))
      with ([(id_prefix (feat_id feature), feat_id feature)]
            ++ map (pair "BR") (business_requirements feature)
            ++ map (pair "UR") (user_requirements feature)
            ++ map (pair "CF") (call_flows feature)).
    rewrite !file_pairs_app.
    rewrite <- (file_pairs_map (pair "CF")), <- (file_pairs_map (pair "UR")),
      <- (file_pairs_map (pair "BR")).
    reflexivity.
  - intros d symbol.
    apply (file_pairs_map (fun id_str => (id_prefix id_str, id_str))).
Qed.

(** X14. [Manifest.get_all_referenced_ids] returns a dictionary without
    repeated keys and without an empty set; an id is filed under a type
    exactly when the manifest gives that pair: an id of a symbol mapping or
    of an interface under the text before its first dash, a feature's
    linked ids under BR, UR and CF and a test's ids under TC and V whatever
    their own prefix is. *)
Theorem referenced_ids_grouping (m : Manifest) :
  NoDup (map fst (get_all_referenced_ids m)) /\
  (forall id_type ids,
      (id_type, ids) ∈ get_all_referenced_ids m -> ids <> ∅) /\
  (forall id_type id_str,
      filed (get_all_referenced_ids m) id_type id_str <->
      (id_type, id_str) ∈ referenced_pairs m).
Proof.
  rewrite get_all_referenced_ids_pairs.
  destruct (file_pairs_spec [] (referenced_pairs m)) as (Hnd & Hne & Hfiled).
  - apply NoDup_nil_2.
  - constructor.
  - split; [exact Hnd|]. split.
    + intros id_type ids Hin. rewrite Forall_forall in Hne.
      exact (Hne _ Hin).
    + intros id_type id_str. rewrite Hfiled. split; [|auto].
      intros [(ids & Hin & _)|H]; [|exact H].
      apply elem_of_nil in Hin. destruct Hin.
Qed.

(** ** The run of the consistency validator *)

Lemma foldl_app_concat {A} (l : list (list A)) (acc : list A) :
  foldl (fun acc b => acc ++ b) acc l = acc ++ concat l.
Proof.
  revert acc. induction l as [|b l IH]; intros acc; cbn [foldl concat].
  - rewrite app_nil_r. reflexivity.
  - rewrite IH, app_assoc. reflexivity.
Qed.

Lemma foldl_app_pair {A B} (l : list (list A * list B)) (a : list A)
    (b : list B) :
  foldl (fun acc x => (acc.1 ++ x.1, acc.2 ++ x.2)) (a, b) l
  = (a ++ concat (map fst l), b ++ concat (map snd l)).
Proof.
  revert a b. induction l as [|x l IH]; intros a b; cbn [foldl map concat].
  - rewrite !app_nil_r. reflexivity.
  - cbn [fst snd]. rewrite IH, !app_assoc. reflexivity.
Qed.

(** A loop whose body adds to its accumulator what a visit gives. *)
Lemma for_each_visits {W A B S} (body : S -> A -> M W S)
    (visit : A -> W -> W * B) (add : S -> B -> S) :
  (forall acc x w,
      body acc x w = ((visit x w).1, Return (add acc (visit x w).2))) ->
  forall xs acc w,
    for_each xs body acc w
    = ((visits visit xs w).1,
       Return (foldl add acc (map snd (visits visit xs w).2))).
Proof.
  intros Hbody. induction xs as [|x xs IH]; intros acc w; [reflexivity|].
  cbn [for_each visits]. rewrite bind_run, Hbody.
  destruct (visit x w) as [w1 b]. cbn [fst snd]. rewrite IH.
  destruct (visits visit xs w1) as [w2 rest]. reflexivity.
Qed.

Lemma for_each_ext {W A S} (body body' : S -> A -> M W S) :
  (forall acc x w, body acc x w = body' acc x w) ->
  forall xs acc w, for_each xs body acc w = for_each xs body' acc w.
Proof.
  intros Hext. induction xs as [|x xs IH]; intros acc w; [reflexivity|].
  cbn [for_each]. rewrite !bind_run, Hext.
  destruct (body' acc x w) as [w1 [e|acc1]]; [reflexivity|]. apply IH.
Qed.

Lemma for_each_map {W A B S} (h : A -> B) (body : S -> B -> M W S)
    (xs : list A) acc w :
  for_each (map h xs) body acc w
  = for_each xs (fun acc x => body acc (h x)) acc w.
Proof.
  revert acc w. induction xs as [|x xs IH]; intros acc w; [reflexivity|].
  cbn [for_each map]. rewrite !bind_run.
  destruct (body acc (h x) w) as [w1 [e|acc1]]; [reflexivity|]. apply IH.
Qed.

(** Every element is visited, and what the trace holds for a visit is what
    the visit gave in the world of the trace. *)
Lemma visits_complete {W A B} (visit : A -> W -> W * B) (xs : list A) (w : W)
    (x : A) :
  x ∈ xs -> exists w_i b, (x, w_i, b) ∈ (visits visit xs w).2.
Proof.
  revert w. induction xs as [|y xs IH]; intros w Hx.
  - apply elem_of_nil in Hx. destruct Hx.
  - cbn [visits]. destruct (visit y w) as [w1 b] eqn:Hv.
    specialize (IH w1). destruct (visits visit xs w1) as [w2 rest].
    cbn [snd] in *. apply elem_of_cons in Hx as [->|Hx].
    + exists w, b. apply elem_of_cons. left. reflexivity.
    + destruct (IH Hx) as (w_i & b' & Hin). exists w_i, b'.
      apply elem_of_cons. right. exact Hin.
Qed.

Lemma visits_sound {W A B} (visit : A -> W -> W * B) (xs : list A) (w : W)
    (x : A) (w_i : W) (b : B) :
  (x, w_i, b) ∈ (visits visit xs w).2 -> x ∈ xs /\ b = (visit x w_i).2.
Proof.
  revert w. induction xs as [|y xs IH]; intros w.
  - intros Hin. apply elem_of_nil in Hin. destruct Hin.
  - cbn [visits]. destruct (visit y w) as [w1 b1] eqn:Hv.
    specialize (IH w1). destruct (visits visit xs w1) as [w2 rest].
    cbn [snd] in *. intros Hin. apply elem_of_cons in Hin as [Heq|Hin].
    + injection Heq as -> -> ->. split; [apply elem_of_cons; auto|].
      rewrite Hv. reflexivity.
    + destruct (IH Hin) as [Hx Hb]. split; [apply elem_of_cons; auto|exact Hb].
Qed.

Lemma elem_of_concat_part {A} (l : list (list A)) (part : list A) (x : A) :
  part ∈ l -> x ∈ part -> x ∈ concat l.
Proof.
  intros Hp Hx. apply list_elem_of_In, in_concat. exists part.
  split; apply list_elem_of_In; assumption.
Qed.

Lemma visited_ids_spec (m : Manifest) (id_type id_str : string) :
  (id_type, id_str) ∈ Consistency.visited_ids m <->
  (id_type, id_str) ∈ referenced_pairs m.
Proof.
  destruct (file_pairs_spec [] (referenced_pairs m)) as (_ & _ & Hfiled);
    [apply NoDup_nil_2|constructor|].
  unfold Consistency.visited_ids. rewrite get_all_referenced_ids_pairs.
  rewrite list_elem_of_In, in_flat_map.
  transitivity (filed (file_pairs [] (referenced_pairs m)) id_type id_str).
  - split.
    + intros ([k ids] & Hin & Hp). apply list_elem_of_In in Hin, Hp.
      apply list_elem_of_fmap in Hp as (y & [= <- <-] & Hy).
      exists ids. split; [exact Hin|]. apply elem_of_elements. exact Hy.
    + intros (ids & Hin & Hid). exists (id_type, ids).
      split; [apply list_elem_of_In; exact Hin|].
      apply list_elem_of_In, list_elem_of_fmap. exists id_str.
      split; [reflexivity|]. apply elem_of_elements. exact Hid.
  - rewrite Hfiled. split; [|auto].
    intros [(ids & Hin & _)|H]; [|exact H].
    apply elem_of_nil in Hin. destruct Hin.
Qed.

Section ConsistencyRun.
Context {W : Type}.
Variable database_ids : gmap string string.
Variable search_database : string -> option filter -> M W (list page).

Local Abbreviation get := (get_entry database_ids search_database).
Local Abbreviation chain :=
  (validate_traceability_chain database_ids search_database).
Local Abbreviation id_visit :=
  (Consistency.id_visit database_ids search_database).
Local Abbreviation feature_visit :=
  (Consistency.feature_visit database_ids search_database).

Lemma check_id_visit id_type errs id_str w :
  Consistency.check_id database_ids search_database id_type errs id_str w
  = ((id_visit (id_type, id_str) w).1,
     Return (errs ++ (id_visit (id_type, id_str) w).2)).
Proof.
  pose proof (check_id_cases database_ids search_database id_type errs
                id_str w) as Hc.
  unfold Consistency.id_visit.
  destruct (validate_id_format id_str); [|exact Hc].
  destruct (get id_str w) as [w' [e|[en|]]]; cbn [fst snd];
    rewrite ?app_nil_r; exact Hc.
Qed.

Lemma check_feature_visit st f w :
  Consistency.check_feature database_ids search_database st f w
  = ((feature_visit f w).1,
     Return (st.1 ++ (feature_visit f w).2.1,
             st.2 ++ (feature_visit f w).2.2)).
Proof.
  destruct st as [errs warns].
  pose proof (check_feature_cases database_ids search_database errs warns
                f w) as Hc.
  unfold Consistency.feature_visit.
  destruct (chain (feat_id f) w) as [w' [e|res]]; cbn [fst snd];
    rewrite ?app_nil_r; exact Hc.
Qed.

(** [validate] is the visits of the referenced ids followed by the visits
    of the features, each in the world that the one before left. *)
Lemma validate_run (m : Manifest) (w : W) :
  let ids := visits id_visit (Consistency.visited_ids m) w in
  let feats := visits feature_visit (features m) ids.1 in
  let errors :=
    concat (map snd ids.2) ++ concat (map (fun t => t.2.1) feats.2) in
  Consistency.validate database_ids search_database m w
  = (feats.1,
     Return {| Consistency.valid := (length errors =? 0)%nat;
               Consistency.errors := errors;
               Consistency.warnings :=
                 concat (map (fun t => t.2.2) feats.2) |}).
Proof.
  cbv zeta. unfold Consistency.validate. cbv zeta. rewrite bind_run.
  set (g := fun x : string * gset string => map (pair x.1) (elements x.2)).
  set (body := fun (acc : list Consistency.entry) (p : string * string) =>
                 Consistency.check_id database_ids search_database p.1 acc
                   p.2).
  rewrite (for_each_ext _ (fun acc x => for_each (g x) body acc)).
  2:{ intros acc [id_type ids] w0. subst g body. cbn [fst snd].
      rewrite for_each_map. reflexivity. }
  rewrite for_each_concat.
  assert (Hids : concat (map g (get_all_referenced_ids m))
                 = Consistency.visited_ids m).
  { unfold Consistency.visited_ids. rewrite flat_map_concat_map.
    f_equal. apply map_ext. intros [id_type ids]. reflexivity. }
  rewrite Hids.
  rewrite (for_each_visits body id_visit (fun acc b => acc ++ b)).
  2:{ intros acc [id_type id_str] w0. apply check_id_visit. }
  rewrite foldl_app_concat. cbn [app]. rewrite bind_run.
  rewrite (for_each_visits _ feature_visit
             (fun acc x => (acc.1 ++ x.1, acc.2 ++ x.2))).
  2:{ intros acc f w0. apply check_feature_visit. }
  rewrite foldl_app_pair. cbn [app].
  rewrite !map_map. reflexivity.
Qed.

End ConsistencyRun.

(** C6. [ConsistencyValidator.validate] returns a result whatever the
    registry does, and the result is valid exactly when its errors are
    empty, whatever its warnings.  The run is a sequence of visits, each in
    the world that the one before left: the referenced ids, then the
    features.  The errors are what the visits added, in order, and the
    warnings what the visits of the features added.  Every id that the
    manifest refers to is visited and so is every feature.  At the visit
    of an id in the world [w_i]: an id that is not well formed adds one
    [INVALID_FORMAT] entry and the registry is not consulted, the world
    staying as it is; otherwise the look-up made in [w_i] decides: an entry
    found adds nothing, none found adds one [INVALID_ID] entry, and an
    exception raised by that very look-up adds one [INVALID_ID] entry with
    its text.  At the visit of a feature in the world [w_i]: a chain
    validation that raises there adds one [VALIDATION_ERROR] entry, and one
    that returns adds its errors and its warnings. *)
Theorem consistency_validate_trace {W : Type}
    (database_ids : gmap string string)
    (search_database : string -> option filter -> M W (list page))
    (m : Manifest) (w : W) :
  let ids :=
    visits (Consistency.id_visit database_ids search_database)
      (Consistency.visited_ids m) w in
  let feats :=
    visits (Consistency.feature_visit database_ids search_database)
      (features m) ids.1 in
  exists res,
    Consistency.validate database_ids search_database m w
    = (feats.1, Return res) /\
    (Consistency.valid res = true <-> Consistency.errors res = []) /\
    Consistency.errors res
    = concat (map snd ids.2) ++ concat (map (fun t => t.2.1) feats.2) /\
    Consistency.warnings res = concat (map (fun t => t.2.2) feats.2) /\
    (forall id_type id_str,
       (id_type, id_str) ∈ referenced_pairs m ->
       exists w_i added, (id_type, id_str, w_i, added) ∈ ids.2) /\
    (forall f,
       f ∈ features m -> exists w_i added, (f, w_i, added) ∈ feats.2) /\
    (forall id_type id_str w_i added,
       (id_type, id_str, w_i, added) ∈ ids.2 ->
       (forall x, x ∈ added -> x ∈ Consistency.errors res) /\
       (forall errs, exists w',
           Consistency.check_id database_ids search_database id_type errs
             id_str w_i
           = (w', Return (errs ++ added))) /\
       if validate_id_format id_str then
         match get_entry database_ids search_database id_str w_i with
         | (_, Return (Some _)) => added = []
         | (_, Return None) =>
             added = [Consistency.id_not_found id_type id_str]
         | (_, Raise e) => added = [Consistency.id_check_failed id_str e]
         end
       else
         added = [Consistency.invalid_format id_str] /\
         forall errs,
           Consistency.check_id database_ids search_database id_type errs
             id_str w_i
           = (w_i, Return (errs ++ added))) /\
    (forall f w_i added,
       (f, w_i, added) ∈ feats.2 ->
       (forall x, x ∈ added.1 -> x ∈ Consistency.errors res) /\
       (forall x, x ∈ added.2 -> x ∈ Consistency.warnings res) /\
       match
         validate_traceability_chain database_ids search_database
           (feat_id f) w_i
       with
       | (_, Return chain_result) =>
           added
           = (map (Consistency.chain_error (feat_id f))
                (Chain.errors chain_result),
              map (Consistency.chain_warning (feat_id f))
                (Chain.warnings chain_result))
       | (_, Raise e) => added = ([Consistency.chain_failed (feat_id f) e], [])
       end) /\
    (forall id_type id_str feat_id e,
       Consistency.code (Consistency.invalid_format id_str)
       = "INVALID_FORMAT" /\
       Consistency.code (Consistency.id_not_found id_type id_str)
       = "INVALID_ID" /\
       Consistency.code (Consistency.id_check_failed id_str e)
       = "INVALID_ID" /\
       Consistency.code (Consistency.chain_failed feat_id e)
       = "VALIDATION_ERROR").
Proof.
  cbv zeta. pose proof (validate_run database_ids search_database m w) as Hrun.
  cbv zeta in Hrun.
  set (ids := visits (Consistency.id_visit database_ids search_database)
                (Consistency.visited_ids m) w) in *.
  set (feats := visits (Consistency.feature_visit database_ids search_database)
                  (features m) ids.1) in *.
  eexists. split; [exact Hrun|].
  cbn [Consistency.valid Consistency.errors Consistency.warnings].
  split; [|split; [reflexivity|split; [reflexivity|]]].
  { destruct (_ ++ _); split; intros H; try reflexivity; discriminate. }
  split; [|split; [|split; [|split]]].
  - intros id_type id_str Hin. apply visits_complete, visited_ids_spec, Hin.
  - intros f Hf. apply visits_complete, Hf.
  - intros id_type id_str w_i added Hin.
    pose proof (visits_sound _ _ _ _ _ _ Hin) as [_ Hadded].
    split; [|split].
    + intros x Hx. apply elem_of_app. left.
      apply (elem_of_concat_part _ added); [|exact Hx].
      apply list_elem_of_fmap. exists (id_type, id_str, w_i, added).
      split; [reflexivity|exact Hin].
    + intros errs. eexists. rewrite check_id_visit, <- Hadded. reflexivity.
    + unfold Consistency.id_visit in Hadded.
      destruct (validate_id_format id_str) eqn:Hfmt.
      * destruct (get_entry database_ids search_database id_str w_i)
          as [w' [e|[en|]]]; exact Hadded.
      * cbn [snd] in Hadded. split; [exact Hadded|]. intros errs.
        pose proof (check_id_cases database_ids search_database id_type errs
                      id_str w_i) as Hc.
        rewrite Hfmt in Hc. rewrite Hadded. exact Hc.
  - intros f w_i added Hin.
    pose proof (visits_sound _ _ _ _ _ _ Hin) as [_ Hadded].
    split; [|split].
    + intros x Hx. apply elem_of_app. right.
      apply (elem_of_concat_part _ added.1); [|exact Hx].
      apply list_elem_of_fmap. exists (f, w_i, added).
      split; [reflexivity|exact Hin].
    + intros x Hx. apply (elem_of_concat_part _ added.2); [|exact Hx].
      apply list_elem_of_fmap. exists (f, w_i, added).
      split; [reflexivity|exact Hin].
    + unfold Consistency.feature_visit in Hadded.
      destruct (validate_traceability_chain database_ids search_database
                  (feat_id f) w_i) as [w' [e|res]]; exact Hadded.
  - intros id_type id_str feat_id e. repeat split.
Qed.

Lemma consistency_validate_trace_witness :
  (exists w',
     Consistency.validate Demo.database_ids (Samples.search_database_out 0 2)
       Samples.manifest_pay 0%nat
     = (w',
        Return
          {| Consistency.valid := false;
             Consistency.errors :=
               [Consistency.id_check_failed "FR-PAY-001"
                  (NotionError "Request timeout querying database db-fr")];
             Consistency.warnings :=
               [Consistency.chain_warning "FEAT-PAY-001"
                  "MISSING_CF: FEAT-PAY-001 has no Call Flow"] |})) /\
  (exists w',
     Consistency.validate Demo.database_ids (Samples.search_database_out 2 4)
       Samples.manifest_pay 0%nat
     = (w',
        Return
          {| Consistency.valid := false;
             Consistency.errors :=
               [Consistency.chain_failed "FEAT-PAY-001"
                  (NotionError "Request timeout querying database db-feat")];
             Consistency.warnings := [] |})).
Proof.
  split.
  - destruct (consistency_validate_trace Demo.database_ids
                (Samples.search_database_out 0 2) Samples.manifest_pay 0%nat)
      as ([valid errors warnings] & Hrun & Hvalid & Herr & Hwarn & _).
    cbn [Consistency.valid Consistency.errors Consistency.warnings] in *.
    vm_compute in Herr. vm_compute in Hwarn. subst errors warnings.
    destruct valid; [destruct Hvalid as [Hv _]; discriminate (Hv eq_refl)|].
    eexists. exact Hrun.
  - destruct (consistency_validate_trace Demo.database_ids
                (Samples.search_database_out 2 4) Samples.manifest_pay 0%nat)
      as ([valid errors warnings] & Hrun & Hvalid & Herr & Hwarn & _).
    cbn [Consistency.valid Consistency.errors Consistency.warnings] in *.
    vm_compute in Herr. vm_compute in Hwarn. subst errors warnings.
    destruct valid; [destruct Hvalid as [Hv _]; discriminate (Hv eq_refl)|].
    eexists. exact Hrun.
Defined.

(** ** Symbol paths *)

Lemma cut_colons_append (f r : string) :
  Py.contains ":" f = false ->
  cut_colons (f +:+ "::" +:+ r) = (f, Some r).
Proof.
  induction f as [|c f IH]; intros Hc.
  - reflexivity.
  - cbn [Py.contains] in Hc. apply orb_false_iff in Hc as [Hc Hf].
    specialize (IH Hf). rewrite append_cons.
    cbn [cut_colons]. rewrite IH.
    destruct f as [|d f]; str_norm; rewrite Hc; reflexivity.
Qed.

Lemma qualified_path_dotted (s : CodeSymbol) :
  qualified_path s = file_path s +:+ "::" +:+ dotted_name s.
Proof.
  unfold qualified_path, dotted_name.
  destruct (parent s) as [[|c p]|]; reflexivity.
Qed.

(** X15. A manifest mapping written with the qualified path of a code
    symbol gives back the symbol's file and its dotted name, as long as the
    file path holds no colon. *)
Theorem mapping_path_round_trip (mapping : SymbolMapping) (s : CodeSymbol) :
  map_path mapping = qualified_path s ->
  Py.contains ":" (file_path s) = false ->
  mapping_file_path mapping = file_path s /\
  mapping_symbol_name mapping = dotted_name s.
Proof.
  intros Hpath Hc. unfold mapping_file_path, mapping_symbol_name.
  rewrite Hpath, qualified_path_dotted, (cut_colons_append _ _ Hc).
  split; reflexivity.
Qed.

Lemma mapping_path_round_trip_witness :
  mapping_file_path
    {| map_path := "auth/oauth.py::OAuthProvider.authenticate";
       map_type := "method"; map_ids := [] |} = "auth/oauth.py" /\
  mapping_symbol_name
    {| map_path := "auth/oauth.py::OAuthProvider.authenticate";
       map_type := "method"; map_ids := [] |} = "OAuthProvider.authenticate".
Proof.
  apply (mapping_path_round_trip
           {| map_path := "auth/oauth.py::OAuthProvider.authenticate";
              map_type := "method"; map_ids := [] |}
           {| name := "authenticate"; type := "method";
              file_path := "auth/oauth.py"; line_start := 10;
              line_end := 20; parent := Some "OAuthProvider" |});
    reflexivity.
Defined.

(** X16. The ids that [Manifest.get_ids_for_symbol] returns for a path
    belong to a mapping of that path, so the path is among
    [get_symbol_paths] and each id is filed by [get_all_referenced_ids]
    under its prefix. *)
Theorem ids_for_symbol_referenced (m : Manifest) (symbol_path id_str : string) :
  id_str ∈ get_ids_for_symbol m symbol_path ->
  symbol_path ∈ get_symbol_paths m /\
  filed (get_all_referenced_ids m) (id_prefix id_str) id_str.
Proof.
  unfold get_ids_for_symbol.
  destruct (find _ (symbols m)) as [mapping|] eqn:Hfind; [|set_solver].
  intros Hid. apply elem_of_list_to_set in Hid.
  apply find_some in Hfind as [Hin Heq].
  apply String.eqb_eq in Heq. apply list_elem_of_In in Hin.
  split.
  - unfold get_symbol_paths. apply elem_of_list_to_set.
    rewrite <- Heq. apply list_elem_of_fmap. exists mapping. auto.
  - rewrite get_all_referenced_ids_pairs.
    destruct (file_pairs_spec [] (referenced_pairs m)) as (_ & _ & Hfiled);
      [apply NoDup_nil_2|constructor|].
    apply Hfiled. right. unfold referenced_pairs.
    apply elem_of_app. left. apply list_elem_of_In, in_flat_map.
    exists mapping. split; [apply list_elem_of_In, Hin|].
    apply in_map_iff. exists id_str. split; [reflexivity|].
    apply list_elem_of_In, Hid.
Qed.

Lemma ids_for_symbol_referenced_witness :
  "auth.py::login" ∈ get_symbol_paths Samples.manifest_auth /\
  filed (get_all_referenced_ids Samples.manifest_auth) "FR" "FR-AUTH-001".
Proof.
  apply (ids_for_symbol_referenced Samples.manifest_auth "auth.py::login"
           "FR-AUTH-001").
  vm_compute. set_solver.
Defined.

(** ** Which symbols are checked *)

Lemma special_names_private (nm : string) :
  existsb (String.eqb nm)
    ["__init__"; "__str__"; "__repr__"; "__eq__"; "__hash__"] = true ->
  Py.startswith nm "_" = true.
Proof.
  intros H. apply existsb_exists in H as (x & Hin & Heq).
  apply String.eqb_eq in Heq. subst x.
  simpl in Hin.
  destruct Hin as [<-|[<-|[<-|[<-|[<-|[]]]]]]; reflexivity.
Qed.

(** X17. In both validators the test against the list of special method
    names decides nothing, each of these names starting with an
    underscore: the orphan detector checks a symbol exactly when its name
    starts neither with an underscore nor with [test_], and the coverage
    validator leaves out, besides, the four set-up and tear-down names. *)
Theorem should_check_symbol_cases (s : CodeSymbol) :
  Orphans._should_check_symbol s
  = negb (Py.startswith (name s) "_")
    && negb (Py.startswith (name s) "test_") /\
  Coverage._should_check_symbol s
  = Orphans._should_check_symbol s
    && negb (existsb (String.eqb (name s))
               ["setUp"; "tearDown"; "setUpClass"; "tearDownClass"]).
Proof.
  unfold Orphans._should_check_symbol, Coverage._should_check_symbol.
  destruct (Py.startswith (name s) "_") eqn:Hp; [split; reflexivity|].
  destruct (existsb (String.eqb (name s))
              ["__init__"; "__str__"; "__repr__"; "__eq__"; "__hash__"])
    eqn:Hs.
  - apply special_names_private in Hs. congruence.
  - destruct (Py.startswith (name s) "test_"); [split; reflexivity|].
    destruct (existsb _ _); split; reflexivity.
Qed.

(** ** Shell patterns *)

Lemma match_tokens_star (toks : list Glob.token) (name : string) :
  Glob.match_tokens (Glob.Star :: toks) name
  = Glob.match_tokens toks name
    || match name with
       | EmptyString => false
       | String _ name' => Glob.match_tokens (Glob.Star :: toks) name'
       end.
Proof. destruct name; reflexivity. Qed.

Lemma fnmatchcase_star (name : string) : Glob.fnmatchcase name "*" = true.
Proof.
  unfold Glob.fnmatchcase. change (Glob.translate "*") with [Glob.Star].
  induction name as [|c name IH].
  - reflexivity.
  - rewrite match_tokens_star, IH. apply orb_true_r.
Qed.

Lemma fnmatchcase_star_star (name : string) :
  Glob.fnmatchcase name "**" = true.
Proof.
  pose proof (fnmatchcase_star name) as H. unfold Glob.fnmatchcase in *.
  change (Glob.translate "*") with [Glob.Star] in H.
  change (Glob.translate "**") with [Glob.Star; Glob.Star].
  rewrite match_tokens_star, H. reflexivity.
Qed.

Lemma contains_cons_false (c d : ascii) (s : string) :
  Py.contains c (String d s) = false -> d <> c /\ Py.contains c s = false.
Proof.
  cbn [Py.contains]. intros H. apply orb_false_iff in H as [H1 H2].
  split; [|exact H2]. apply Ascii.eqb_neq. exact H1.
Qed.

Lemma literal_cons (c : ascii) (s : string) :
  literal (String c s) = true ->
  c <> "*"%char /\ c <> "?"%char /\ c <> "["%char /\ literal s = true.
Proof.
  unfold literal. intros H.
  apply andb_true_iff in H as [H H3]. apply andb_true_iff in H as [H1 H2].
  apply negb_true_iff in H1, H2, H3.
  apply contains_cons_false in H1 as [? H1], H2 as [? H2], H3 as [? H3].
  rewrite H1, H2, H3. auto.
Qed.

(** The pieces of a text without [*], [?] and [[]: its characters. *)
Lemma tokens_literal (pre rest : string) (fuel : nat) :
  literal pre = true ->
  Glob.tokens (String.length pre + fuel) (pre +:+ rest)
  = map Glob.Lit (list_ascii_of_string pre) ++ Glob.tokens fuel rest.
Proof.
  induction pre as [|c pre IH]; intros Hl; [reflexivity|].
  apply literal_cons in Hl as (H1 & H2 & H3 & Hl).
  rewrite append_cons. cbn [String.length Nat.add Glob.tokens].
  apply Ascii.eqb_neq in H1, H2, H3. rewrite H1, H2, H3.
  cbn [list_ascii_of_string map app]. rewrite (IH Hl). reflexivity.
Qed.

Lemma length_append (s t : string) :
  String.length (s +:+ t) = (String.length s + String.length t)%nat.
Proof.
  induction s as [|c s IH]; [reflexivity|].
  rewrite append_cons. cbn [String.length]. rewrite IH. reflexivity.
Qed.

Lemma match_tokens_literal (pre name : string) (toks : list Glob.token) :
  Glob.match_tokens (map Glob.Lit (list_ascii_of_string pre) ++ toks)
    (pre +:+ name)
  = Glob.match_tokens toks name.
Proof.
  induction pre as [|c pre IH]; [reflexivity|].
  rewrite append_cons. cbn [list_ascii_of_string map app Glob.match_tokens].
  rewrite Ascii.eqb_refl. exact IH.
Qed.

Lemma fnmatchcase_prefix_star (pre rest : string) :
  literal pre = true ->
  Glob.fnmatchcase (pre +:+ rest) (pre +:+ "*") = true.
Proof.
  intros Hl. unfold Glob.fnmatchcase, Glob.translate.
  rewrite length_append, (tokens_literal pre "*" _ Hl).
  rewrite match_tokens_literal. apply (fnmatchcase_star rest).
Qed.

Lemma fnmatchcase_literal (name pat : string) :
  literal pat = true ->
  Glob.fnmatchcase name pat = String.eqb pat name.
Proof.
  intros Hl. unfold Glob.fnmatchcase, Glob.translate.
  pose proof (tokens_literal pat "" 0 Hl) as Ht.
  rewrite Nat.add_0_r in Ht.
  replace (pat +:+ "") with pat in Ht
    by (clear; induction pat as [|c pat IH]; [reflexivity|];
        rewrite append_cons, <- IH; reflexivity).
  rewrite Ht. cbn [Glob.tokens]. rewrite app_nil_r. clear Ht Hl.
  revert name. induction pat as [|c pat IH]; intros name.
  - destruct name; reflexivity.
  - cbn [list_ascii_of_string map Glob.match_tokens].
    destruct name as [|d name]; [reflexivity|].
    cbn [String.eqb]. rewrite IH.
    destruct (Ascii.eqb c d); reflexivity.
Qed.

(** X18. In the coverage validator an exclusion pattern made of a literal
    prefix and a final [*] excludes every symbol whose file path starts
    with that prefix, at whatever depth below it. *)
Theorem coverage_prefix_pattern_excludes (m : Manifest) (s : CodeSymbol)
    (pre rest : string) :
  In (pre +:+ "*") (patterns (exclusions m)) ->
  literal pre = true ->
  file_path s = pre +:+ rest ->
  Coverage._is_excluded m s = true.
Proof.
  intros Hin Hl Hpath. unfold Coverage._is_excluded.
  destruct (is_excluded m (qualified_path s)); [reflexivity|].
  apply existsb_exists. exists (pre +:+ "*"). split; [exact Hin|].
  rewrite Hpath. apply (fnmatchcase_prefix_star pre rest Hl).
Qed.

Lemma coverage_prefix_pattern_excludes_witness :
  Coverage._is_excluded
    (Demo.mk_manifest [] {| patterns := ["tests/*"]; excl_symbols := [] |})
    (Demo.mk_symbol "Helper" "class" "tests/unit/deep/helpers.py" 1 2) = true.
Proof.
  apply (coverage_prefix_pattern_excludes _ _ "tests/" "unit/deep/helpers.py").
  - left. reflexivity.
  - reflexivity.
  - reflexivity.
Defined.

(** X19. In the coverage validator exclusion patterns without [*], [?] and
    [[] exclude exactly the symbols listed by name and the symbols of the
    files listed. *)
Theorem coverage_literal_patterns (m : Manifest) (s : CodeSymbol) :
  forallb literal (patterns (exclusions m)) = true ->
  Coverage._is_excluded m s
  = is_excluded m (qualified_path s)
    || existsb (fun pattern => String.eqb pattern (file_path s))
         (patterns (exclusions m)).
Proof.
  intros Hl. unfold Coverage._is_excluded.
  destruct (is_excluded m (qualified_path s)); [reflexivity|].
  cbn [orb]. induction (patterns (exclusions m)) as [|p ps IH];
    [reflexivity|].
  cbn [forallb] in Hl. apply andb_true_iff in Hl as [Hp Hps].
  cbn [existsb]. unfold Glob.fnmatch at 1.
  rewrite (fnmatchcase_literal _ _ Hp), (IH Hps). reflexivity.
Qed.

Lemma coverage_literal_patterns_witness :
  Coverage._is_excluded
    (Demo.mk_manifest []
       {| patterns := ["setup.py"]; excl_symbols := ["a.py::Old"] |})
    (Demo.mk_symbol "main" "function" "pkg/setup.py" 1 2) = false.
Proof.
  rewrite (coverage_literal_patterns
             (Demo.mk_manifest []
                {| patterns := ["setup.py"]; excl_symbols := ["a.py::Old"] |})
             (Demo.mk_symbol "main" "function" "pkg/setup.py" 1 2));
    reflexivity.
Defined.

(** ** Path patterns *)

Lemma splitroot_no_sep (s : string) :
  Py.contains "/" s = false -> Glob.splitroot s = ("", s).
Proof.
  destruct s as [|c s]; [reflexivity|]. intros H.
  apply contains_cons_false in H as [H _].
  destruct c as [[] [] [] [] [] [] [] []]; first [reflexivity | congruence].
Qed.

Lemma name_pattern_spec (p : string) :
  name_pattern p = true ->
  Py.contains "/" p = false /\ String.eqb p "" = false
  /\ String.eqb p "." = false.
Proof.
  unfold name_pattern. intros H.
  apply andb_true_iff in H as [H H3]. apply andb_true_iff in H as [H1 H2].
  apply negb_true_iff in H1, H2, H3. auto.
Qed.

Lemma parse_parts_name (p : string) :
  name_pattern p = true -> Glob.parse_parts p = ("", [p]).
Proof.
  intros H. apply name_pattern_spec in H as (H1 & H2 & H3).
  unfold Glob.parse_parts. rewrite (splitroot_no_sep _ H1).
  rewrite (split_no_sep _ _ H1). cbn [List.filter].
  rewrite H2, H3. reflexivity.
Qed.

Lemma parse_parts_below_stars (p : string) :
  name_pattern p = true -> Glob.parse_parts ("**/" +:+ p) = ("", ["**"; p]).
Proof.
  intros H. apply name_pattern_spec in H as (H1 & H2 & H3).
  unfold Glob.parse_parts. str_norm.
  change (Glob.splitroot (String "*" (String "*" (String "/" p))))
    with ("", String "*" (String "*" (String "/" p))).
  cbn [Py.split Ascii.eqb Bool.eqb]. rewrite (split_no_sep _ _ H1).
  cbn [List.filter String.eqb Ascii.eqb Bool.eqb negb andb].
  rewrite H2, H3. reflexivity.
Qed.

Lemma match_zip_nil (parts : list string) : Glob.match_zip parts [] = true.
Proof. destruct parts; reflexivity. Qed.

Lemma path_match_name (path p : string) :
  name_pattern p = true ->
  Glob.path_match path p = Return (file_name_matches path p).
Proof.
  intros H. unfold Glob.path_match, file_name_matches.
  rewrite (parse_parts_name _ H).
  destruct (Glob.parse_parts path) as [path_root parts]. cbn [snd].
  cbn [String.eqb negb andb length rev app].
  rewrite <- (length_rev parts).
  destruct (rev parts) as [|file_name rest]; [reflexivity|].
  cbn [length Nat.ltb Nat.leb Glob.match_zip].
  rewrite match_zip_nil, andb_true_r. reflexivity.
Qed.

Lemma path_match_below_stars (path p : string) :
  name_pattern p = true ->
  Glob.path_match path ("**/" +:+ p)
  = Return (match rev (snd (Glob.parse_parts path)) with
            | file_name :: _ :: _ => Glob.fnmatchcase file_name p
            | _ => false
            end).
Proof.
  intros H. unfold Glob.path_match.
  rewrite (parse_parts_below_stars _ H).
  destruct (Glob.parse_parts path) as [path_root parts]. cbn [snd].
  cbn [String.eqb negb andb length rev app].
  rewrite <- (length_rev parts).
  destruct (rev parts) as [|file_name [|dir rest]]; [reflexivity..|].
  cbn [length Nat.ltb Nat.leb Glob.match_zip].
  rewrite (fnmatchcase_star_star dir), match_zip_nil, !andb_true_r.
  reflexivity.
Qed.

(** X20. With the single ignore pattern [**/p], [p] naming one component,
    [_should_ignore] never raises and ignores a file exactly when its name
    matches [p], in a directory or at the root: the second test, on the
    pattern without its first three characters, is what covers the root. *)
Theorem should_ignore_by_file_name (p rel_path : string) :
  name_pattern p = true ->
  Parser._should_ignore ["**/" +:+ p] (Some rel_path)
  = Return (file_name_matches rel_path p).
Proof.
  intros H. unfold Parser._should_ignore. cbn [Parser.any_ignore_match].
  rewrite (path_match_below_stars _ _ H).
  replace (Py.startswith ("**/" +:+ p) "**/") with true
    by (destruct p; reflexivity).
  change (Parser.drop3 ("**/" +:+ p)) with p.
  rewrite (path_match_name _ _ H). unfold file_name_matches.
  destruct (rev (snd (Glob.parse_parts rel_path))) as [|file_name [|dir rest]];
    [reflexivity| |].
  - destruct (Glob.fnmatchcase file_name p); reflexivity.
  - destruct (Glob.fnmatchcase file_name p); reflexivity.
Qed.

Lemma should_ignore_by_file_name_witness :
  Parser._should_ignore ["**/test_[ab].py"] (Some "pkg/test_a.py")
  = Return true /\
  Parser._should_ignore ["**/test_*.py"] (Some "test_login.py") = Return true.
Proof.
  split.
  - exact (should_ignore_by_file_name "test_[ab].py" "pkg/test_a.py" eq_refl).
  - exact (should_ignore_by_file_name "test_*.py" "test_login.py" eq_refl).
Defined.

Lemma any_path_match_names (path : string) (pats : list string) :
  forallb name_pattern pats = true ->
  Orphans.any_path_match path pats
  = Return (existsb (file_name_matches path) pats).
Proof.
  induction pats as [|p pats IH]; intros H; [reflexivity|].
  cbn [forallb] in H. apply andb_true_iff in H as [Hp Hps].
  cbn [Orphans.any_path_match existsb].
  rewrite (path_match_name _ _ Hp).
  destruct (file_name_matches path p); [reflexivity|]. apply IH, Hps.
Qed.

(** X21. In the orphan detector exclusion patterns of one component each
    are matched against the file name alone, whatever the directory, and
    matching them raises nothing. *)
Theorem orphan_name_patterns (m : Manifest) (s : CodeSymbol) :
  forallb name_pattern (patterns (exclusions m)) = true ->
  Orphans._is_excluded m s
  = Return (is_excluded m (qualified_path s)
            || existsb (file_name_matches (file_path s))
                 (patterns (exclusions m))).
Proof.
  intros H. unfold Orphans._is_excluded.
  destruct (is_excluded m (qualified_path s)); [reflexivity|].
  apply any_path_match_names, H.
Qed.

Lemma orphan_name_patterns_witness :
  Orphans._is_excluded
    (Demo.mk_manifest [] {| patterns := ["[ct]est.py"]; excl_symbols := [] |})
    (Demo.mk_symbol "fixture" "function" "tests/unit/test.py" 1 2)
  = Return true.
Proof.
  rewrite (orphan_name_patterns
             (Demo.mk_manifest []
                {| patterns := ["[ct]est.py"]; excl_symbols := [] |})
             (Demo.mk_symbol "fixture" "function" "tests/unit/test.py"
                1 2));
    reflexivity.
Defined.

(** ** Which symbol types are extracted *)

Lemma in_list_spec (x : string) (l : list string) :
  Parser.in_list x l = true <-> In x l.
Proof.
  unfold Parser.in_list. rewrite existsb_exists. split.
  - intros (y & Hin & Heq). apply String.eqb_eq in Heq. subst. exact Hin.
  - intros Hin. exists x. split; [exact Hin|apply String.eqb_refl].
Qed.

(** X22. For a symbol type that is none of the six plural keys of
    [type_map], the lookup in [type_map] adds nothing: with a non-empty
    [extract] list the type is extracted exactly when the list holds it or
    holds it followed by [s].  So [class] is not extracted under
    [classes]. *)
Theorem should_extract_symbol_singular (extract_types : list string)
    (symbol_type : string) :
  extract_types <> [] ->
  ~ In symbol_type (map fst Parser.type_map) ->
  Parser._should_extract_symbol extract_types symbol_type
  = Parser.in_list symbol_type extract_types
    || Parser.in_list (symbol_type +:+ "s") extract_types.
Proof.
  intros Hne Hkey. unfold Parser._should_extract_symbol.
  destruct extract_types as [|e es]; [congruence|].
  unfold Parser.type_map_get.
  destruct (find _ Parser.type_map) as [kv|] eqn:Hfind.
  - exfalso. apply find_some in Hfind as [Hin Heq].
    apply String.eqb_eq in Heq. apply Hkey. rewrite <- Heq.
    apply in_map, Hin.
  - cbn [fmap option_fmap option_map]. apply orb_false_r.
Qed.

Lemma should_extract_symbol_singular_witness :
  Parser._should_extract_symbol ["classes"; "functions"; "methods"] "class"
  = false /\
  Parser._should_extract_symbol ["classes"; "functions"; "methods"] "method"
  = true.
Proof.
  split.
  - rewrite (should_extract_symbol_singular
               ["classes"; "functions"; "methods"] "class").
    + reflexivity.
    + discriminate.
    + vm_compute. intuition discriminate.
  - rewrite (should_extract_symbol_singular
               ["classes"; "functions"; "methods"] "method").
    + reflexivity.
    + discriminate.
    + vm_compute. intuition discriminate.
Defined.

(** ** Combined reports *)

Lemma combine_fold (results : list Cli.service_result)
    (c : Cli.service_result) :
  let c' := foldl Cli.extend c results in
  Cli.service_name c' = Cli.service_name c /\
  Cli.valid c' = Cli.valid c /\
  Cli.errors c' = Cli.errors c ++ concat (map Cli.errors results) /\
  Cli.warnings c' = Cli.warnings c ++ concat (map Cli.warnings results) /\
  Cli.coverage_percentage c' = Cli.coverage_percentage c /\
  Cli.total_symbols c'
  = (Cli.total_symbols c + list_sum (map Cli.total_symbols results))%nat /\
  Cli.mapped_symbols c'
  = (Cli.mapped_symbols c + list_sum (map Cli.mapped_symbols results))%nat.
Proof.
  revert c. induction results as [|r results IH]; intros c; cbn zeta.
  - cbn [foldl map concat list_sum]. rewrite !app_nil_r, !Nat.add_0_r.
    repeat split.
  - cbn [foldl map concat list_sum].
    destruct (IH (Cli.extend c r)) as (H1 & H2 & H3 & H4 & H5 & H6 & H7).
    rewrite H1, H2, H3, H4, H5, H6, H7. cbn [Cli.extend Cli.service_name
      Cli.valid Cli.errors Cli.warnings Cli.coverage_percentage
      Cli.total_symbols Cli.mapped_symbols].
    rewrite <- !app_assoc. repeat split; unfold list_sum; cbn [fold_right]; lia.
Qed.

Lemma combine_results_returns (results : list Cli.service_result) :
  exists c,
    Cli.combine_results results = Return c /\
    Cli.valid c = forallb Cli.valid results /\
    Cli.errors c = concat (map Cli.errors results) /\
    Cli.warnings c = concat (map Cli.warnings results) /\
    Cli.total_symbols c = list_sum (map Cli.total_symbols results) /\
    Cli.mapped_symbols c = list_sum (map Cli.mapped_symbols results).
Proof.
  unfold Cli.combine_results. cbv zeta.
  match goal with
  | |- context [foldl Cli.extend ?c results] =>
      destruct (combine_fold results c) as (_ & H2 & H3 & H4 & _ & H6 & H7);
      set (c0 := foldl Cli.extend c results) in *
  end.
  cbn [Cli.valid Cli.errors Cli.warnings Cli.total_symbols
         Cli.mapped_symbols app Nat.add] in H2, H3, H4, H6, H7.
  destruct (0 <? Cli.total_symbols c0)%nat eqn:Hpos.
  - apply Nat.ltb_lt in Hpos. unfold Float.int_truediv.
    destruct (Z.of_nat (Cli.total_symbols c0) =? 0)%Z eqn:H0;
      [apply Z.eqb_eq in H0; lia|].
    eexists. split; [reflexivity|].
    cbn [Cli.valid Cli.errors Cli.warnings Cli.total_symbols
           Cli.mapped_symbols]. auto.
  - exists c0. split; [reflexivity|]. auto.
Qed.

Lemma concat_nil_Forall {A} (ls : list (list A)) :
  concat ls = [] <-> Forall (fun l => l = []) ls.
Proof.
  induction ls as [|l ls IH]; cbn [concat].
  - split; [constructor|reflexivity].
  - split.
    + intros H. apply app_eq_nil in H as [-> H]. constructor; [reflexivity|].
      apply IH, H.
    + intros H. inversion H as [|? ? -> H']. apply IH, H'.
Qed.

(** X23. Combining reports that were each built by [validate_service]
    keeps the link between the flag and the errors: the combined report is
    valid exactly when it lists no error, which is also when the command
    finds nothing for its exit code. *)
Theorem combined_report_valid_iff_no_errors
    (results : list Cli.service_result) :
  (forall r, In r results ->
             exists m coverage_result consistency_result,
               r = Cli.service_report m coverage_result consistency_result) ->
  exists c,
    Cli.combine_results results = Return c /\
    (Cli.valid c = true <-> Cli.errors c = []) /\
    Cli.has_errors results = negb (Cli.valid c).
Proof.
  intros Hbuilt.
  destruct (combine_results_returns results) as (c & Hc & Hv & He & _).
  exists c. split; [exact Hc|].
  rewrite Hv, He. split.
  - rewrite forallb_forall, concat_nil_Forall, Forall_map, List.Forall_forall.
    split; intros H r Hin; specialize (H r Hin);
      destruct (Hbuilt r Hin) as (m & cov & cons & ->);
      cbn [Cli.service_report Cli.valid Cli.errors] in *.
    + apply Nat.eqb_eq in H. apply length_zero_iff_nil, H.
    + rewrite H. reflexivity.
  - unfold Cli.has_errors. clear.
    induction results as [|r results IH]; [reflexivity|].
    cbn [existsb forallb]. rewrite IH, negb_andb. reflexivity.
Qed.

Lemma combined_report_valid_iff_no_errors_witness :
  exists clean gaps c,
    Coverage.validate Samples.manifest_plain
      [Demo.mk_symbol "MappedClass" "class" "test.py" 1 2] = Return clean /\
    Coverage.validate Demo.manifest_mixed Demo.parsed_mixed = Return gaps /\
    Cli.combine_results
      [Cli.service_report Samples.manifest_plain clean
         {| Consistency.valid := true; Consistency.errors := [];
            Consistency.warnings := [] |};
       Cli.service_report Demo.manifest_mixed gaps
         {| Consistency.valid := true; Consistency.errors := [];
            Consistency.warnings := [] |}] = Return c /\
    (Cli.valid c = true <-> Cli.errors c = []) /\
    Cli.valid c = false /\
    length (Cli.errors c) = 2.
Proof.
  destruct (validate_returns Samples.manifest_plain
              [Demo.mk_symbol "MappedClass" "class" "test.py" 1 2])
    as [clean Hclean].
  destruct (validate_returns Demo.manifest_mixed Demo.parsed_mixed)
    as [gaps Hgaps].
  exists clean, gaps.
  destruct (combined_report_valid_iff_no_errors
              [Cli.service_report Samples.manifest_plain clean
                 {| Consistency.valid := true; Consistency.errors := [];
                    Consistency.warnings := [] |};
               Cli.service_report Demo.manifest_mixed gaps
                 {| Consistency.valid := true; Consistency.errors := [];
                    Consistency.warnings := [] |}])
    as (c & Hc & Hiff & _).
  - intros r [<-|[<-|[]]]; eexists _, _, _; reflexivity.
  - exists c. split; [exact Hclean|]. split; [exact Hgaps|].
    split; [exact Hc|]. split; [exact Hiff|].
    pose proof Hclean as H1. vm_compute in H1. injection H1 as <-.
    pose proof Hgaps as H2. vm_compute in H2. injection H2 as <-.
    pose proof Hc as H3. vm_compute in H3. injection H3 as <-.
    split; reflexivity.
Defined.

(** X24. The combined report of a single service repeats that service's
    flag, errors, warnings and counts, and the percentage that it computes
    again from the counts is the one that the coverage validator gave. *)
Theorem combined_report_single_service (m : Manifest)
    (parsed_symbols : list CodeSymbol)
    (consistency_result : Consistency.ConsistencyResult) :
  exists coverage_result c,
    Coverage.validate m parsed_symbols = Return coverage_result /\
    Cli.combine_results
      [Cli.service_report m coverage_result consistency_result] = Return c /\
    let r := Cli.service_report m coverage_result consistency_result in
    Cli.valid c = Cli.valid r /\
    Cli.errors c = Cli.errors r /\
    Cli.warnings c = Cli.warnings r /\
    Cli.total_symbols c = Cli.total_symbols r /\
    Cli.mapped_symbols c = Cli.mapped_symbols r /\
    Cli.orphan_symbols c = Cli.orphan_symbols r /\
    Cli.invalid_mappings c = Cli.invalid_mappings r /\
    Cli.coverage_percentage c = Cli.coverage_percentage r.
Proof.
  destruct (validate_returns m parsed_symbols) as [cov Hcov]. exists cov.
  pose proof (coverage_percentage_eq m parsed_symbols cov Hcov) as Hp.
  destruct cov as [total mapped orphans invalid percentage errs].
  cbn [Coverage.coverage_percentage Coverage.total_symbols
         Coverage.mapped_symbols] in Hp.
  unfold Cli.combine_results, Cli.service_report.
  cbn [foldl forallb Cli.extend Cli.service_name Cli.valid Cli.errors
         Cli.warnings Cli.coverage_percentage Cli.total_symbols
         Cli.mapped_symbols Cli.orphan_symbols Cli.invalid_mappings
         Coverage.coverage_percentage Coverage.total_symbols
         Coverage.mapped_symbols Coverage.orphan_symbols
         Coverage.invalid_mappings Coverage.errors Nat.add app].
  destruct total as [|n].
  - cbn [Nat.ltb Nat.leb Nat.eqb] in *. cbv iota.
    eexists. split; [exact Hcov|]. split; [reflexivity|].
    cbn [Cli.valid Cli.errors Cli.warnings Cli.coverage_percentage
           Cli.total_symbols Cli.mapped_symbols Cli.orphan_symbols
           Cli.invalid_mappings].
    rewrite andb_true_r, Hp. repeat split.
  - change (0 <? S n)%nat with true. change (S n =? 0)%nat with false in Hp.
    cbv iota. unfold Float.int_truediv.
    change (Z.of_nat (S n) =? 0)%Z with false. cbv iota.
    eexists. split; [exact Hcov|]. split; [reflexivity|].
    cbn [Cli.valid Cli.errors Cli.warnings Cli.coverage_percentage
           Cli.total_symbols Cli.mapped_symbols Cli.orphan_symbols
           Cli.invalid_mappings].
    rewrite andb_true_r, Hp. repeat split.
Qed.

(** ** The client *)

Lemma is_not_None_spec (v : Client.json) :
  Client.is_not_None v = true <-> v <> Client.JNull.
Proof. destruct v; cbn; split; congruence. Qed.

(** [1.0 / self.rate_limit] is the float nearest to a third, which lies
    below it. *)
Lemma min_interval_value :
  Float.div 1 (inject_Z Client.rate_limit) = Return (Float.rnd (1 / 3)) /\
  Float.rnd (1 / 3) = (6004799503160661 # 18014398509481984)%Q /\
  (Float.rnd (1 / 3) < 1 / 3)%Q.
Proof. repeat split. Qed.

Section Pacing.
Context {World : Type}.
Variable time_time : World -> World * Q.
Variable time_sleep : Q -> World -> World.

Local Abbreviation _rate_limit := (Client._rate_limit time_time time_sleep).

Local Abbreviation elapsed := (Client.elapsed time_time).
Local Abbreviation rested := (Client.rested time_time time_sleep).
Local Abbreviation paced := (Client.paced time_time time_sleep).

Lemma sleep_length_nonneg (st : Client.state World) :
  Qle_bool (Float.rnd (1 / 3)) (elapsed st) = false ->
  (0 <= Float.sub (Float.rnd (1 / 3)) (elapsed st))%Q.
Proof.
  intros Hlt. unfold Float.sub at 1. apply rnd_nonneg.
  assert (H : ~ (Float.rnd (1 / 3) <= elapsed st)%Q).
  { rewrite <- Qle_bool_iff. congruence. }
  apply Qnot_le_lt in H. lra.
Qed.

Lemma rate_limit_run (st : Client.state World) :
  _rate_limit st = (paced st, Return tt).
Proof.
  unfold Client._rate_limit, bind, Client.now, Client.get_last_request_time,
    lift, Client.set_last_request_time, Client.paced, Client.rested.
  pose proof (sleep_length_nonneg st) as Hsleep. unfold Client.elapsed in *.
  destruct (time_time (Client.world st)) as [w1 t1].
  cbn [Client.set_world Client.last_request_time Client.world fst snd] in *.
  destruct min_interval_value as [-> _].
  set (mi := Float.rnd (1 / 3)) in *.
  destruct (Qle_bool mi (Float.sub t1 (Client.last_request_time st))) eqn:Hle;
    cbn [negb].
  - unfold ret.
    cbn [Client.set_world Client.world Client.files Client.writable
           Client.last_request_time].
    destruct (time_time w1) as [w3 t3]. reflexivity.
  - unfold Client.sleep. cbn [Client.world].
    specialize (Hsleep eq_refl). apply Qle_bool_iff in Hsleep.
    rewrite Hsleep.
    cbn [Client.set_world Client.world Client.files Client.writable
           Client.last_request_time].
    destruct (time_time (time_sleep _ w1)) as [w3 t3]. reflexivity.
Qed.

(** X25. [_rate_limit] never raises.  It reads the clock and, when the
    time elapsed since [last_request_time] is below the float [1.0 / 3],
    pauses for the difference of the two, which is not negative, so that
    [time.sleep] takes it; it leaves [last_request_time] at a second
    reading of the clock and does not touch the cache.  The interval is the
    float nearest to a third, which is less than a third. *)
Theorem rate_limit_returns (st : Client.state World) :
  _rate_limit st = (paced st, Return tt) /\
  (Qle_bool (Float.rnd (1 / 3)) (elapsed st) = false ->
   (0 <= Float.sub (Float.rnd (1 / 3)) (elapsed st))%Q) /\
  Client.files (paced st) = Client.files st /\
  Client.writable (paced st) = Client.writable st /\
  (Float.rnd (1 / 3) < 1 / 3)%Q.
Proof.
  split; [apply rate_limit_run|].
  split; [apply sleep_length_nonneg|].
  repeat split.
Qed.

End Pacing.

(** A client whose last request was made at 0.0 and whose clock reads 0.25
    pauses until 0.3333333333333333, which is short of a third of a
    second. *)
Example rate_limit_below_third :
  Service._rate_limit Service.hurried
  = ({| Client.files := ∅; Client.writable := true;
        Client.last_request_time := 6004799503160661 # 18014398509481984;
        Client.world := (0%nat, (6004799503160661 # 18014398509481984)%Q) |},
     Return tt) /\
  (6004799503160661 # 18014398509481984 < 1 / 3)%Q.
Proof. split; reflexivity. Qed.

Lemma get_cached_hit_inv {Json World : Type} (py_None : Json)
    (json_load : string -> option Json) (fromtimestamp : Q -> outcome Z)
    (datetime_now : World -> World * Z) cfg key
    (fs fs' : gmap string Cache.file) (w w' : World) (v : Json) :
  Cache._get_cached py_None json_load fromtimestamp datetime_now cfg key fs w
  = (fs', w', Return v) ->
  v <> py_None ->
  fs' = fs /\
  exists f,
    fs !! Cache._get_cache_path cfg key = Some f /\
    Cache.readable f = true /\ json_load (Cache.content f) = Some v.
Proof.
  unfold Cache._get_cached.
  destruct (negb _); [intros [= <- <- <-]; congruence|].
  destruct (fs !! _) as [f|]; [|intros [= <- <- <-]; congruence].
  destruct (fromtimestamp _) as [e|mtime]; [discriminate|].
  destruct (datetime_now w) as [w1 now].
  destruct (Cache.timedelta _) as [e|ttl]; [discriminate|].
  destruct (_ <? _)%Z; [intros [= <- <- <-]; congruence|].
  destruct (Cache.readable f) eqn:Hr.
  - destruct (json_load _) as [data|] eqn:Hload;
      intros [= <- <- <-]; [|congruence].
    intros _. split; [reflexivity|]. exists f. auto.
  - intros [= <- <- <-]; congruence.
Qed.

Lemma extend_returns (results results0 : list Client.json)
    (items : Client.json) (r0 : list Client.json) :
  Client.extend results0 items = Return r0 ->
  exists r, Client.extend results items = Return r.
Proof. destruct items; cbn; try discriminate; eauto. Qed.

Lemma get_item_returns (data : Client.json) (key key' : string)
    (dflt dflt' v : Client.json) :
  Client.get_item data key dflt = Return v ->
  exists v', Client.get_item data key' dflt' = Return v'.
Proof. destruct data; cbn; try discriminate; eauto. Qed.

Section ClientFacts.
Context {World : Type}.
Variable time_time : World -> World * Q.
Variable time_sleep : Q -> World -> World.
Variable datetime_now : World -> World * Z.
Variable file_time : World -> World * Q.
Variable fromtimestamp : Q -> outcome Z.
Variable cfg : Cache.config.
Variable json_dump : Client.json -> string.
Variable json_load : string -> option Client.json.
Variable sha256_hexdigest : string -> string.
Variable py_str : option Client.json -> string.
Variable post : string -> Client.payload -> World -> World * Client.response.
Variable get : string -> World -> World * Client.response.

Local Abbreviation _rate_limit := (Client._rate_limit time_time time_sleep).
Local Abbreviation _get_cached :=
  (Client._get_cached datetime_now fromtimestamp cfg json_load).
Local Abbreviation _set_cached := (Client._set_cached file_time cfg json_dump).
Local Abbreviation query_loop :=
  (Client.query_loop time_time time_sleep post).
Local Abbreviation search_database :=
  (Client.search_database time_time time_sleep datetime_now file_time
     fromtimestamp cfg json_dump json_load sha256_hexdigest py_str post).
Local Abbreviation get_page :=
  (Client.get_page time_time time_sleep datetime_now file_time fromtimestamp
     cfg json_dump json_load sha256_hexdigest get).
Local Abbreviation db_key database_id filter_params :=
  (Client._get_cache_key sha256_hexdigest
     ("db_" +:+ database_id +:+ "_" +:+ py_str filter_params)).
Local Abbreviation page_key page_id :=
  (Client._get_cache_key sha256_hexdigest ("page_" +:+ page_id)).
Local Abbreviation query_url database_id :=
  (Client.base_url +:+ "/databases/" +:+ database_id +:+ "/query").

Lemma rate_limit_frame (st st' : Client.state World) o :
  _rate_limit st = (st', o) ->
  o = Return tt /\
  Client.files st' = Client.files st /\
  Client.writable st' = Client.writable st.
Proof. rewrite rate_limit_run. intros [= <- <-]. repeat split. Qed.

Lemma get_cached_frame cache_key (st : Client.state World) :
  Client.writable (_get_cached cache_key st).1 = Client.writable st /\
  Client.last_request_time (_get_cached cache_key st).1
  = Client.last_request_time st.
Proof.
  unfold Client._get_cached.
  destruct (Cache._get_cached _ _ _ _ _ _ _ _) as [[fs w] o]. split; reflexivity.
Qed.

Lemma get_cached_hit cache_key (st : Client.state World) f mtime data :
  Cache.cache_enabled cfg = true ->
  (-86399999913600 <= Cache.cache_ttl cfg <= 86399999999999)%Z ->
  Client.files st !! Cache._get_cache_path cfg cache_key = Some f ->
  fromtimestamp (Cache.st_mtime f) = Return mtime ->
  ((datetime_now (Client.world st)).2 - mtime
   <= Cache.cache_ttl cfg * 1000000)%Z ->
  Cache.readable f = true ->
  json_load (Cache.content f) = Some data ->
  _get_cached cache_key st
  = (Client.set_world st (datetime_now (Client.world st)).1, Return data).
Proof.
  intros Hen Hrange Hf Hm Hage Hr Hload. apply timedelta_range in Hrange.
  unfold Client._get_cached.
  rewrite (get_cached_fresh _ _ _ _ _ _ _ _ _ _ _ Hen Hf Hm Hrange Hage).
  rewrite Hr, Hload. reflexivity.
Qed.

Lemma post_query_frame database_id url payload (st st' : Client.state World) o :
  Client.post_query post database_id url payload st = (st', o) ->
  Client.files st' = Client.files st /\
  Client.writable st' = Client.writable st.
Proof.
  unfold Client.post_query.
  destruct (post url payload (Client.world st)) as [w [| code text | msg | e | data]];
    intros [= <- <-]; split; reflexivity.
Qed.

Lemma query_loop_frame fuel database_id url payload results next_cursor
    (st st' : Client.state World) o :
  query_loop fuel database_id url payload results next_cursor st = (st', o) ->
  Client.files st' = Client.files st /\
  Client.writable st' = Client.writable st.
Proof.
  revert payload results next_cursor st.
  induction fuel as [|fuel IH]; intros payload results next_cursor st;
    cbn [Client.query_loop].
  - intros [= <- <-]. split; reflexivity.
  - unfold bind at 1.
    destruct (Client.post_query _ _ _ _ _) as [st1 [e|data]] eqn:Hpost;
      apply post_query_frame in Hpost as [F1 W1];
      [intros [= <- <-]; auto|].
    unfold bind, lift.
    destruct (Client.get_item data "results" _) as [e|items];
      [intros [= <- <-]; auto|].
    destruct (Client.extend results items) as [e|results'];
      [intros [= <- <-]; auto|].
    destruct (Client.get_item data "has_more" _) as [e|has_more];
      [intros [= <- <-]; auto|].
    destruct (Client.get_item data "next_cursor" _) as [e|next];
      [intros [= <- <-]; auto|].
    destruct (Client.truthy has_more).
    + rewrite rate_limit_run. intros H. apply IH in H as [F2 W2].
      rewrite F2, W2. cbn [Client.paced Client.files Client.writable]. auto.
    + intros [= <- <-]. auto.
Qed.

(** With a service that answers well, the loop fails with a [NotionError]
    only. *)
Lemma query_loop_raises fuel database_id url payload results next_cursor
    (st st' : Client.state World) e :
  Client.answers_well post url ->
  query_loop fuel database_id url payload results next_cursor st
  = (st', Raise e) ->
  exists msg, e = NotionError msg.
Proof.
  intros Hwell. revert payload results next_cursor st.
  induction fuel as [|fuel IH]; intros payload results next_cursor st;
    cbn [Client.query_loop]; [discriminate|].
  unfold bind at 1. unfold Client.post_query.
  set (p := if Client.truthy next_cursor then _ else payload).
  specialize (Hwell p (Client.world st)).
  destruct (post url p (Client.world st))
    as [w [| code text | msg | e' | data]]; cbn [snd] in Hwell.
  - intros [= _ <-]. eauto.
  - intros [= _ <-]. eauto.
  - intros [= _ <-]. eauto.
  - destruct Hwell.
  - destruct Hwell as (items & r0 & Hitems & Hext).
    unfold bind, lift. unfold Client.page_rows in Hitems. rewrite Hitems.
    destruct (extend_returns results _ _ _ Hext) as [results' ->].
    destruct (get_item_returns data _ "has_more" _ (Client.JBool false) _ Hitems)
      as [has_more ->].
    destruct (get_item_returns data _ "next_cursor" _ Client.JNull _ Hitems)
      as [next ->].
    destruct (Client.truthy has_more); [|discriminate].
    rewrite rate_limit_run. apply IH.
Qed.

(** X26. A readable cache file for the query, holding a value other than
    [null] and of an age of [cache_ttl] seconds at most, answers
    [search_database] when [timedelta] takes the time to live: the value
    is returned, no request is sent and no pause made, and nothing changes
    but the world by the reading of the date. *)
Theorem search_database_cache_hit (fuel : nat) (database_id : string)
    (filter_params : option Client.json) (st : Client.state World)
    (f : Cache.file) (mtime : Z) (data : Client.json) :
  Cache.cache_enabled cfg = true ->
  (-86399999913600 <= Cache.cache_ttl cfg <= 86399999999999)%Z ->
  Client.files st
    !! Cache._get_cache_path cfg (db_key database_id filter_params) = Some f ->
  fromtimestamp (Cache.st_mtime f) = Return mtime ->
  ((datetime_now (Client.world st)).2 - mtime
   <= Cache.cache_ttl cfg * 1000000)%Z ->
  Cache.readable f = true ->
  json_load (Cache.content f) = Some data ->
  data <> Client.JNull ->
  search_database fuel database_id filter_params st
  = (Client.set_world st (datetime_now (Client.world st)).1,
     Return (Some data)).
Proof.
  intros Hen Hrange Hf Hm Hage Hr Hload Hdata.
  unfold Client.search_database. cbv zeta. unfold bind at 1.
  rewrite (get_cached_hit _ _ _ _ _ Hen Hrange Hf Hm Hage Hr Hload).
  apply is_not_None_spec in Hdata. rewrite Hdata. reflexivity.
Qed.

Lemma query_loop_collects (url : string)
    (rows_from : option Client.json -> list Client.json) :
  Client.paginates post url rows_from ->
  forall fuel database_id payload results next_cursor
         (st : Client.state World),
    let cursor :=
      if Client.truthy next_cursor then Some next_cursor
      else Client.start_cursor payload in
    (length (rows_from cursor) < fuel)%nat ->
    exists st',
      query_loop fuel database_id url payload results next_cursor st
      = (st', Return (Some (results ++ rows_from cursor))).
Proof.
  intros Hpag. induction fuel as [|fuel IH];
    intros database_id payload results next_cursor st cursor Hlen; [lia|].
  cbn [Client.query_loop].
  set (payload' := if Client.truthy next_cursor then _ else payload).
  assert (Hcur : Client.start_cursor payload' = cursor).
  { subst payload' cursor. destruct (Client.truthy next_cursor); reflexivity. }
  destruct (Hpag payload' (Client.world st))
    as (w' & data & rows & has_more & next & Hpost & Hrows & Hmore & Hnext
        & Hdata).
  unfold bind at 1. unfold Client.post_query. rewrite Hpost.
  unfold bind, lift.
  unfold Client.page_rows in Hrows. unfold Client.more in Hmore.
  unfold Client.cursor in Hnext. rewrite Hrows, Hmore, Hnext.
  cbn [Client.extend]. rewrite Hcur in Hdata.
  destruct (Client.truthy has_more).
  - destruct Hdata as (Hc & Hne & Hall). rewrite rate_limit_run.
    destruct (IH database_id payload' (results ++ rows) next
                (Client.paced time_time time_sleep (Client.set_world st w')))
      as (st' & Hloop).
    + rewrite Hc. rewrite <- Hall, length_app in Hlen.
      destruct rows; [congruence|]. cbn [length] in Hlen. lia.
    + exists st'. rewrite Hloop, Hc, <- app_assoc, Hall. reflexivity.
  - exists (Client.set_world st w'). rewrite Hdata. reflexivity.
Qed.

(** X27. When the cache has nothing for the query and the service hands
    out its rows page by page, [search_database] returns every row, in
    order and once, whatever the number of pages, provided that the bound
    on the number of requests exceeds the number of rows. *)
Theorem search_database_collects_all_pages (fuel : nat)
    (database_id : string) (filter_params : option Client.json)
    (st : Client.state World)
    (rows_from : option Client.json -> list Client.json) :
  Client.paginates post (query_url database_id) rows_from ->
  (_get_cached (db_key database_id filter_params) st).2
  = Return Client.JNull ->
  (length (rows_from None) < fuel)%nat ->
  exists st',
    search_database fuel database_id filter_params st
    = (st', Return (Some (Client.JList (rows_from None)))).
Proof.
  intros Hpag Hmiss Hlen. unfold Client.search_database. cbv zeta.
  unfold bind at 1.
  destruct (_get_cached _ st) as [st0 o]. cbn [snd] in Hmiss. subst o.
  cbn [Client.is_not_None]. unfold bind at 1. rewrite rate_limit_run.
  unfold bind at 1.
  match goal with
  | |- context [Client.query_loop _ _ _ fuel ?d ?u ?p [] Client.JNull ?s] =>
      destruct (query_loop_collects u rows_from Hpag fuel d p [] Client.JNull
                  s Hlen)
        as (st' & Hloop)
  end.
  rewrite Hloop. cbn [app Client.start_cursor Client.truthy].
  unfold bind, ret. destruct (Client._set_cached _ _ _ _ _ st') as [st2 o] eqn:Hset.
  unfold Client._set_cached in Hset.
  destruct (Cache._set_cached _ _ _ _ _ _ _ _) as [fs w] in Hset.
  injection Hset as <- <-. eauto.
Qed.

Lemma set_cached_run cache_key data (st : Client.state World) :
  Cache.cache_enabled cfg = true ->
  Client.writable st = true ->
  _set_cached cache_key data st
  = (Client.set_files st
       (<[Cache._get_cache_path cfg cache_key :=
            {| Cache.content := json_dump data;
               Cache.st_mtime := (file_time (Client.world st)).2;
               Cache.readable := true |}]> (Client.files st))
       (file_time (Client.world st)).1, Return tt).
Proof.
  intros Hen Hw. unfold Client._set_cached.
  rewrite Hw, (set_cached_written json_dump file_time _ _ _ _ _ Hen).
  reflexivity.
Qed.

Lemma set_cached_frame cache_key data (st st' : Client.state World) o :
  _set_cached cache_key data st = (st', o) ->
  o = Return tt /\ Client.writable st' = Client.writable st.
Proof.
  unfold Client._set_cached.
  destruct (Cache._set_cached _ _ _ _ _ _ _ _) as [fs w].
  intros [= <- <-]. split; reflexivity.
Qed.

(** What a call that returned has left in the cache: a readable file that
    holds the value returned. *)
Lemma search_database_leaves_entry (fuel : nat) (database_id : string)
    (filter_params : option Client.json) (st st1 : Client.state World)
    (res : Client.json) :
  search_database fuel database_id filter_params st
  = (st1, Return (Some res)) ->
  Cache.cache_enabled cfg = true ->
  Client.writable st = true ->
  json_load (json_dump res) = Some res ->
  res <> Client.JNull /\
  exists f,
    Client.files st1
      !! Cache._get_cache_path cfg (db_key database_id filter_params)
    = Some f /\
    Cache.readable f = true /\ json_load (Cache.content f) = Some res.
Proof.
  intros Hrun Hen Hw Hjson.
  unfold Client.search_database in Hrun. cbv zeta in Hrun.
  unfold bind at 1 in Hrun.
  pose proof (get_cached_frame (db_key database_id filter_params) st)
    as [Hw0 _].
  destruct (_get_cached _ st) as [st0 [e|cached]] eqn:Hget;
    [discriminate|]. cbn [fst] in Hw0.
  destruct (Client.is_not_None cached) eqn:Hnone.
  - injection Hrun as <- <-. apply is_not_None_spec in Hnone.
    split; [exact Hnone|].
    unfold Client._get_cached in Hget.
    destruct (Cache._get_cached _ _ _ _ _ _ _ _) as [[fs w] o] eqn:Hc.
    injection Hget as <- ->.
    destruct (get_cached_hit_inv _ _ _ _ _ _ _ _ _ _ _ Hc Hnone)
      as (-> & f & Hf & Hr & Hload).
    exists f. auto.
  - unfold bind at 1 in Hrun. rewrite rate_limit_run in Hrun.
    unfold bind at 1 in Hrun.
    destruct (Client.query_loop _ _ _ _ _ _ _ _ _ _)
      as [st2 [e|[rows|]]] eqn:Hloop; try discriminate Hrun.
    apply query_loop_frame in Hloop as [_ Hw2].
    cbn [Client.paced Client.writable] in Hw2. rewrite Hw0, Hw in Hw2.
    unfold bind, ret in Hrun.
    rewrite (set_cached_run _ _ _ Hen Hw2) in Hrun.
    injection Hrun as <- <-. split; [discriminate|].
    eexists. cbn [Client.set_files Client.files].
    split; [apply lookup_insert_eq|]. split; [reflexivity|exact Hjson].
Qed.

(** X28. With the cache enabled and writable, a time to live that
    [timedelta] takes and a [json] that reads back the value returned, a
    [search_database] that has returned leaves a cache file for the query,
    and a later call that finds the same files, at an age of the file of
    [cache_ttl] seconds at most, returns the same value without a request:
    nothing changes but the world by the reading of the date.  An empty
    result is kept as well. *)
Theorem search_database_repeatable (fuel fuel' : nat) (database_id : string)
    (filter_params : option Client.json) (st st1 : Client.state World)
    (res : Client.json) :
  search_database fuel database_id filter_params st
  = (st1, Return (Some res)) ->
  Cache.cache_enabled cfg = true ->
  Client.writable st = true ->
  (-86399999913600 <= Cache.cache_ttl cfg <= 86399999999999)%Z ->
  json_load (json_dump res) = Some res ->
  exists f,
    Client.files st1
      !! Cache._get_cache_path cfg (db_key database_id filter_params)
    = Some f /\
    forall (st2 : Client.state World) (mtime : Z),
      Client.files st2 = Client.files st1 ->
      fromtimestamp (Cache.st_mtime f) = Return mtime ->
      ((datetime_now (Client.world st2)).2 - mtime
       <= Cache.cache_ttl cfg * 1000000)%Z ->
      search_database fuel' database_id filter_params st2
      = (Client.set_world st2 (datetime_now (Client.world st2)).1,
         Return (Some res)).
Proof.
  intros Hrun Hen Hw Hrange Hjson.
  destruct (search_database_leaves_entry _ _ _ _ _ _ Hrun Hen Hw Hjson)
    as (Hres & f & Hf & Hr & Hload).
  exists f. split; [exact Hf|]. intros st2 mtime Hfiles Hm Hage.
  rewrite <- Hfiles in Hf.
  unfold Client.search_database. cbv zeta. unfold bind at 1.
  rewrite (get_cached_hit _ _ _ _ _ Hen Hrange Hf Hm Hage Hr Hload).
  apply is_not_None_spec in Hres. rewrite Hres. reflexivity.
Qed.

(** X29. A [search_database] that fails writes nothing to the cache: the
    files are those that the look-up in the cache left.  When every answer
    of the service is a failure of [requests] or an object whose results
    can be iterated over, the exception is a [NotionError], unless it is
    the one that the look-up in the cache raised. *)
Theorem search_database_failure_not_cached (fuel : nat)
    (database_id : string) (filter_params : option Client.json)
    (st st' : Client.state World) (e : exn) :
  search_database fuel database_id filter_params st = (st', Raise e) ->
  Client.files st'
  = Client.files (_get_cached (db_key database_id filter_params) st).1 /\
  (Client.answers_well post (query_url database_id) ->
   (exists msg, e = NotionError msg) \/
   (_get_cached (db_key database_id filter_params) st).2 = Raise e).
Proof.
  unfold Client.search_database. cbv zeta. unfold bind at 1.
  destruct (_get_cached _ st) as [st0 [e0|cached]].
  - intros [= <- <-]. split; [reflexivity|]. intros _. right. reflexivity.
  - destruct (Client.is_not_None cached); [discriminate|].
    unfold bind at 1. rewrite rate_limit_run. unfold bind at 1.
    destruct (Client.query_loop _ _ _ _ _ _ _ _ _ _)
      as [st2 [e'|[rows|]]] eqn:Hloop.
    + intros [= <- <-].
      pose proof Hloop as Hfr. apply query_loop_frame in Hfr as [Hf _].
      split; [rewrite Hf; reflexivity|].
      intros Hwell. left.
      exact (query_loop_raises _ _ _ _ _ _ _ _ _ Hwell Hloop).
    + unfold bind, ret.
      destruct (Client._set_cached _ _ _ _ _ st2) as [st3 o] eqn:Hset.
      apply set_cached_frame in Hset as [-> _]. discriminate.
    + discriminate.
Qed.

(** X30. With the cache enabled and writable, a time to live that
    [timedelta] takes and a [json] that reads back the page, a page other
    than [null] that [get_page] has returned is kept in a cache file, and
    a later call that finds the same files, at an age of the file of
    [cache_ttl] seconds at most, returns the page without a request. *)
Theorem get_page_repeatable (page_id : string)
    (st st1 : Client.state World) (page : Client.json) :
  get_page page_id st = (st1, Return page) ->
  page <> Client.JNull ->
  Cache.cache_enabled cfg = true ->
  Client.writable st = true ->
  (-86399999913600 <= Cache.cache_ttl cfg <= 86399999999999)%Z ->
  json_load (json_dump page) = Some page ->
  exists f,
    Client.files st1 !! Cache._get_cache_path cfg (page_key page_id)
    = Some f /\
    forall (st2 : Client.state World) (mtime : Z),
      Client.files st2 = Client.files st1 ->
      fromtimestamp (Cache.st_mtime f) = Return mtime ->
      ((datetime_now (Client.world st2)).2 - mtime
       <= Cache.cache_ttl cfg * 1000000)%Z ->
      get_page page_id st2
      = (Client.set_world st2 (datetime_now (Client.world st2)).1,
         Return page).
Proof.
  intros Hrun Hpage Hen Hw Hrange Hjson.
  assert (Hentry : exists f,
             Client.files st1 !! Cache._get_cache_path cfg (page_key page_id)
             = Some f /\
             Cache.readable f = true /\
             json_load (Cache.content f) = Some page).
  { unfold Client.get_page in Hrun. cbv zeta in Hrun.
    unfold bind at 1 in Hrun.
    pose proof (get_cached_frame (page_key page_id) st) as [Hw0 _].
    destruct (_get_cached _ st) as [st0 [e|cached]] eqn:Hget;
      [discriminate|]. cbn [fst] in Hw0.
    destruct (Client.is_not_None cached) eqn:Hnone.
    - injection Hrun as <- <-. apply is_not_None_spec in Hnone.
      unfold Client._get_cached in Hget.
      destruct (Cache._get_cached _ _ _ _ _ _ _ _) as [[fs w] o] eqn:Hc.
      injection Hget as <- ->.
      destruct (get_cached_hit_inv _ _ _ _ _ _ _ _ _ _ _ Hc Hnone)
        as (-> & f & Hf & Hr & Hload).
      exists f. auto.
    - unfold bind at 1 in Hrun. rewrite rate_limit_run in Hrun.
      unfold bind at 1 in Hrun. unfold Client.get_url in Hrun.
      destruct (get _ _) as [w [| code text | msg | e | result]];
        try discriminate Hrun.
      unfold bind, ret in Hrun.
      rewrite set_cached_run in Hrun;
        [|exact Hen
         |cbn [Client.set_world Client.paced Client.writable]; congruence].
      injection Hrun as <- <-.
      eexists. cbn [Client.set_files Client.files].
      split; [apply lookup_insert_eq|]. split; [reflexivity|exact Hjson]. }
  destruct Hentry as (f & Hf & Hr & Hload).
  exists f. split; [exact Hf|]. intros st2 mtime Hfiles Hm Hage.
  rewrite <- Hfiles in Hf.
  unfold Client.get_page. cbv zeta. unfold bind at 1.
  rewrite (get_cached_hit _ _ _ _ _ Hen Hrange Hf Hm Hage Hr Hload).
  apply is_not_None_spec in Hpage. rewrite Hpage. reflexivity.
Qed.

End ClientFacts.

Lemma search_database_cache_hit_witness :
  Service.search_database 0 "db-feat" None Service.warm
  = (Service.warm, Return (Some Service.rows)).
Proof.
  apply (search_database_cache_hit Service.time_time Service.time_sleep
           Service.datetime_now Service.file_time Service.fromtimestamp
           Service.cache_config Service.json_dump Service.json_load
           Service.key_of Service.py_str Service.post
           0 "db-feat" None Service.warm Service.rows_file 3600000000
           Service.rows).
  - reflexivity.
  - vm_compute. split; discriminate.
  - vm_compute. reflexivity.
  - reflexivity.
  - vm_compute. discriminate.
  - reflexivity.
  - reflexivity.
  - discriminate.
Defined.

Lemma search_database_collects_all_pages_witness :
  exists st',
    Service.search_database 4 "db-feat" None Service.start
    = (st', Return (Some Service.rows)).
Proof.
  apply (search_database_collects_all_pages Service.time_time
           Service.time_sleep Service.datetime_now Service.file_time
           Service.fromtimestamp Service.cache_config Service.json_dump
           Service.json_load Service.key_of Service.py_str Service.post
           4 "db-feat" None Service.start Service.rows_from).
  - intros p w. exists (Service.request w). unfold Service.post.
    destruct (Client.start_cursor p) as [c|].
    + eexists _, _, _, _. repeat split; reflexivity.
    + eexists _, _, _, _.
      split; [reflexivity|]. split; [reflexivity|].
      split; [reflexivity|]. split; [reflexivity|].
      cbn. repeat split; discriminate.
  - reflexivity.
  - cbn. lia.
Defined.

Lemma search_database_repeatable_witness :
  let st1 := (Service.search_database 4 "db-feat" None Service.start).1 in
  Service.search_database 4 "db-feat" None Service.start
  = (st1, Return (Some Service.rows)) /\
  Service.search_database 0 "db-feat" None (Service.later 60 st1)
  = (Service.later 60 st1, Return (Some Service.rows)).
Proof.
  intros st1.
  assert (Hrun : Service.search_database 4 "db-feat" None Service.start
                 = (st1, Return (Some Service.rows)))
    by (vm_compute; reflexivity).
  split; [exact Hrun|].
  destruct (search_database_repeatable Service.time_time Service.time_sleep
              Service.datetime_now Service.file_time Service.fromtimestamp
              Service.cache_config Service.json_dump Service.json_load
              Service.key_of Service.py_str Service.post
              4 0 "db-feat" None Service.start st1 Service.rows Hrun)
    as (f & Hf & Hagain).
  - reflexivity.
  - reflexivity.
  - vm_compute. split; discriminate.
  - reflexivity.
  - apply (Hagain (Service.later 60 st1)
             (Service.local_time (Cache.st_mtime f))).
    + reflexivity.
    + reflexivity.
    + vm_compute in Hf. injection Hf as <-. vm_compute. discriminate.
Defined.

Lemma search_database_failure_not_cached_witness :
  exists st' msg,
    Service.search_database_down 4 "db-feat" None Service.start
    = (st', Raise (NotionError msg)) /\
    Client.files st' = ∅.
Proof.
  destruct (Service.search_database_down 4 "db-feat" None Service.start)
    as [st' o] eqn:Hrun.
  assert (Ho : exists e, o = Raise e).
  { pose proof Hrun as H. vm_compute in H. injection H as _ <-. eauto. }
  destruct Ho as [e ->].
  destruct (search_database_failure_not_cached Service.time_time
              Service.time_sleep Service.datetime_now Service.file_time
              Service.fromtimestamp Service.cache_config Service.json_dump
              Service.json_load Service.key_of Service.py_str
              Service.post_down 4 "db-feat" None Service.start st' e Hrun)
    as [Hfiles Hkind].
  destruct Hkind as [[msg ->]|Hget].
  - intros p w. exact I.
  - exists st', msg. split; [reflexivity|]. rewrite Hfiles. reflexivity.
  - vm_compute in Hget. discriminate Hget.
Defined.

(** A body that is a list where an object is expected: the
    [AttributeError] goes through the handlers, and nothing is cached. *)
Example search_database_body_not_object :
  exists st',
    Service.search_database_list 4 "db-feat" None Service.start
    = (st', Raise (AttributeError "'list' object has no attribute 'get'")) /\
    Client.files st' = ∅.
Proof. eexists. split; vm_compute; reflexivity. Qed.

Lemma get_page_repeatable_witness :
  let st1 := (Service.get_page "page-1" Service.start).1 in
  Service.get_page "page-1" Service.start = (st1, Return Service.page_1) /\
  Service.get_page "page-1" (Service.later 60 st1)
  = (Service.later 60 st1, Return Service.page_1).
Proof.
  intros st1.
  assert (Hrun : Service.get_page "page-1" Service.start
                 = (st1, Return Service.page_1))
    by (vm_compute; reflexivity).
  split; [exact Hrun|].
  destruct (get_page_repeatable Service.time_time Service.time_sleep
              Service.datetime_now Service.file_time Service.fromtimestamp
              Service.cache_config Service.json_dump Service.json_load
              Service.key_of Service.get
              "page-1" Service.start st1 Service.page_1 Hrun)
    as (f & Hf & Hagain).
  - discriminate.
  - reflexivity.
  - reflexivity.
  - vm_compute. split; discriminate.
  - reflexivity.
  - apply (Hagain (Service.later 60 st1)
             (Service.local_time (Cache.st_mtime f))).
    + reflexivity.
    + reflexivity.
    + vm_compute in Hf. injection Hf as <-. vm_compute. discriminate.
Defined.
